(** * bmap-tools: a shallow embedding of [bmaptools/BmapCopy.py]

    The development follows the Python module top to bottom: the run-time
    notions the module relies on (exceptions, integer division, string
    helpers, generators), the file objects it is handed, the [BmapCopy]
    session with its range and batch iterators, the reader thread
    [_get_data], the writer loop [copy], and the block-device
    specialisation [BmapBdevCopy].

    Python integers are unbounded, so they are embedded as [Z]; the [/] of
    Python 2 on integers is floor division, which is [Z.div] away from a
    zero divisor (where Python raises [ZeroDivisionError]). *)

From Stdlib Require Import ZArith List String Ascii Lia Bool DecimalString.
From Stdlib Require Import Strings.Byte.
Import ListNotations.

Open Scope string_scope.
Open Scope list_scope.
Open Scope Z_scope.

(* ------------------------------------------------------------------ *)
(** ** Python run-time notions *)

Module Py.

(** The exception classes that can reach a caller of the module.  [Error]
    is the module's own class ([class Error(Exception): pass]); the others
    are the built-in classes raised by the primitives the module calls. *)
Inductive exn : Type :=
| Error (msg : string)
| IOError (msg : string)
| OSError (strerror : string)
| ParseError (msg : string)
| ValueError
| AttributeError
| ZeroDivisionError
| TypeError
| AssertionError
| KeyboardInterrupt.

Inductive result (A : Type) : Type :=
| Ok (a : A)
| Raise (e : exn).
Arguments Ok {A} a.
Arguments Raise {A} e.

(** What a system call or a library call reports: a value, or a failure
    with its message.  Which exception class the failure becomes depends on
    the call: [IOError] for file objects, [OSError] for the [os] module,
    [ParseError] for [ElementTree]. *)
Inductive outcome (A : Type) : Type :=
| Done (a : A)
| Failed (msg : string).
Arguments Done {A} a.
Arguments Failed {A} msg.

Definition io {A} (o : outcome A) : result A :=
  match o with Done a => Ok a | Failed m => Raise (IOError m) end.

Definition os {A} (o : outcome A) : result A :=
  match o with Done a => Ok a | Failed m => Raise (OSError m) end.

Definition xml {A} (o : outcome A) : result A :=
  match o with Done a => Ok a | Failed m => Raise (ParseError m) end.

Definition bind {A B} (m : result A) (k : A -> result B) : result B :=
  match m with
  | Ok a => k a
  | Raise e => Raise e
  end.

(** [try: m except C as err: raise h err], for a handler that re-raises. *)
Definition rescue {A} (m : result A) (h : exn -> option exn) : result A :=
  match m with
  | Ok a => Ok a
  | Raise e => match h e with Some e' => Raise e' | None => Raise e end
  end.

Definition on_IOError (f : string -> exn) (e : exn) : option exn :=
  match e with IOError m => Some (f m) | _ => None end.

Definition on_OSError (f : string -> exn) (e : exn) : option exn :=
  match e with OSError m => Some (f m) | _ => None end.

Definition on_ParseError (f : string -> exn) (e : exn) : option exn :=
  match e with ParseError m => Some (f m) | _ => None end.

Definition is_Error (e : exn) : bool :=
  match e with Error _ => true | _ => false end.

(** Truth value of an optional integer and of an optional string
    ([None], [0] and the empty string are false). *)
Definition truthy_int (x : option Z) : bool :=
  match x with Some n => negb (n =? 0) | None => false end.

Definition truthy_str (x : option string) : bool :=
  match x with Some s => negb (String.eqb s EmptyString) | None => false end.

(** [a / b] on integers. *)
Definition floordiv (a b : Z) : result Z :=
  if b =? 0 then Raise ZeroDivisionError else Ok (a / b).

(** ["%d" % n] and ["%u" % n]. *)
Definition fmt_d (n : Z) : string := NilEmpty.string_of_int (Z.to_int n).

(** *** Strings: [strip], [split(sep, 1)], [endswith], [int] *)

Definition is_space (c : ascii) : bool :=
  let n := N_of_ascii c in
  ((9 <=? n)%N && (n <=? 13)%N) || (n =? 32)%N.

Fixpoint lstrip_chars (l : list ascii) : list ascii :=
  match l with
  | c :: l' => if is_space c then lstrip_chars l' else l
  | [] => []
  end.

Definition strip_chars (l : list ascii) : list ascii :=
  rev (lstrip_chars (rev (lstrip_chars l))).

Definition strip (s : string) : string :=
  string_of_list_ascii (strip_chars (list_ascii_of_string s)).

(** [s.split(sep, 1)] for a one-character separator: the text before the
    first separator, and the text after it when there is one. *)
Fixpoint split1_chars (sep : ascii) (l : list ascii)
  : list ascii * option (list ascii) :=
  match l with
  | [] => ([], None)
  | c :: l' =>
      if Ascii.eqb c sep then ([], Some l')
      else let '(a, b) := split1_chars sep l' in (c :: a, b)
  end.

Definition split1 (sep : ascii) (s : string) : list string :=
  match split1_chars sep (list_ascii_of_string s) with
  | (a, None) => [string_of_list_ascii a]
  | (a, Some b) => [string_of_list_ascii a; string_of_list_ascii b]
  end.

Definition endswith (s suffix : string) : bool :=
  let n := String.length s in
  let m := String.length suffix in
  (m <=? n)%nat && String.eqb (substring (n - m) m s) suffix.

Definition digit_of (c : ascii) : option Z :=
  let n := N_of_ascii c in
  if ((48 <=? n)%N && (n <=? 57)%N)%bool then Some (Z.of_N n - 48) else None.

Fixpoint digits_value (acc : Z) (l : list ascii) : option Z :=
  match l with
  | [] => Some acc
  | c :: l' =>
      match digit_of c with
      | Some d => digits_value (acc * 10 + d) l'
      | None => None
      end
  end.

Definition unsigned_value (l : list ascii) : option Z :=
  match l with
  | [] => None
  | _ => digits_value 0 l
  end.

(** [int(s)]: surrounding white space is ignored, one sign is allowed, the
    rest must be a non-empty run of decimal digits. *)
Definition int (s : string) : result Z :=
  let body := strip_chars (list_ascii_of_string s) in
  let v :=
    match body with
    | "-"%char :: l => option_map Z.opp (unsigned_value l)
    | "+"%char :: l => unsigned_value l
    | l => unsigned_value l
    end in
  match v with
  | Some n => Ok n
  | None => Raise ValueError
  end.

(** [x.text.strip()] on an element that may be missing or empty. *)
Definition text_strip (t : option string) : result string :=
  match t with
  | Some s => Ok (strip s)
  | None => Raise AttributeError
  end.

End Py.

Import Py.

Declare Scope py_scope.
Delimit Scope py_scope with py.
Notation "x <- m ;; k" := (bind m (fun x => k))
  (at level 100, m at next level, right associativity) : py_scope.
Notation "' p <- m ;; k" := (bind m (fun p => k))
  (at level 100, p pattern, m at next level, right associativity) : py_scope.
Open Scope py_scope.

(* ------------------------------------------------------------------ *)
(** ** Generators and [for] loops *)

Module Gen.

(** A generator is a state with a [next] function: [Ok None] is
    [StopIteration], [Raise e] an exception raised inside the generator. *)
Definition step (I A : Type) : Type := I -> result (option (A * I)).

(** How a loop body, or a whole loop, ends. *)
Inductive ctl (S : Type) : Type :=
| Next (s : S)              (* fell through: go on after the statement *)
| Return (s : S)            (* a [return] was executed *)
| Throw (e : exn) (s : S)   (* an exception left the statement *)
| Spin (s : S).             (* the iteration budget ran out *)
Arguments Next {S} s.
Arguments Return {S} s.
Arguments Throw {S} e s.
Arguments Spin {S} s.

(** [for a in gen: body]. *)
Fixpoint for_in {I A S : Type} (fuel : nat) (next : step I A)
    (body : A -> S -> ctl S) (it : I) (s : S) : ctl S :=
  match fuel with
  | O => Spin s
  | S fuel' =>
      match next it with
      | Raise e => Throw e s
      | Ok None => Next s
      | Ok (Some (a, it')) =>
          match body a s with
          | Next s' => for_in fuel' next body it' s'
          | other => other
          end
      end
  end.

(** [list(gen)], when the generator stops within the budget. *)
Fixpoint to_list {I A : Type} (fuel : nat) (next : step I A) (it : I)
  : option (result (list A)) :=
  match fuel with
  | O => None
  | S fuel' =>
      match next it with
      | Raise e => Some (Raise e)
      | Ok None => Some (Ok [])
      | Ok (Some (a, it')) =>
          match to_list fuel' next it' with
          | Some (Ok l) => Some (Ok (a :: l))
          | other => other
          end
      end
  end.

End Gen.

Import Gen.

(* ------------------------------------------------------------------ *)
(** ** The batch iterator [_get_batches] *)

(** A batch [(start, end, length)]. *)
Definition batch : Type := (Z * Z * Z)%type.

(** The generator has two resumption points: inside the [while] loop, and
    after the final [yield]. *)
Inductive batches_iter : Type :=
| BatchesLoop (first : Z)
| BatchesStop.

(** One resumption of [_get_batches(first, last)] with
    [batch_blocks = self._batch_blocks]. *)
Definition _get_batches_next (batch_blocks last : Z) : step batches_iter batch :=
  fun it =>
    match it with
    | BatchesLoop first =>
        if first + batch_blocks - 1 <=? last then
          Ok (Some ((first, first + batch_blocks - 1, batch_blocks),
                    BatchesLoop (first + batch_blocks)))
        else
          let batch_blocks' := last - first + 1 in
          if batch_blocks' =? 0 then Ok None
          else Ok (Some ((first, first + batch_blocks' - 1, batch_blocks'),
                         BatchesStop))
    | BatchesStop => Ok None
    end.

Definition _get_batches (fuel : nat) (batch_blocks first last : Z)
  : option (result (list batch)) :=
  to_list fuel (_get_batches_next batch_blocks last) (BatchesLoop first).

(* ------------------------------------------------------------------ *)
(** ** File objects and the bmap document *)

(** The image: a readable, seekable stream of bytes.  [read(n)] returns the
    next [n] bytes, fewer at the end of the data and all the rest when [n]
    is negative; [im_read_error] says at which offsets a read raises
    [IOError].  [seek] and [tell] are position updates and never fail. *)
Record image_file : Type := {
  im_name : string;
  im_data : list byte;
  im_pos : Z;
  im_read_error : Z -> option string
}.

Definition image_seek (f : image_file) (pos : Z) : image_file :=
  {| im_name := im_name f; im_data := im_data f; im_pos := pos;
     im_read_error := im_read_error f |}.

Definition image_read (f : image_file) (n : Z)
  : result (list byte * image_file) :=
  match im_read_error f (im_pos f) with
  | Some msg => Raise (IOError msg)
  | None =>
      let rest := skipn (Z.to_nat (im_pos f)) (im_data f) in
      let buf := if n <? 0 then rest else firstn (Z.to_nat n) rest in
      Ok (buf, image_seek f (im_pos f + Z.of_nat (List.length buf)))
  end.

(** The destination: what was done to it is kept as a log, oldest event
    first.  A write may raise [IOError] depending on the offset, [flush]
    and [os.fsync] depending on what was done so far. *)
Inductive dest_event : Type :=
| DestWrite (pos : Z) (buf : list byte)
| DestFlush
| DestFsync.

Record dest_file : Type := {
  d_name : string;
  d_pos : Z;
  d_log : list dest_event;
  d_write_error : Z -> option string;
  d_flush_error : list dest_event -> option string;
  d_fsync_error : list dest_event -> option string
}.

Definition dest_with (f : dest_file) (pos : Z) (log : list dest_event)
  : dest_file :=
  {| d_name := d_name f; d_pos := pos; d_log := log;
     d_write_error := d_write_error f;
     d_flush_error := d_flush_error f;
     d_fsync_error := d_fsync_error f |}.

Definition dest_seek (f : dest_file) (pos : Z) : dest_file :=
  dest_with f pos (d_log f).

Definition dest_write (f : dest_file) (buf : list byte) : result dest_file :=
  match d_write_error f (d_pos f) with
  | Some msg => Raise (IOError msg)
  | None =>
      Ok (dest_with f (d_pos f + Z.of_nat (List.length buf))
            (d_log f ++ [DestWrite (d_pos f) buf]))
  end.

Definition dest_flush (f : dest_file) : result dest_file :=
  match d_flush_error f (d_log f) with
  | Some msg => Raise (IOError msg)
  | None => Ok (dest_with f (d_pos f) (d_log f ++ [DestFlush]))
  end.

Definition os_fsync (f : dest_file) : result dest_file :=
  match d_fsync_error f (d_log f) with
  | Some msg => Raise (OSError msg)
  | None => Ok (dest_with f (d_pos f) (d_log f ++ [DestFsync]))
  end.

(** The bmap document as [ElementTree] presents it: the [version]
    attribute of the root, the text of the three scalar elements ([None]
    when the element or its text is missing), and the [Range] children of
    [BlockMap] ([None] when there is no [BlockMap]). *)
Record xml_range : Type := {
  range_text : option string;
  range_sha1 : option string
}.

Record xml_doc : Type := {
  xml_version : option string;
  xml_BlockSize : option string;
  xml_BlocksCount : option string;
  xml_MappedBlocksCount : option string;
  xml_BlockMap : option (list xml_range)
}.

(** The bmap file: [bm_parse] is what [ElementTree.parse] makes of its
    contents, a document or a [ParseError]. *)
Record bmap_file : Type := {
  bm_name : string;
  bm_pos : Z;
  bm_parse : outcome xml_doc
}.

Definition bmap_seek (f : bmap_file) (pos : Z) : bmap_file :=
  {| bm_name := bm_name f; bm_pos := pos; bm_parse := bm_parse f |}.

(** A constructor argument: a file-like object or a path. *)
Inductive arg (F : Type) : Type :=
| AFile (f : F)
| APath (p : string).
Arguments AFile {F} f.
Arguments APath {F} p.

(** [if bmap:] on the optional third argument. *)
Definition truthy_arg {F} (a : option (arg F)) : bool :=
  match a with
  | None => false
  | Some (AFile _) => true
  | Some (APath p) => negb (String.eqb p EmptyString)
  end.

(** What the module asks of the operating system and of the libraries it
    imports; every field is a call the source makes. *)
Record system : Type := {
  (* bmaptools.BmapHelpers.human_size *)
  human_size : Z -> string;
  (* hashlib.new('sha1'), fed with these bytes, then hexdigest() *)
  sha1_hexdigest : list byte -> string;
  (* stat.S_ISREG(os.stat(path).st_mode) *)
  os_stat_isreg : string -> outcome bool;
  (* open(path, 'rb'), gzip.GzipFile(path, 'rb'), bz2.BZ2File(path, 'rb') *)
  open_rb : string -> outcome image_file;
  gzip_open : string -> outcome image_file;
  bz2_open : string -> outcome image_file;
  (* tarfile.open(path, 'r').getnames() and .extractfile(member) *)
  tar_getnames : string -> outcome (list string);
  tar_extractfile : string -> string -> outcome image_file;
  (* open(path, 'w') and open(path, 'r') *)
  open_w : string -> outcome dest_file;
  open_r : string -> outcome bmap_file;
  (* os.open(path, O_WRONLY | O_EXCL), os.fstat(fd), os.fdopen(fd, 'wb') *)
  os_open_excl : string -> outcome Z;
  os_fstat_fd : Z -> outcome unit;
  os_fdopen : Z -> outcome dest_file;
  (* os.lseek(f.fileno(), 0, os.SEEK_END) *)
  os_lseek_end : dest_file -> outcome Z;
  (* os.major and os.minor of os.fstat(f.fileno()).st_rdev *)
  os_rdev : dest_file -> Z * Z;
  (* os.path.exists(path) *)
  os_path_exists : string -> outcome bool;
  (* a sysfs control file: open(path, mode), read(), write(data) *)
  sysfs_open : string -> string -> outcome unit;
  sysfs_read : string -> outcome string;
  sysfs_write : string -> string -> outcome unit
}.

(** [os.fstat(f.fileno()).st_size] of an image opened with [open]. *)
Definition fstat_size (f : image_file) : Z :=
  Z.of_nat (List.length (im_data f)).

(* ------------------------------------------------------------------ *)
(** ** The [BmapCopy] class *)

Definition SUPPORTED_BMAP_VERSION : Z := 1.

(** [bmap_version] is the [version] attribute as a string, or the integer
    [0] when there is no bmap. *)
Inductive version_value : Type :=
| VersionStr (s : string)
| VersionInt (n : Z).

(** [mapped_percent] is the integer [100] when there is no bmap, and
    otherwise the float [(mapped_cnt * 100.0) / blocks_cnt], which is kept
    as the two integers it is computed from. *)
Inductive percent_value : Type :=
| PercentInt (n : Z)
| PercentFloat (mapped_cnt blocks_cnt : Z).

(** The attributes of an instance.  The ones [__init__] leaves at [None]
    in some cases are optional; [block_size] and [_batch_blocks] are set by
    every successful [__init__] before anything reads them. *)
Record BmapCopy : Type := {
  _xml : option xml_doc;
  _image_is_compressed : bool;
  _dest_fsync_watermark : option Z;
  _batch_blocks : Z;
  _batch_bytes : Z;
  _batch_queue_len : Z;
  bmap_version : version_value;
  block_size : Z;
  blocks_cnt : option Z;
  mapped_cnt : option Z;
  image_size : option Z;
  image_size_human : option string;
  mapped_size : option Z;
  mapped_size_human : option string;
  mapped_percent : option percent_value;
  _f_dest_needs_close : bool;
  _f_image_needs_close : bool;
  _f_bmap_needs_close : bool;
  _f_dest : dest_file;
  _f_image : image_file;
  _f_bmap : option bmap_file;
  _dest_path : string;
  _image_path : string;
  _bmap_path : option string
}.

(** Assignments to groups of attributes. *)
Definition set_sizes (self : BmapCopy)
    (v_image_size : Z) (v_image_size_human : string)
    (v_blocks_cnt v_mapped_cnt v_mapped_size : Z)
    (v_mapped_size_human : string) : BmapCopy :=
  {| _xml := _xml self;
     _image_is_compressed := _image_is_compressed self;
     _dest_fsync_watermark := _dest_fsync_watermark self;
     _batch_blocks := _batch_blocks self;
     _batch_bytes := _batch_bytes self;
     _batch_queue_len := _batch_queue_len self;
     bmap_version := bmap_version self;
     block_size := block_size self;
     blocks_cnt := Some v_blocks_cnt;
     mapped_cnt := Some v_mapped_cnt;
     image_size := Some v_image_size;
     image_size_human := Some v_image_size_human;
     mapped_size := Some v_mapped_size;
     mapped_size_human := Some v_mapped_size_human;
     mapped_percent := mapped_percent self;
     _f_dest_needs_close := _f_dest_needs_close self;
     _f_image_needs_close := _f_image_needs_close self;
     _f_bmap_needs_close := _f_bmap_needs_close self;
     _f_dest := _f_dest self;
     _f_image := _f_image self;
     _f_bmap := _f_bmap self;
     _dest_path := _dest_path self;
     _image_path := _image_path self;
     _bmap_path := _bmap_path self |}.

Definition set_files (self : BmapCopy) (f_image : image_file)
    (f_dest : dest_file) (f_bmap : option bmap_file) : BmapCopy :=
  {| _xml := _xml self;
     _image_is_compressed := _image_is_compressed self;
     _dest_fsync_watermark := _dest_fsync_watermark self;
     _batch_blocks := _batch_blocks self;
     _batch_bytes := _batch_bytes self;
     _batch_queue_len := _batch_queue_len self;
     bmap_version := bmap_version self;
     block_size := block_size self;
     blocks_cnt := blocks_cnt self;
     mapped_cnt := mapped_cnt self;
     image_size := image_size self;
     image_size_human := image_size_human self;
     mapped_size := mapped_size self;
     mapped_size_human := mapped_size_human self;
     mapped_percent := mapped_percent self;
     _f_dest_needs_close := _f_dest_needs_close self;
     _f_image_needs_close := _f_image_needs_close self;
     _f_bmap_needs_close := _f_bmap_needs_close self;
     _f_dest := f_dest;
     _f_image := f_image;
     _f_bmap := f_bmap;
     _dest_path := _dest_path self;
     _image_path := _image_path self;
     _bmap_path := _bmap_path self |}.

Definition set_batching (self : BmapCopy) (v_batch_bytes v_batch_blocks
    v_batch_queue_len : Z) (v_watermark : option Z) : BmapCopy :=
  {| _xml := _xml self;
     _image_is_compressed := _image_is_compressed self;
     _dest_fsync_watermark := v_watermark;
     _batch_blocks := v_batch_blocks;
     _batch_bytes := v_batch_bytes;
     _batch_queue_len := v_batch_queue_len;
     bmap_version := bmap_version self;
     block_size := block_size self;
     blocks_cnt := blocks_cnt self;
     mapped_cnt := mapped_cnt self;
     image_size := image_size self;
     image_size_human := image_size_human self;
     mapped_size := mapped_size self;
     mapped_size_human := mapped_size_human self;
     mapped_percent := mapped_percent self;
     _f_dest_needs_close := _f_dest_needs_close self;
     _f_image_needs_close := _f_image_needs_close self;
     _f_bmap_needs_close := _f_bmap_needs_close self;
     _f_dest := _f_dest self;
     _f_image := _f_image self;
     _f_bmap := _f_bmap self;
     _dest_path := _dest_path self;
     _image_path := _image_path self;
     _bmap_path := _bmap_path self |}.

Section Session.

Variable sys : system.

(** [_initialize_sizes(self, image_size)]. *)
Definition _initialize_sizes (self : BmapCopy) (v_image_size : Z)
  : result BmapCopy :=
  v_blocks_cnt <-
    floordiv (v_image_size + block_size self - 1) (block_size self) ;;
  Ok (set_sizes self v_image_size (human_size sys v_image_size)
        v_blocks_cnt v_blocks_cnt v_image_size
        (human_size sys v_image_size)).

(** What [_parse_bmap] reads from the document. *)
Record bmap_header : Type := {
  hdr_version : string;
  hdr_block_size : Z;
  hdr_blocks_cnt : Z;
  hdr_mapped_cnt : Z
}.

Definition unsupported_version (major : Z) : exn :=
  Error ("only bmap format version up to " ++ fmt_d SUPPORTED_BMAP_VERSION
         ++ " is supported, version " ++ fmt_d major
         ++ " is not supported").

Definition cannot_parse_bmap (bmap_path err : string) : exn :=
  Error ("cannot parse the bmap file '" ++ bmap_path
         ++ "' which should be a proper XML file: " ++ err).

(** The body of [_parse_bmap] between the two [seek]s, after
    [ElementTree.parse] has returned. *)
Definition parse_header (doc : xml_doc) : result bmap_header :=
  let v_bmap_version :=
    match xml_version doc with Some v => v | None => "None" end in
  major <- int (hd EmptyString (split1 "." v_bmap_version)) ;;
  if major >? SUPPORTED_BMAP_VERSION then Raise (unsupported_version major)
  else
    t_block_size <- text_strip (xml_BlockSize doc) ;;
    v_block_size <- int t_block_size ;;
    t_blocks_cnt <- text_strip (xml_BlocksCount doc) ;;
    v_blocks_cnt <- int t_blocks_cnt ;;
    t_mapped_cnt <- text_strip (xml_MappedBlocksCount doc) ;;
    v_mapped_cnt <- int t_mapped_cnt ;;
    (* (mapped_cnt * 100.0) / blocks_cnt *)
    if v_blocks_cnt =? 0 then Raise ZeroDivisionError
    else Ok {| hdr_version := v_bmap_version;
               hdr_block_size := v_block_size;
               hdr_blocks_cnt := v_blocks_cnt;
               hdr_mapped_cnt := v_mapped_cnt |}.

(** [_parse_bmap(self)], for an instance whose [_f_bmap] and [_bmap_path]
    are set. *)
Definition _parse_bmap (self : BmapCopy) : result BmapCopy :=
  match _f_bmap self, _bmap_path self with
  | Some f_bmap, Some bmap_path =>
      let bmap_pos := bm_pos f_bmap in
      let f_bmap := bmap_seek f_bmap 0 in
      doc <- rescue (xml (bm_parse f_bmap))
               (on_ParseError (cannot_parse_bmap bmap_path)) ;;
      hdr <- parse_header doc ;;
      let v_image_size := hdr_blocks_cnt hdr * hdr_block_size hdr in
      let v_mapped_size := hdr_mapped_cnt hdr * hdr_block_size hdr in
      Ok {| _xml := Some doc;
            _image_is_compressed := _image_is_compressed self;
            _dest_fsync_watermark := _dest_fsync_watermark self;
            _batch_blocks := _batch_blocks self;
            _batch_bytes := _batch_bytes self;
            _batch_queue_len := _batch_queue_len self;
            bmap_version := VersionStr (hdr_version hdr);
            block_size := hdr_block_size hdr;
            blocks_cnt := Some (hdr_blocks_cnt hdr);
            mapped_cnt := Some (hdr_mapped_cnt hdr);
            image_size := Some v_image_size;
            image_size_human := Some (human_size sys v_image_size);
            mapped_size := Some v_mapped_size;
            mapped_size_human := Some (human_size sys v_mapped_size);
            mapped_percent :=
              Some (PercentFloat (hdr_mapped_cnt hdr) (hdr_blocks_cnt hdr));
            _f_dest_needs_close := _f_dest_needs_close self;
            _f_image_needs_close := _f_image_needs_close self;
            _f_bmap_needs_close := _f_bmap_needs_close self;
            _f_dest := _f_dest self;
            _f_image := _f_image self;
            _f_bmap := Some (bmap_seek f_bmap bmap_pos);
            _dest_path := _dest_path self;
            _image_path := _image_path self;
            _bmap_path := _bmap_path self |}
  | _, _ => Raise AttributeError
  end.

(** [_open_image_file(self)]: the image file object and the value of
    [_image_is_compressed] afterwards.  The tarball member is opened
    first; the second [if] then looks at the extension again. *)
Definition is_tarball (path : string) : bool :=
  endswith path ".tar.gz" || endswith path ".tar.bz2" || endswith path ".tgz".

Definition _open_image_file (image_path : string)
  : result (image_file * bool) :=
  is_regular_file <-
    rescue (os (os_stat_isreg sys image_path))
      (on_OSError (fun strerror =>
         Error ("cannot access image file '" ++ image_path ++ "': "
                ++ strerror))) ;;
  if negb is_regular_file then
    Raise (Error ("image file '" ++ image_path ++ "' is not a regular file"))
  else
    rescue
      (_ <- (if is_tarball image_path then
               members <- io (tar_getnames sys image_path) ;;
               match members with
               | [] =>
                   Raise (Error ("the image tarball '" ++ image_path
                                 ++ "' is empty (no files)"))
               | [member] =>
                   f <- io (tar_extractfile sys image_path member) ;; Ok tt
               | _ :: _ :: _ =>
                   Raise (Error ("the image tarball '" ++ image_path
                                 ++ "' contains more than one file"))
               end
             else Ok tt) ;;
       if endswith image_path ".gz" then
         f <- io (gzip_open sys image_path) ;; Ok (f, true)
       else if endswith image_path ".bz2" then
         f <- io (bz2_open sys image_path) ;; Ok (f, true)
       else
         f <- io (open_rb sys image_path) ;; Ok (f, false))
      (on_IOError (fun err =>
         Error ("cannot open image file '" ++ image_path ++ "': " ++ err))).

(** [BmapCopy._open_destination_file(self)]. *)
Definition _open_destination_file (dest_path : string) : result dest_file :=
  rescue (io (open_w sys dest_path))
    (on_IOError (fun err =>
       Error ("cannot open destination file '" ++ dest_path ++ "': " ++ err))).

(** [_open_bmap_file(self)]. *)
Definition _open_bmap_file (bmap_path : string) : result bmap_file :=
  rescue (io (open_r sys bmap_path))
    (on_IOError (fun strerror =>
       Error ("cannot open bmap file '" ++ bmap_path ++ "': " ++ strerror))).

(** [BmapCopy.__init__(self, image, dest, bmap)].  The method that opens
    the destination is looked up on the instance, so a subclass supplies
    its own. *)
Definition BmapCopy_init_with
    (open_destination : string -> result dest_file)
    (image : arg image_file) (dest : arg dest_file)
    (bmap : option (arg bmap_file)) : result BmapCopy :=
  '(f_dest, dest_path, dest_needs_close) <-
    match dest with
    | AFile f => Ok (f, d_name f, false)
    | APath p => f <- open_destination p ;; Ok (f, p, true)
    end ;;
  '(f_image, image_path, image_needs_close, image_is_compressed) <-
    match image with
    | AFile f => Ok (f, im_name f, false, true)
    | APath p => '(f, c) <- _open_image_file p ;; Ok (f, p, true, c)
    end ;;
  let self :=
    {| _xml := None;
       _image_is_compressed := image_is_compressed;
       _dest_fsync_watermark := None;
       _batch_blocks := 0;
       _batch_bytes := 1024 * 1024;
       _batch_queue_len := 2;
       bmap_version := VersionInt 0;
       block_size := 0;
       blocks_cnt := None;
       mapped_cnt := None;
       image_size := None;
       image_size_human := None;
       mapped_size := None;
       mapped_size_human := None;
       mapped_percent := None;
       _f_dest_needs_close := dest_needs_close;
       _f_image_needs_close := image_needs_close;
       _f_bmap_needs_close := false;
       _f_dest := f_dest;
       _f_image := f_image;
       _f_bmap := None;
       _dest_path := dest_path;
       _image_path := image_path;
       _bmap_path := None |} in
  self <-
    (if truthy_arg bmap then
       '(f_bmap, bmap_path, bmap_needs_close) <-
         match bmap with
         | Some (AFile f) => Ok (f, bm_name f, false)
         | Some (APath p) => f <- _open_bmap_file p ;; Ok (f, p, true)
         | None => Raise TypeError
         end ;;
       _parse_bmap
         {| _xml := _xml self;
            _image_is_compressed := _image_is_compressed self;
            _dest_fsync_watermark := _dest_fsync_watermark self;
            _batch_blocks := _batch_blocks self;
            _batch_bytes := _batch_bytes self;
            _batch_queue_len := _batch_queue_len self;
            bmap_version := bmap_version self;
            block_size := block_size self;
            blocks_cnt := blocks_cnt self;
            mapped_cnt := mapped_cnt self;
            image_size := image_size self;
            image_size_human := image_size_human self;
            mapped_size := mapped_size self;
            mapped_size_human := mapped_size_human self;
            mapped_percent := mapped_percent self;
            _f_dest_needs_close := _f_dest_needs_close self;
            _f_image_needs_close := _f_image_needs_close self;
            _f_bmap_needs_close := bmap_needs_close;
            _f_dest := _f_dest self;
            _f_image := _f_image self;
            _f_bmap := Some f_bmap;
            _dest_path := _dest_path self;
            _image_path := _image_path self;
            _bmap_path := Some bmap_path |}
     else
       let self :=
         {| _xml := _xml self;
            _image_is_compressed := _image_is_compressed self;
            _dest_fsync_watermark := _dest_fsync_watermark self;
            _batch_blocks := _batch_blocks self;
            _batch_bytes := _batch_bytes self;
            _batch_queue_len := _batch_queue_len self;
            bmap_version := VersionInt 0;
            block_size := 4096;
            blocks_cnt := blocks_cnt self;
            mapped_cnt := mapped_cnt self;
            image_size := image_size self;
            image_size_human := image_size_human self;
            mapped_size := mapped_size self;
            mapped_size_human := mapped_size_human self;
            mapped_percent := Some (PercentInt 100);
            _f_dest_needs_close := _f_dest_needs_close self;
            _f_image_needs_close := _f_image_needs_close self;
            _f_bmap_needs_close := _f_bmap_needs_close self;
            _f_dest := _f_dest self;
            _f_image := _f_image self;
            _f_bmap := _f_bmap self;
            _dest_path := _dest_path self;
            _image_path := _image_path self;
            _bmap_path := _bmap_path self |} in
       if negb (_image_is_compressed self) then
         _initialize_sizes self (fstat_size (_f_image self))
       else Ok self) ;;
  v_batch_blocks <- floordiv (_batch_bytes self) (block_size self) ;;
  Ok (set_batching self (_batch_bytes self) v_batch_blocks
        (_batch_queue_len self) (_dest_fsync_watermark self)).

Definition BmapCopy_init := BmapCopy_init_with _open_destination_file.

(** [__del__(self)]: the files it closes, in the order of the calls.  A
    flag that is set on an instance without the file raises
    [AttributeError] ([None] has no [close]). *)
Inductive closed_file : Type :=
| ClosedImage (f : image_file)
| ClosedDest (f : dest_file)
| ClosedBmap (f : bmap_file).

Definition __del__ (self : BmapCopy) : result (list closed_file) :=
  let closed_image :=
    if _f_image_needs_close self then [ClosedImage (_f_image self)] else [] in
  let closed_dest :=
    if _f_dest_needs_close self then [ClosedDest (_f_dest self)] else [] in
  closed_bmap <-
    (if _f_bmap_needs_close self then
       match _f_bmap self with
       | Some f => Ok [ClosedBmap f]
       | None => Raise AttributeError
       end
     else Ok []) ;;
  Ok (closed_image ++ closed_dest ++ closed_bmap).

(** *** The range iterator [_get_block_ranges] *)

(** A triplet [(first, last, sha1)]. *)
Definition triplet : Type := (Z * Z * option string)%type.

Definition bad_range (blocks_range : string) : exn :=
  Error ("bad range (first > last): '" ++ blocks_range ++ "'").

(** The body of the loop over the [Range] elements, up to the [yield]. *)
Definition parse_range (xml_element : xml_range) : result triplet :=
  blocks_range <- text_strip (range_text xml_element) ;;
  let sha1 := range_sha1 xml_element in
  match map strip (split1 "-" blocks_range) with
  | [] => Raise ValueError
  | [s_first] =>
      first <- int s_first ;;
      Ok (first, first, sha1)
  | s_first :: s_last :: _ =>
      first <- int s_first ;;
      last <- int s_last ;;
      if first >? last then Raise (bad_range blocks_range)
      else Ok (first, last, sha1)
  end.

(** The resumption points of the generator: before its first statement,
    inside the endless loop, inside the loop over the [Range] elements,
    and after the single range of an image of known size. *)
Inductive ranges_iter : Type :=
| RangesStart
| RangesForever (first : Z)
| RangesXml (rest : list xml_range)
| RangesStop.

Definition ranges_xml_next (rest : list xml_range)
  : result (option (triplet * ranges_iter)) :=
  match rest with
  | [] => Ok None
  | xml_element :: rest' =>
      t <- parse_range xml_element ;;
      Ok (Some (t, RangesXml rest'))
  end.

Definition _get_block_ranges_next (self : BmapCopy)
  : step ranges_iter triplet :=
  fun it =>
    match it with
    | RangesStart =>
        match _f_bmap self with
        | None =>
            match blocks_cnt self with
            | Some cnt =>
                if negb (cnt =? 0) then
                  Ok (Some ((0, cnt - 1, None), RangesStop))
                else
                  Ok (Some ((0, 0 + _batch_blocks self - 1, None),
                            RangesForever (0 + _batch_blocks self)))
            | None =>
                Ok (Some ((0, 0 + _batch_blocks self - 1, None),
                          RangesForever (0 + _batch_blocks self)))
            end
        | Some _ =>
            match _xml self with
            | Some doc =>
                match xml_BlockMap doc with
                | Some ranges => ranges_xml_next ranges
                | None => Raise AttributeError
                end
            | None => Raise AttributeError
            end
        end
    | RangesForever first =>
        Ok (Some ((first, first + _batch_blocks self - 1, None),
                  RangesForever (first + _batch_blocks self)))
    | RangesXml rest => ranges_xml_next rest
    | RangesStop => Ok None
    end.

(** [list(self._get_block_ranges())], when the iterator stops. *)
Definition _get_block_ranges (fuel : nat) (self : BmapCopy)
  : option (result (list triplet)) :=
  to_list fuel (_get_block_ranges_next self) RangesStart.

(** *** The reader thread [_get_data] *)

(** What travels through [_batch_queue]: [("range", start, end, length,
    buf)], [("error", exc_info)] and [None]. *)
Inductive qitem : Type :=
| QRange (start end_ length : Z) (buf : list byte)
| QError (e : exn)
| QNone.

(** The reader owns the image file; [rd_queue] is everything it has put on
    the queue so far, oldest item first. *)
Record reader : Type := {
  rd_image : image_file;
  rd_queue : list qitem
}.

Definition put (item : qitem) (rd : reader) : reader :=
  {| rd_image := rd_image rd; rd_queue := rd_queue rd ++ [item] |}.

Definition with_image (rd : reader) (f : image_file) : reader :=
  {| rd_image := f; rd_queue := rd_queue rd |}.

Definition read_error (start end_ : Z) (image_path err : string) : exn :=
  Error ("error while reading blocks " ++ fmt_d start ++ "-" ++ fmt_d end_
         ++ " of the image file '" ++ image_path ++ "': " ++ err).

Definition checksum_mismatch (first last : Z) (calculated sha1 : string)
  : exn :=
  Error ("checksum mismatch for blocks range " ++ fmt_d first ++ "-"
         ++ fmt_d last ++ ": calculated " ++ calculated ++ ", should be "
         ++ sha1).

(** [except Exception] catches every class of the model but
    [KeyboardInterrupt]. *)
Definition is_Exception (e : exn) : bool :=
  match e with KeyboardInterrupt => false | _ => true end.

(** The body of the inner loop, for one batch.  The second component of
    the state is what [hash_obj] has been fed since the range began. *)
Definition read_batch (self : BmapCopy) (verify : bool) (sha1 : option string)
    (b : batch) (st : reader * list byte) : ctl (reader * list byte) :=
  let '(start, end_, length) := b in
  let '(rd, hashed) := st in
  match rescue (image_read (rd_image rd) (length * block_size self))
          (on_IOError (read_error start end_ (_image_path self))) with
  | Raise e => Throw e st
  | Ok (buf, f_image) =>
      let rd := with_image rd f_image in
      match buf with
      | [] => Return (put QNone rd, hashed)
      | _ :: _ =>
          let hashed :=
            if verify && truthy_str sha1 then (hashed ++ buf)%list else hashed in
          match floordiv (Z.of_nat (List.length buf) + block_size self - 1)
                  (block_size self) with
          | Raise e => Throw e (rd, hashed)
          | Ok length' =>
              let end' := start + length' - 1 in
              Next (put (QRange start end' length' buf) rd, hashed)
          end
      end
  end.

(** The body of the outer loop, for one range. *)
Definition read_range (fuel : nat) (self : BmapCopy) (verify : bool)
    (t : triplet) (rd : reader) : ctl reader :=
  let '(first, last, sha1) := t in
  let rd := with_image rd (image_seek (rd_image rd) (first * block_size self)) in
  match for_in fuel (_get_batches_next (_batch_blocks self) last)
          (read_batch self verify sha1) (BatchesLoop first) (rd, []) with
  | Next (rd, hashed) =>
      match sha1 with
      | Some digest =>
          if verify && truthy_str sha1
             && negb (String.eqb (sha1_hexdigest sys hashed) digest)
          then Throw (checksum_mismatch first last
                        (sha1_hexdigest sys hashed) digest) rd
          else Next rd
      | None => Next rd
      end
  | Return (rd, _) => Return rd
  | Throw e (rd, _) => Throw e rd
  | Spin (rd, _) => Spin rd
  end.

(** [_get_data(self, verify)], started on a reader with an empty queue. *)
Definition _get_data (fuel : nat) (self : BmapCopy) (verify : bool)
    (rd : reader) : ctl reader :=
  match for_in fuel (_get_block_ranges_next self)
          (read_range fuel self verify) RangesStart rd with
  | Next rd => Next (put QNone rd)
  | Return rd => Return rd
  | Throw e rd =>
      if is_Exception e then Next (put QNone (put (QError e) rd))
      else Throw e rd
  | Spin rd => Spin rd
  end.

(** *** The writer: [sync] and [copy] *)

Definition cannot_synchronize (dest_path strerror : string) : exn :=
  Error ("cannot synchronize '" ++ dest_path ++ "': " ++ strerror ++ " ").

Definition write_error (start end_ : Z) (dest_path err : string) : exn :=
  Error ("error while writing blocks " ++ fmt_d start ++ "-" ++ fmt_d end_
         ++ " of '" ++ dest_path ++ "': " ++ err).

Definition size_mismatch (blocks_written v_mapped_cnt : Z) : exn :=
  Error ("wrote " ++ fmt_d blocks_written ++ " blocks, but should have "
         ++ fmt_d v_mapped_cnt ++ " - inconsistent bmap file").

Definition cannot_flush (dest_path err : string) : exn :=
  Error ("cannot flush '" ++ dest_path ++ "': " ++ err).

(** [os.fsync(self._f_dest.fileno())] inside [sync]'s [try]. *)
Definition sync_dest (dest_path : string) (f_dest : dest_file)
  : result dest_file :=
  rescue (os_fsync f_dest) (on_OSError (cannot_synchronize dest_path)).

(** [sync(self)]. *)
Definition sync (self : BmapCopy) : result BmapCopy :=
  f_dest <- sync_dest (_dest_path self) (_f_dest self) ;;
  Ok (set_files self (_f_image self) f_dest (_f_bmap self)).

(** The local state of [copy]'s loop. *)
Record writer : Type := {
  wr_dest : dest_file;
  blocks_written : Z;
  fsync_last : Z
}.

(** How the [while True] loop of [copy] ends on a given queue content: at
    [None] ([break]), with an exception, or waiting in [get()] for an
    item that has not been put yet. *)
Inductive drained : Type :=
| Finished (w : writer)
| Aborted (e : exn)
| Waiting (w : writer).

(** One data item: the statements of the loop body after the tests on
    [batch]. *)
Definition write_batch (self : BmapCopy) (start end_ length : Z)
    (buf : list byte) (w : writer) : result writer :=
  if negb (Z.of_nat (List.length buf) <=? length * block_size self) then
    Raise AssertionError
  else
    let f_dest := dest_seek (wr_dest w) (start * block_size self) in
    '(f_dest, v_fsync_last) <-
      (if truthy_int (_dest_fsync_watermark self) then
         match _dest_fsync_watermark self with
         | Some watermark =>
             if blocks_written w >=? fsync_last w + watermark then
               f <- sync_dest (_dest_path self) f_dest ;;
               Ok (f, blocks_written w)
             else Ok (f_dest, fsync_last w)
         | None => Ok (f_dest, fsync_last w)
         end
       else Ok (f_dest, fsync_last w)) ;;
    f_dest <- rescue (dest_write f_dest buf)
                (on_IOError (write_error start end_ (_dest_path self))) ;;
    Ok {| wr_dest := f_dest;
          blocks_written := blocks_written w + length;
          fsync_last := v_fsync_last |}.

Fixpoint write_batches (self : BmapCopy) (queue : list qitem) (w : writer)
  : drained :=
  match queue with
  | [] => Waiting w
  | QNone :: _ => Finished w
  | QError e :: _ => Aborted e
  | QRange start end_ length buf :: queue' =>
      match write_batch self start end_ length buf w with
      | Raise e => Aborted e
      | Ok w' => write_batches self queue' w'
      end
  end.

(** The reader's state however its run ended. *)
Definition ctl_state {S : Type} (c : ctl S) : S :=
  match c with
  | Next s | Return s | Throw _ s | Spin s => s
  end.

(** The statements of [copy] after the loop. *)
Definition finish_copy (self : BmapCopy) (do_sync : bool)
    (image_pos dest_pos : Z) (bmap_pos : option Z)
    (f_image : image_file) (w : writer) : result BmapCopy :=
  let self := set_files self f_image (wr_dest w) (_f_bmap self) in
  self <-
    (if negb (truthy_int (image_size self)) then
       _initialize_sizes self (blocks_written w * block_size self)
     else Ok self) ;;
  match mapped_cnt self with
  | None => Raise TypeError
  | Some v_mapped_cnt =>
      if negb (blocks_written w =? v_mapped_cnt) then
        Raise (size_mismatch (blocks_written w) v_mapped_cnt)
      else
        f_dest <- rescue (dest_flush (_f_dest self))
                    (on_IOError (cannot_flush (_dest_path self))) ;;
        let self := set_files self (_f_image self) f_dest (_f_bmap self) in
        self <- (if do_sync then sync self else Ok self) ;;
        let f_bmap :=
          match _f_bmap self, bmap_pos with
          | Some f, Some pos => Some (bmap_seek f pos)
          | other, _ => other
          end in
        Ok (set_files self (image_seek (_f_image self) image_pos)
              (dest_seek (_f_dest self) dest_pos) f_bmap)
  end.

(** [BmapCopy.copy(self, sync, verify)].  The reader thread runs on the
    image and the queue only, the loop of [copy] on the destination and
    the queue only, so the loop sees the items in the order the reader
    puts them whatever the interleaving: the reader is run first, for at
    most [fuel] iterations of each of its loops, and the loop of [copy]
    then consumes what was put.  The result is [None] when the loop would
    still be waiting in [get()]. *)
Definition BmapCopy_copy (fuel : nat) (self : BmapCopy)
    (do_sync verify : bool) : option (result BmapCopy) :=
  let image_pos := im_pos (_f_image self) in
  let dest_pos := d_pos (_f_dest self) in
  let bmap_pos := option_map bm_pos (_f_bmap self) in
  let rd := ctl_state (_get_data fuel self verify
                         {| rd_image := _f_image self; rd_queue := [] |}) in
  match write_batches self (rd_queue rd)
          {| wr_dest := _f_dest self; blocks_written := 0;
             fsync_last := 0 |} with
  | Waiting _ => None
  | Aborted e => Some (Raise e)
  | Finished w =>
      Some (finish_copy self do_sync image_pos dest_pos bmap_pos
              (rd_image rd) w)
  end.

(* ------------------------------------------------------------------ *)
(** ** The [BmapBdevCopy] class *)

(** What was done to the sysfs control files, oldest event first. *)
Inductive sysfs_event : Type :=
| SysOpen (path mode : string)
| SysRead (path : string)
| SysWrite (path data : string).

Record BmapBdevCopy : Type := {
  base : BmapCopy;
  _sysfs_base : string;
  _sysfs_scheduler_path : string;
  _sysfs_max_ratio_path : string;
  old_scheduler_value : option string;
  old_max_ratio_value : option string
}.

Definition with_base (self : BmapBdevCopy) (b : BmapCopy) : BmapBdevCopy :=
  {| base := b;
     _sysfs_base := _sysfs_base self;
     _sysfs_scheduler_path := _sysfs_scheduler_path self;
     _sysfs_max_ratio_path := _sysfs_max_ratio_path self;
     old_scheduler_value := old_scheduler_value self;
     old_max_ratio_value := old_max_ratio_value self |}.

Definition with_old_scheduler_value (self : BmapBdevCopy) (v : string)
  : BmapBdevCopy :=
  {| base := base self;
     _sysfs_base := _sysfs_base self;
     _sysfs_scheduler_path := _sysfs_scheduler_path self;
     _sysfs_max_ratio_path := _sysfs_max_ratio_path self;
     old_scheduler_value := Some v;
     old_max_ratio_value := old_max_ratio_value self |}.

Definition with_old_max_ratio_value (self : BmapBdevCopy) (v : string)
  : BmapBdevCopy :=
  {| base := base self;
     _sysfs_base := _sysfs_base self;
     _sysfs_scheduler_path := _sysfs_scheduler_path self;
     _sysfs_max_ratio_path := _sysfs_max_ratio_path self;
     old_scheduler_value := old_scheduler_value self;
     old_max_ratio_value := Some v |}.

(** [BmapBdevCopy._open_destination_file(self)]. *)
Definition Bdev_open_destination_file (dest_path : string)
  : result dest_file :=
  fd <- rescue (os (os_open_excl sys dest_path))
          (on_OSError (fun strerror =>
             Error ("cannot open block device '" ++ dest_path
                    ++ "' in exclusive mode: " ++ strerror))) ;;
  _ <- rescue (os (os_fstat_fd sys fd))
         (on_OSError (fun strerror =>
            Error ("cannot access block device '" ++ dest_path ++ "': "
                   ++ strerror))) ;;
  rescue (os (os_fdopen sys fd))
    (on_OSError (fun err =>
       Error ("cannot open block device '" ++ dest_path ++ "': " ++ err))).

Definition cannot_seek_bdev (dest_path strerror : string) : exn :=
  Error ("cannot seed block device '" ++ dest_path ++ "': " ++ strerror
         ++ " ").

Definition does_not_fit (image_path v_image_size_human dest_path
    bdev_size_human : string) : exn :=
  Error ("the image file '" ++ image_path ++ "' has size "
         ++ v_image_size_human ++ " and it will not fit the block device '"
         ++ dest_path ++ "' which has " ++ bdev_size_human ++ " capacity").

(** [BmapBdevCopy.__init__(self, image, dest, bmap)]. *)
Definition BmapBdevCopy_init (image : arg image_file) (dest : arg dest_file)
    (bmap : option (arg bmap_file)) : result BmapBdevCopy :=
  b <- BmapCopy_init_with Bdev_open_destination_file image dest bmap ;;
  let v_batch_bytes := 1024 * 1024 in
  v_batch_blocks <- floordiv v_batch_bytes (block_size b) ;;
  v_watermark <- floordiv (6 * 1024 * 1024) (block_size b) ;;
  let b := set_batching b v_batch_bytes v_batch_blocks 6 (Some v_watermark) in
  b <-
    (if truthy_int (image_size b) then
       bdev_size <- rescue (os (os_lseek_end sys (_f_dest b)))
                      (on_OSError (cannot_seek_bdev (_dest_path b))) ;;
       let b := set_files b (_f_image b) (dest_seek (_f_dest b) 0)
                  (_f_bmap b) in
       match image_size b, image_size_human b with
       | Some v_image_size, Some v_human =>
           if bdev_size <? v_image_size then
             Raise (does_not_fit (_image_path b) v_human (_dest_path b)
                      (human_size sys bdev_size))
           else Ok b
       | _, _ => Ok b
       end
     else Ok b) ;;
  let '(v_major, v_minor) := os_rdev sys (_f_dest b) in
  let sysfs_base : string :=
    ("/sys/dev/block/" ++ fmt_d v_major ++ ":" ++ fmt_d v_minor ++ "/")%string
  in
  let sysfs_base : string :=
    match os_path_exists sys (sysfs_base ++ "queue") with
    | Done true => sysfs_base
    | Done false => (sysfs_base ++ "../")%string
    | Failed _ => sysfs_base
    end in
  Ok {| base := b;
        _sysfs_base := sysfs_base;
        _sysfs_scheduler_path := sysfs_base ++ "queue/scheduler";
        _sysfs_max_ratio_path := sysfs_base ++ "bdi/max_ratio";
        old_scheduler_value := None;
        old_max_ratio_value := None |}.

(** [re.match(r'.*\[(.+)\].*', contents)] and [group(1)]: [.] does not
    match a newline, so only the first line counts; the leading [.*] is
    greedy, so the last opening bracket that is followed by at least one
    character and a closing bracket wins, and the group runs up to the
    last closing bracket after it. *)
Fixpoint first_line (l : list ascii) : list ascii :=
  match l with
  | [] => []
  | c :: l' => if Ascii.eqb c "010" then [] else c :: first_line l'
  end.

Fixpoint before_last_close (l : list ascii) : option (list ascii) :=
  match l with
  | [] => None
  | c :: l' =>
      match before_last_close l' with
      | Some p => Some (c :: p)
      | None => if Ascii.eqb c "]" then Some [] else None
      end
  end.

Fixpoint bracket_group (l : list ascii) : option (list ascii) :=
  match l with
  | [] => None
  | c :: l' =>
      match bracket_group l' with
      | Some g => Some g
      | None =>
          if Ascii.eqb c "[" then
            match before_last_close l' with
            | Some (d :: p) => Some (d :: p)
            | _ => None
            end
          else None
      end
  end.

Definition scheduler_in_brackets (contents : string) : option string :=
  option_map string_of_list_ascii
    (bracket_group (first_line (list_ascii_of_string contents))).

(** [_tune_block_device(self)]: the instance afterwards, or the exception,
    and the sysfs log.  Every failure of a sysfs file is an [IOError],
    which both handlers answer with [return]. *)
Definition _tune_block_device (self : BmapBdevCopy) (log : list sysfs_event)
  : result BmapBdevCopy * list sysfs_event :=
  let path := _sysfs_scheduler_path self in
  let log := (log ++ [SysOpen path "r+"])%list in
  match sysfs_open sys path "r+" with
  | Failed _ => (Ok self, log)
  | Done _ =>
  let log := (log ++ [SysRead path])%list in
  match sysfs_read sys path with
  | Failed _ => (Ok self, log)
  | Done contents =>
  let log := (log ++ [SysWrite path "noop"])%list in
  match sysfs_write sys path "noop" with
  | Failed _ => (Ok self, log)
  | Done _ =>
  match scheduler_in_brackets contents with
  | None => (Raise AttributeError, log)
  | Some v =>
  let self := with_old_scheduler_value self v in
  let path := _sysfs_max_ratio_path self in
  let log := (log ++ [SysOpen path "r+"])%list in
  match sysfs_open sys path "r+" with
  | Failed _ => (Ok self, log)
  | Done _ =>
  let log := (log ++ [SysRead path])%list in
  match sysfs_read sys path with
  | Failed _ => (Ok self, log)
  | Done ratio =>
  let self := with_old_max_ratio_value self ratio in
  let log := (log ++ [SysWrite path "1"])%list in
  match sysfs_write sys path "1" with
  | Failed _ => (Ok self, log)
  | Done _ => (Ok self, log)
  end end end end end end end.

(** [_restore_bdev_settings(self)]. *)
Definition _restore_bdev_settings (self : BmapBdevCopy)
    (log : list sysfs_event) : result unit * list sysfs_event :=
  let restore_ratio (log : list sysfs_event) :=
    match old_max_ratio_value self with
    | Some v =>
        let path := _sysfs_max_ratio_path self in
        let log := (log ++ [SysOpen path "w"])%list in
        match sysfs_open sys path "w" with
        | Failed _ => (Ok tt, log)
        | Done _ =>
            let log := (log ++ [SysWrite path v])%list in
            match sysfs_write sys path v with
            | Failed _ => (Ok tt, log)
            | Done _ => (Ok tt, log)
            end
        end
    | None => (Ok tt, log)
    end in
  match old_scheduler_value self with
  | Some v =>
      let path := _sysfs_scheduler_path self in
      let log := (log ++ [SysOpen path "w"])%list in
      match sysfs_open sys path "w" with
      | Failed _ => (Ok tt, log)
      | Done _ =>
          let log := (log ++ [SysWrite path v])%list in
          match sysfs_write sys path v with
          | Failed _ => (Ok tt, log)
          | Done _ => restore_ratio log
          end
      end
  | None => restore_ratio log
  end.

(** The handler of [BmapBdevCopy.copy]: [except: restore; raise]. *)
Definition restore_and_reraise (self : BmapBdevCopy) (e : exn)
    (log : list sysfs_event)
  : option (result BmapBdevCopy) * list sysfs_event :=
  match _restore_bdev_settings self log with
  | (Ok _, log) => (Some (Raise e), log)
  | (Raise e', log) => (Some (Raise e'), log)
  end.

(** [BmapBdevCopy.copy(self, sync, verify)]. *)
Definition BmapBdevCopy_copy (fuel : nat) (self : BmapBdevCopy)
    (do_sync verify : bool) (log : list sysfs_event)
  : option (result BmapBdevCopy) * list sysfs_event :=
  match _tune_block_device self log with
  | (Raise e, log) => restore_and_reraise self e log
  | (Ok self, log) =>
      match BmapCopy_copy fuel (base self) do_sync verify with
      | None => (None, log)
      | Some (Ok b) => (Some (Ok (with_base self b)), log)
      | Some (Raise e) => restore_and_reraise self e log
      end
  end.

End Session.

(* ------------------------------------------------------------------ *)
(** ** Notions used in the statements *)

(** *** Batch splitting *)

(** [n] full batches of [batch_blocks] blocks starting at [first]. *)
Fixpoint full_batches (batch_blocks first : Z) (n : nat) : list batch :=
  match n with
  | O => []
  | S n' =>
      (first, first + batch_blocks - 1, batch_blocks)
        :: full_batches batch_blocks (first + batch_blocks) n'
  end.

(** The shorter batch that ends a range, when something is left. *)
Definition final_batch (first last : Z) : list batch :=
  if last - first + 1 =? 0 then [] else [(first, last, last - first + 1)].

(** [tiles lo bs hi]: the batches [bs] are non-empty, each has
    [length = end - start + 1], the first starts at [lo], each next one
    starts right after the previous one ends, and the last ends at
    [hi - 1]. *)
Inductive tiles : Z -> list batch -> Z -> Prop :=
| tiles_nil : forall lo, tiles lo [] lo
| tiles_cons : forall lo len bs hi,
    0 < len ->
    tiles (lo + len) bs hi ->
    tiles lo ((lo, lo + len - 1, len) :: bs) hi.

Definition batch_length (b : batch) : Z := snd b.


(** *** The states [copy] starts from *)

(** The loop of [copy] before its first iteration, and the reader thread
    before its first statement. *)
Definition writer0 (self : BmapCopy) : writer :=
  {| wr_dest := _f_dest self; blocks_written := 0; fsync_last := 0 |}.

Definition reader0 (self : BmapCopy) : reader :=
  {| rd_image := _f_image self; rd_queue := [] |}.

(** The sizes a session has when [copy] compares [blocks_written] with
    [mapped_cnt]. *)
Definition sizes_at_check (sys : system) (self : BmapCopy) (w : writer)
  : result BmapCopy :=
  if negb (truthy_int (image_size self)) then
    _initialize_sizes sys self (blocks_written w * block_size self)
  else Ok self.

(** *** Classes of exceptions *)

(** The classes raised by Python built-ins on values they cannot handle. *)
Definition is_builtin (e : exn) : bool :=
  match e with
  | ValueError | AttributeError | ZeroDivisionError | TypeError
  | AssertionError => true
  | _ => false
  end.

(** An exception that is either the module's [Error] or one of the
    built-in classes above: in particular not an [IOError], an [OSError]
    or a [ParseError]. *)
Definition module_failure (e : exn) : Prop :=
  is_Error e || is_builtin e = true.

(** *** What the reader thread has put on the queue *)

Definition is_data (item : qitem) : Prop :=
  match item with QRange _ _ _ _ => True | _ => False end.

(** [extends proj q0 c]: the statement that ended as [c] was started with
    [q0] on the queue and has put only data items since, followed by one
    end-of-stream marker when it ended with [return]; the image holds the
    same data as in [f0]; an exception that leaves it is an [Error] or
    comes from a built-in. *)
Definition extends {S : Type} (proj : S -> reader) (f0 : image_file)
    (q0 : list qitem) (c : ctl S) : Prop :=
  match c with
  | Next s | Spin s =>
      im_data (rd_image (proj s)) = im_data f0
      /\ exists ds, rd_queue (proj s) = q0 ++ ds /\ Forall is_data ds
  | Throw e s =>
      module_failure e
      /\ im_data (rd_image (proj s)) = im_data f0
      /\ exists ds, rd_queue (proj s) = q0 ++ ds /\ Forall is_data ds
  | Return s =>
      im_data (rd_image (proj s)) = im_data f0
      /\ exists ds, rd_queue (proj s) = q0 ++ ds ++ [QNone]
                    /\ Forall is_data ds
  end.

(** How the queue of a reader that has finished looks: data items, then
    either the end-of-stream marker, or one error record and the
    end-of-stream marker. *)
Definition ends_with_marker (queue : list qitem) : Prop :=
  exists ds,
    Forall is_data ds
    /\ (queue = ds ++ [QNone]
        \/ exists e, module_failure e /\ queue = ds ++ [QError e; QNone]).

(** Iterations that are enough for [_get_batches(first, last)]. *)
Definition batches_fuel (batch_blocks first last : Z) : nat :=
  Z.to_nat ((last - first + 1) / batch_blocks) + 2.

Definition spins {S : Type} (c : ctl S) : Prop :=
  match c with Spin _ => True | _ => False end.

(** Iterations that are enough for the ranges of a bmap. *)
Definition xml_ranges_fuel (batch_blocks : Z) (ranges : list xml_range)
  : nat :=
  fold_right
    (fun r acc =>
       Nat.max
         match parse_range r with
         | Ok (first, last, _) => batches_fuel batch_blocks first last
         | Raise _ => O
         end acc)
    O ranges.

(** Iterations that are enough for the reader thread of a session. *)
Definition reader_fuel (self : BmapCopy) : nat :=
  let endless := (List.length (im_data (_f_image self)) + 3)%nat in
  match _f_bmap self with
  | Some _ =>
      match _xml self with
      | Some doc =>
          match xml_BlockMap doc with
          | Some ranges =>
              Nat.max (List.length ranges + 1)
                (xml_ranges_fuel (_batch_blocks self) ranges)
          | None => 1%nat
          end
      | None => 1%nat
      end
  | None =>
      match blocks_cnt self with
      | Some cnt =>
          if negb (cnt =? 0) then
            Nat.max 2 (batches_fuel (_batch_blocks self) 0 (cnt - 1))
          else endless
      | None => endless
      end
  end.

(** *** Restoring the block device settings *)

(** One attempt to write a saved value back: the events it leaves in the
    sysfs log, and whether it went through. *)
Definition restore_attempt (sys : system) (path v : string)
  : list sysfs_event * bool :=
  match sysfs_open sys path "w" with
  | Failed _ => ([SysOpen path "w"], false)
  | Done _ =>
      match sysfs_write sys path v with
      | Failed _ => ([SysOpen path "w"; SysWrite path v], false)
      | Done _ => ([SysOpen path "w"; SysWrite path v], true)
      end
  end.

(** The attempt for a setting that may not have been captured. *)
Definition restore_saved (sys : system) (path : string)
    (saved : option string) : list sysfs_event * bool :=
  match saved with
  | Some v => restore_attempt sys path v
  | None => ([], true)
  end.

(** What a restoration leaves in the log: the scheduler first, and the
    write-buffering ratio only when the scheduler attempt did not fail. *)
Definition restore_events (sys : system) (self : BmapBdevCopy)
  : list sysfs_event :=
  let '(scheduler_events, went_through) :=
    restore_saved sys (_sysfs_scheduler_path self)
      (old_scheduler_value self) in
  scheduler_events
  ++ (if went_through then
        fst (restore_saved sys (_sysfs_max_ratio_path self)
               (old_max_ratio_value self))
      else []).

(** The number of times a control file was opened for writing. *)
Fixpoint opened_for_writing (path : string) (log : list sysfs_event) : nat :=
  match log with
  | [] => O
  | SysOpen p mode :: log' =>
      if (String.eqb p path && String.eqb mode "w")%bool
      then S (opened_for_writing path log')
      else opened_for_writing path log'
  | _ :: log' => opened_for_writing path log'
  end.

(** *** The loop of [copy] on data items *)

(** The loop body run over a run of data items. *)
Fixpoint write_all (self : BmapCopy) (ds : list qitem) (w : writer)
  : result writer :=
  match ds with
  | [] => Ok w
  | QRange start end_ length buf :: ds' =>
      w' <- write_batch self start end_ length buf w ;;
      write_all self ds' w'
  | _ :: ds' => write_all self ds' w
  end.

(** *** The bytes of a range and the items they travel in *)

(** [len] bytes of [data] from offset [pos]. *)
Definition slice (data : list byte) (pos len : Z) : list byte :=
  firstn (Z.to_nat len) (skipn (Z.to_nat pos) data).

(** The bytes of the blocks [first .. last] of the image. *)
Definition range_bytes (self : BmapCopy) (first last : Z) : list byte :=
  slice (im_data (_f_image self)) (first * block_size self)
    ((last - first + 1) * block_size self).

(** The queue item of a batch that was read in full. *)
Definition batch_item (self : BmapCopy) (b : batch) : qitem :=
  let '(start, _, length) := b in
  QRange start (start + length - 1) length
    (slice (im_data (_f_image self)) (start * block_size self)
       (length * block_size self)).

(** The batches of a range, as [_get_batches] emits them. *)
Definition range_batches (batch_blocks first last : Z) : list batch :=
  let n := Z.to_nat ((last - first + 1) / batch_blocks) in
  full_batches batch_blocks first n
  ++ final_batch (first + Z.of_nat n * batch_blocks) last.

Definition range_items (self : BmapCopy) (t : triplet) : list qitem :=
  let '(first, last, _) := t in
  map (batch_item self) (range_batches (_batch_blocks self) first last).

(** An image that holds the data of the session's image and never fails. *)
Definition steady (self : BmapCopy) (f : image_file) : Prop :=
  im_data f = im_data (_f_image self)
  /\ forall pos, im_read_error f pos = None.

(** The error of a range whose declared digest, when it is not empty, is
    not the digest of its bytes. *)
Definition mismatch (sys : system) (self : BmapCopy) (t : triplet)
  : option exn :=
  let '(first, last, sha1) := t in
  match sha1 with
  | Some digest =>
      let calculated := sha1_hexdigest sys (range_bytes self first last) in
      if truthy_str sha1 && negb (String.eqb calculated digest)
      then Some (checksum_mismatch first last calculated digest)
      else None
  | None => None
  end.

(** What the reader thread is to put for some ranges, up to the first
    one that fails its verification, and the error of that one. *)
Fixpoint expected_queue (sys : system) (self : BmapCopy) (verify : bool)
    (ts : list triplet) : list qitem * option exn :=
  match ts with
  | [] => ([], None)
  | t :: ts' =>
      match (if verify then mismatch sys self t else None) with
      | Some e => (range_items self t, Some e)
      | None =>
          let '(items, e) := expected_queue sys self verify ts' in
          (range_items self t ++ items, e)
      end
  end.

(** The blocks the ranges hold. *)
Definition total_blocks (ts : list triplet) : Z :=
  fold_right (fun t acc => let '(first, last, _) := t in
                           last - first + 1 + acc) 0 ts.

(** A session with a bmap whose ranges [ts] lie within the image, on an
    image and a destination that do not fail, and whose
    [MappedBlocksCount] is the number of blocks in the ranges. *)
Record sound_input (self : BmapCopy) (ts : list triplet) : Prop := {
  si_block_size : 0 < block_size self;
  si_batch_blocks : 0 < _batch_blocks self;
  si_bmap : _f_bmap self <> None;
  si_ranges :
    exists doc ranges,
      _xml self = Some doc
      /\ xml_BlockMap doc = Some ranges
      /\ Forall2 (fun r t => parse_range r = Ok t) ranges ts;
  si_within :
    Forall (fun t => let '(first, last, _) := t in
                     0 <= first
                     /\ (last + 1) * block_size self
                        <= Z.of_nat (List.length (im_data (_f_image self))))
      ts;
  si_image : forall pos, im_read_error (_f_image self) pos = None;
  si_write : forall pos, d_write_error (_f_dest self) pos = None;
  si_flush : forall log, d_flush_error (_f_dest self) log = None;
  si_fsync : forall log, d_fsync_error (_f_dest self) log = None;
  si_image_size : truthy_int (image_size self) = true;
  si_mapped_cnt : mapped_cnt self = Some (total_blocks ts)
}.

(** The blocks some queue items account for. *)
Definition items_blocks (ds : list qitem) : Z :=
  fold_right (fun item acc =>
                match item with
                | QRange _ _ length _ => length + acc
                | _ => acc
                end) 0 ds.

(** A data item whose buffer is not longer than its blocks. *)
Definition sized (self : BmapCopy) (item : qitem) : Prop :=
  match item with
  | QRange _ _ length buf =>
      Z.of_nat (List.length buf) <= length * block_size self
  | _ => False
  end.

(** A destination on which nothing fails. *)
Definition healthy (f : dest_file) : Prop :=
  (forall pos, d_write_error f pos = None)
  /\ (forall log, d_flush_error f log = None)
  /\ (forall log, d_fsync_error f log = None).

(* ------------------------------------------------------------------ *)
(** ** A small installation to run the model on *)

Module Lab.

(** Eight blocks of four bytes. *)
Definition image : image_file :=
  {| im_name := "image.raw";
     im_data := list_byte_of_string "aaaabbbbccccddddeeeeffffgggghhhh";
     im_pos := 0;
     im_read_error := fun _ => None |}.

Definition dest : dest_file :=
  {| d_name := "/dev/sdx";
     d_pos := 0;
     d_log := [];
     d_write_error := fun _ => None;
     d_flush_error := fun _ => None;
     d_fsync_error := fun _ => None |}.

Definition range (text : string) (sha1 : option string) : xml_range :=
  {| range_text := Some text; range_sha1 := sha1 |}.

(** A bmap for [image]: blocks of four bytes, eight blocks, three of them
    mapped. *)
Definition doc (ranges : list xml_range) : xml_doc :=
  {| xml_version := Some "1.2";
     xml_BlockSize := Some "4";
     xml_BlocksCount := Some "8";
     xml_MappedBlocksCount := Some " 3 ";
     xml_BlockMap := Some ranges |}.

Definition bmap (ranges : list xml_range) : bmap_file :=
  {| bm_name := "image.bmap"; bm_pos := 0; bm_parse := Done (doc ranges) |}.

(** A system where every call succeeds.  The digest of some bytes is the
    bytes themselves, so that different data have different digests. *)
Definition sys : system :=
  {| human_size := fmt_d;
     sha1_hexdigest := string_of_list_byte;
     os_stat_isreg := fun _ => Done true;
     open_rb := fun p =>
       Done {| im_name := p; im_data := repeat x00 5000; im_pos := 0;
               im_read_error := fun _ => None |};
     gzip_open := fun _ => Failed "not a gzipped file";
     bz2_open := fun _ => Failed "invalid data stream";
     tar_getnames := fun _ => Failed "file could not be opened";
     tar_extractfile := fun _ _ => Failed "file could not be opened";
     open_w := fun _ => Done dest;
     open_r := fun _ => Failed "No such file or directory";
     os_open_excl := fun _ => Done 3;
     os_fstat_fd := fun _ => Done tt;
     os_fdopen := fun _ => Done dest;
     os_lseek_end := fun _ => Done 64;
     os_rdev := fun _ => (8, 16);
     os_path_exists := fun _ => Done true;
     sysfs_open := fun _ _ => Done tt;
     sysfs_read := fun p =>
       if endswith p "scheduler" then Done "noop deadline [cfq]"
       else Done "20";
     sysfs_write := fun _ _ => Done tt |}.

(** The same system, except that the scheduler file cannot be opened for
    writing alone: tuning, which opens it for update, goes through and
    restoring does not. *)
Definition sys_locked_scheduler : system :=
  {| human_size := human_size sys;
     sha1_hexdigest := sha1_hexdigest sys;
     os_stat_isreg := os_stat_isreg sys;
     open_rb := open_rb sys;
     gzip_open := gzip_open sys;
     bz2_open := bz2_open sys;
     tar_getnames := tar_getnames sys;
     tar_extractfile := tar_extractfile sys;
     open_w := open_w sys;
     open_r := open_r sys;
     os_open_excl := os_open_excl sys;
     os_fstat_fd := os_fstat_fd sys;
     os_fdopen := os_fdopen sys;
     os_lseek_end := os_lseek_end sys;
     os_rdev := os_rdev sys;
     os_path_exists := os_path_exists sys;
     sysfs_open := fun p mode =>
       if (endswith p "scheduler" && String.eqb mode "w")%bool
       then Failed "Permission denied" else Done tt;
     sysfs_read := sysfs_read sys;
     sysfs_write := sysfs_write sys |}.

(** Sessions on [image] and [dest] with a given bmap. *)
Definition session (s : system) (ranges : list xml_range)
  : result BmapCopy :=
  BmapCopy_init s (AFile image) (AFile dest)
    (Some (AFile (bmap ranges))).

Definition bdev_session (s : system) (ranges : list xml_range)
  : result BmapBdevCopy :=
  BmapBdevCopy_init s (AFile image) (AFile dest)
    (Some (AFile (bmap ranges))).

(** Blocks 0-1 without a checksum and block 5 with the digest of its
    bytes; the same with a digest that block 5 does not have. *)
Definition good_ranges : list xml_range :=
  [range "0-1" None; range "5" (Some "ffff")].

Definition corrupted_ranges : list xml_range :=
  [range "0-1" None; range "5" (Some "fxff")].

End Lab.

(* ------------------------------------------------------------------ *)
(** ** Further notions used in the statements *)

(** A constructor argument that is a path. *)
Definition is_path {F : Type} (a : arg F) : bool :=
  match a with APath _ => true | AFile _ => false end.

(** [str(xml.getroot().attrib.get('version'))]. *)
Definition version_text (doc : xml_doc) : string :=
  match xml_version doc with Some v => v | None => "None" end.

(** A bmap argument that makes the constructor open the bmap itself. *)
Definition opened_by_path (bmap : option (arg bmap_file)) : bool :=
  match bmap with
  | Some (APath p) => negb (String.eqb p EmptyString)
  | _ => false
  end.

(** [BmapBdevCopy.__init__] goes through on the instance [b] that
    [BmapCopy.__init__] has built: nothing was written to the device, the
    queue holds six batches, a synchronisation is due every 6 MiB, and no
    device setting is saved yet. *)
Definition bdev_accepts (sys : system) (image : arg image_file)
    (dest : arg dest_file) (bmap : option (arg bmap_file)) (b : BmapCopy)
  : Prop :=
  exists self,
    BmapBdevCopy_init sys image dest bmap = Ok self
    /\ d_log (_f_dest (base self)) = d_log (_f_dest b)
    /\ _f_image (base self) = _f_image b
    /\ image_size (base self) = image_size b
    /\ block_size (base self) = block_size b
    /\ _batch_blocks (base self) = 1024 * 1024 / block_size b
    /\ _batch_queue_len (base self) = 6
    /\ _dest_fsync_watermark (base self)
       = Some (6 * 1024 * 1024 / block_size b)
    /\ old_scheduler_value self = None
    /\ old_max_ratio_value self = None.

(** The first [n] items of a generator, fewer when it stops before. *)
Fixpoint take {I A : Type} (n : nat) (next : step I A) (it : I)
  : result (list A) :=
  match n with
  | O => Ok []
  | S n' =>
      match next it with
      | Raise e => Raise e
      | Ok None => Ok []
      | Ok (Some (a, it')) =>
          l <- take n' next it' ;;
          Ok (a :: l)
      end
  end.

(** The [k]-th range of an image of unknown size. *)
Definition endless_range (batch_blocks first : Z) (k : nat) : triplet :=
  (first + Z.of_nat k * batch_blocks,
   first + Z.of_nat k * batch_blocks + batch_blocks - 1, None).

(** *** Items as the reader builds them *)

(** A data item whose last block and length agree and whose buffer ends
    inside its last block; an error record that does not hold an
    [AssertionError]. *)
Definition well_formed (self : BmapCopy) (item : qitem) : Prop :=
  match item with
  | QRange start end_ length buf =>
      end_ = start + length - 1
      /\ 0 < length
      /\ (length - 1) * block_size self < Z.of_nat (List.length buf)
      /\ Z.of_nat (List.length buf) <= length * block_size self
  | QError e => e <> AssertionError
  | QNone => True
  end.

(** [keeps Inv c]: the statement that ended as [c] left a state in which
    [Inv] holds, and no [AssertionError] left it. *)
Definition keeps {S : Type} (Inv : S -> Prop) (c : ctl S) : Prop :=
  match c with
  | Throw e s => e <> AssertionError /\ Inv s
  | Next s | Return s | Spin s => Inv s
  end.

(** *** What reached the destination *)

(** The writes of a log, oldest first: offset and bytes. *)
Fixpoint written (log : list dest_event) : list (Z * list byte) :=
  match log with
  | [] => []
  | DestWrite pos buf :: log' => (pos, buf) :: written log'
  | _ :: log' => written log'
  end.

(** The write a data item asks for. *)
Definition item_write (self : BmapCopy) (item : qitem)
  : list (Z * list byte) :=
  match item with
  | QRange start _ _ buf => [(start * block_size self, buf)]
  | _ => []
  end.

(** The write of a batch that was read in full: the bytes of the image
    at the offset of the batch, to the same offset. *)
Definition batch_write (self : BmapCopy) (b : batch) : Z * list byte :=
  let '(start, _, length) := b in
  (start * block_size self,
   slice (im_data (_f_image self)) (start * block_size self)
     (length * block_size self)).

(** The writes of some ranges, batch by batch. *)
Definition range_writes (self : BmapCopy) (ts : list triplet)
  : list (Z * list byte) :=
  flat_map (fun t : triplet =>
              let '(first, last, _) := t in
              map (batch_write self)
                (range_batches (_batch_blocks self) first last)) ts.

(** The bytes written since the last [os.fsync]. *)
Definition unsynced (log : list dest_event) : Z :=
  fold_left (fun acc ev =>
               match ev with
               | DestWrite _ buf => acc + Z.of_nat (List.length buf)
               | DestFsync => 0
               | DestFlush => acc
               end) log 0.

(** *** An image copied without a bmap *)

(** The [k]-th batch-sized piece of the image: what one [read] of
    [_batch_blocks * block_size] bytes gives at its offset. *)
Definition chunk (self : BmapCopy) (k : nat) : list byte :=
  slice (im_data (_f_image self))
    (Z.of_nat k * _batch_blocks self * block_size self)
    (_batch_blocks self * block_size self).

(** The queue item of the [k]-th piece; its length is computed from the
    bytes that were read. *)
Definition chunk_item (self : BmapCopy) (k : nat) : qitem :=
  let buf := chunk self k in
  let start := Z.of_nat k * _batch_blocks self in
  let length :=
    (Z.of_nat (List.length buf) + block_size self - 1) / block_size self in
  QRange start (start + length - 1) length buf.

Definition chunk_write (self : BmapCopy) (k : nat) : Z * list byte :=
  (Z.of_nat k * _batch_blocks self * block_size self, chunk self k).

(** The number of pieces of the image. *)
Definition chunks_cnt (self : BmapCopy) : nat :=
  let size := Z.of_nat (List.length (im_data (_f_image self))) in
  let piece := _batch_blocks self * block_size self in
  Z.to_nat ((size + piece - 1) / piece).

(** The number of blocks of the image, the last one possibly partial. *)
Definition image_blocks (self : BmapCopy) : Z :=
  (Z.of_nat (List.length (im_data (_f_image self))) + block_size self - 1)
  / block_size self.

(** A session without a bmap, on an image and a destination that do not
    fail, with the sizes as the constructor leaves them: either taken
    from a non-empty image, or unknown (zero for an empty image). *)
Record plain_input (self : BmapCopy) : Prop := {
  pi_no_bmap : _f_bmap self = None;
  pi_block_size : 0 < block_size self;
  pi_batch_blocks : 0 < _batch_blocks self;
  pi_image : forall pos, im_read_error (_f_image self) pos = None;
  pi_dest : healthy (_f_dest self);
  pi_sizes :
    (truthy_int (image_size self) = true
     /\ image_blocks self <> 0
     /\ blocks_cnt self = Some (image_blocks self)
     /\ mapped_cnt self = Some (image_blocks self))
    \/ (truthy_int (image_size self) = false
        /\ truthy_int (blocks_cnt self) = false)
}.

(* ------------------------------------------------------------------ *)
(** ** More of the small installation *)

Module Lab2.

(** A bmap whose blocks are of 2 MiB, above the batch size. *)
Definition huge_blocks_bmap : bmap_file :=
  {| bm_name := "huge.bmap";
     bm_pos := 0;
     bm_parse :=
       Done {| xml_version := Some "1.2";
               xml_BlockSize := Some "2097152";
               xml_BlocksCount := Some "8";
               xml_MappedBlocksCount := Some "3";
               xml_BlockMap := Some [Lab.range "0-1" None] |} |}.

(** [Lab.image] copied without a bmap, as a file-like object. *)
Definition plain_session : result BmapCopy :=
  BmapCopy_init Lab.sys (AFile Lab.image) (AFile Lab.dest) None.

(** The ranges of [Lab.good_ranges], parsed. *)
Definition good_triplets : list triplet :=
  [(0, 1, None); (5, 5, Some "ffff")].

End Lab2.
(* ------------------------------------------------------------------ *)
(** ** Batch splitting *)

Lemma tiles_app lo mid hi bs1 bs2 :
  tiles lo bs1 mid -> tiles mid bs2 hi -> tiles lo (bs1 ++ bs2) hi.
Proof.
  induction 1; intros H2; simpl; [exact H2 | ].
  constructor; auto.
Qed.

Lemma full_batches_tiles batch_blocks n :
  0 < batch_blocks ->
  forall first,
    tiles first (full_batches batch_blocks first n)
      (first + Z.of_nat n * batch_blocks).
Proof.
  intros Hbb. induction n as [|n IH]; intros first.
  - cbn [full_batches].
    replace (first + Z.of_nat 0 * batch_blocks) with first by lia.
    constructor.
  - cbn [full_batches]. constructor; [assumption|].
    replace (first + Z.of_nat (S n) * batch_blocks)
      with (first + batch_blocks + Z.of_nat n * batch_blocks) by lia.
    apply IH.
Qed.

Lemma final_batch_tiles first last :
  first <= last + 1 -> tiles first (final_batch first last) (last + 1).
Proof.
  intros H. unfold final_batch.
  destruct (last - first + 1 =? 0) eqn:E.
  - apply Z.eqb_eq in E. replace (last + 1) with first by lia. constructor.
  - apply Z.eqb_neq in E.
    replace last with (first + (last - first + 1) - 1) at 1 by lia.
    constructor; [lia|].
    replace (first + (last - first + 1)) with (last + 1) by lia. constructor.
Qed.

Lemma full_batches_length batch_blocks n first b :
  In b (full_batches batch_blocks first n) -> batch_length b = batch_blocks.
Proof.
  revert first. induction n as [|n IH]; intros first; simpl; [tauto|].
  intros [<-|H]; [reflexivity | eauto].
Qed.

(** The generator run from inside its loop: [n] more full batches, then
    what is left. *)
Lemma batches_loop_to_list batch_blocks last :
  0 < batch_blocks ->
  forall n first fuel,
    first <= last + 1 ->
    (last - first + 1) / batch_blocks = Z.of_nat n ->
    (n + 2 <= fuel)%nat ->
    to_list fuel (_get_batches_next batch_blocks last) (BatchesLoop first)
    = Some (Ok (full_batches batch_blocks first n
                ++ final_batch (first + Z.of_nat n * batch_blocks) last)).
Proof.
  intros Hbb. induction n as [|n IH]; intros first fuel Hle Hdiv Hfuel.
  - apply Z.div_small_iff in Hdiv; [|lia].
    destruct Hdiv as [Hdiv|Hdiv]; [|lia].
    destruct fuel as [|[|fuel]]; [lia|lia|].
    cbn [full_batches app]. replace (first + Z.of_nat 0 * batch_blocks)
      with first by lia.
    unfold final_batch. cbn [to_list _get_batches_next].
    destruct (first + batch_blocks - 1 <=? last) eqn:E;
      [apply Z.leb_le in E; lia|].
    destruct (last - first + 1 =? 0) eqn:E0; [reflexivity|].
    replace (first + (last - first + 1) - 1) with last by lia.
    reflexivity.
  - destruct fuel as [|fuel]; [lia|].
    assert (Hge : batch_blocks <= last - first + 1).
    { destruct (Z_lt_le_dec (last - first + 1) batch_blocks) as [Hlt|]; [|lia].
      rewrite Z.div_small in Hdiv by lia. lia. }
    cbn [to_list _get_batches_next].
    destruct (first + batch_blocks - 1 <=? last) eqn:E;
      [|apply Z.leb_gt in E; lia].
    rewrite (IH (first + batch_blocks) fuel); [| lia | | lia].
    + cbn [full_batches app].
      replace (first + batch_blocks + Z.of_nat n * batch_blocks)
        with (first + Z.of_nat (S n) * batch_blocks) by lia.
      reflexivity.
    + replace (last - (first + batch_blocks) + 1)
        with (last - first + 1 + (-1) * batch_blocks) by lia.
      rewrite Z.div_add by lia. lia.
Qed.

(** C5.  For a range [first <= last] and a positive batch size,
    [_get_batches] stops and emits [(last - first + 1) / batch_blocks]
    batches of [batch_blocks] blocks followed by one shorter batch holding
    the remainder, and by nothing when the remainder is empty.  The batches
    are contiguous, increasing and cover [first .. last] exactly, each with
    [length = end - start + 1] between 1 and [batch_blocks]; a range
    shorter than [batch_blocks] gives the single batch
    [(first, last, last - first + 1)]. *)
Theorem get_batches_splits_range (batch_blocks first last : Z) :
  0 < batch_blocks ->
  first <= last ->
  let blocks := last - first + 1 in
  let n := Z.to_nat (blocks / batch_blocks) in
  let batches :=
    full_batches batch_blocks first n
      ++ final_batch (first + Z.of_nat n * batch_blocks) last in
  (forall fuel, (n + 2 <= fuel)%nat ->
     _get_batches fuel batch_blocks first last = Some (Ok batches))
  /\ tiles first batches (last + 1)
  /\ (forall b, In b batches -> 0 < batch_length b <= batch_blocks)
  /\ (blocks mod batch_blocks = 0 ->
      forall b, In b batches -> batch_length b = batch_blocks)
  /\ (blocks < batch_blocks -> batches = [(first, last, blocks)]).
Proof.
  intros Hbb Hle blocks n batches.
  assert (Hdiv0 : 0 <= blocks / batch_blocks)
    by (apply Z.div_pos; unfold blocks; lia).
  assert (Hn : Z.of_nat n = blocks / batch_blocks)
    by (unfold n; rewrite Z2Nat.id; lia).
  assert (Hmod : blocks = batch_blocks * Z.of_nat n + blocks mod batch_blocks)
    by (rewrite Hn; apply Z.div_mod; lia).
  assert (Hrem : 0 <= blocks mod batch_blocks < batch_blocks)
    by (apply Z.mod_pos_bound; lia).
  assert (Hstart : first + Z.of_nat n * batch_blocks <= last + 1)
    by (unfold blocks in Hmod, Hrem; lia).
  assert (Hfinal : forall b,
            In b (final_batch (first + Z.of_nat n * batch_blocks) last) ->
            0 < batch_length b <= batch_blocks
            /\ batch_length b = blocks mod batch_blocks).
  { intros b Hb. unfold final_batch in Hb.
    destruct (_ =? 0) eqn:E; simpl in Hb; [tauto|].
    destruct Hb as [<-|[]]. cbn. apply Z.eqb_neq in E.
    unfold blocks in Hmod, Hrem |- *. lia. }
  split; [|split; [|split; [|split]]].
  - intros fuel Hfuel. unfold _get_batches, batches.
    apply batches_loop_to_list; auto; lia.
  - unfold batches.
    eapply tiles_app; [apply full_batches_tiles; assumption|].
    apply final_batch_tiles; assumption.
  - intros b Hb. unfold batches in Hb. apply in_app_or in Hb.
    destruct Hb as [Hb|Hb].
    + apply full_batches_length in Hb. lia.
    + apply Hfinal in Hb. tauto.
  - intros Hzero b Hb. unfold batches in Hb. apply in_app_or in Hb.
    destruct Hb as [Hb|Hb].
    + apply full_batches_length in Hb. assumption.
    + apply Hfinal in Hb. lia.
  - intros Hshort. unfold batches.
    assert (Hn0 : n = O).
    { assert (blocks / batch_blocks = 0)
        by (apply Z.div_small; unfold blocks; lia). lia. }
    rewrite Hn0. cbn [full_batches app]. unfold final_batch.
    replace (first + Z.of_nat 0 * batch_blocks) with first by lia.
    fold blocks.
    destruct (blocks =? 0) eqn:E; [apply Z.eqb_eq in E; unfold blocks in E; lia|].
    reflexivity.
Qed.

Lemma get_batches_splits_range_witness :
  0 < 4 /\ 0 <= 9
  /\ _get_batches 5 4 0 9 = Some (Ok [(0, 3, 4); (4, 7, 4); (8, 9, 2)])
  /\ tiles 0 [(0, 3, 4); (4, 7, 4); (8, 9, 2)] 10.
Proof.
  pose proof (get_batches_splits_range 4 0 9 ltac:(lia) ltac:(lia)) as H.
  cbv zeta in H. destruct H as (Hrun & Htiles & _).
  split; [lia|]. split; [lia|]. split.
  - apply (Hrun 5%nat). vm_compute. lia.
  - exact Htiles.
Defined.

(* ------------------------------------------------------------------ *)
(** ** Sizes of a session without a bmap *)

Section SessionFacts.

Variable sys : system.

Lemma initialize_sizes_fields self v self' :
  _initialize_sizes sys self v = Ok self' ->
  block_size self <> 0
  /\ self' = set_sizes self v (human_size sys v)
               ((v + block_size self - 1) / block_size self)
               ((v + block_size self - 1) / block_size self) v
               (human_size sys v).
Proof.
  unfold _initialize_sizes, floordiv.
  destruct (block_size self =? 0) eqn:E; simpl; [discriminate|].
  intros [= <-]. split; [apply Z.eqb_neq; assumption | reflexivity].
Qed.

(** C7.  A session built without a bmap from an image given by a path that
    names neither a [.gz] nor a [.bz2] file has [block_size = 4096];
    with [S] the size of the opened image file, [blocks_cnt] is
    [S / 4096] rounded up, [mapped_cnt] equals [blocks_cnt],
    [image_size] and [mapped_size] are [S], and [mapped_percent] is
    [100]. *)
Theorem init_without_bmap_sizes
    (image_path : string) (dest : arg dest_file)
    (bmap : option (arg bmap_file)) (f : image_file) (self : BmapCopy) :
  truthy_arg bmap = false ->
  endswith image_path ".gz" = false ->
  endswith image_path ".bz2" = false ->
  open_rb sys image_path = Done f ->
  BmapCopy_init sys (APath image_path) dest bmap = Ok self ->
  let size := fstat_size f in
  let cnt := (size + 4096 - 1) / 4096 in
  block_size self = 4096
  /\ blocks_cnt self = Some cnt
  /\ (4096 * (cnt - 1) < size <= 4096 * cnt)
  /\ mapped_cnt self = Some cnt
  /\ image_size self = Some size
  /\ mapped_size self = Some size
  /\ mapped_percent self = Some (PercentInt 100).
Proof.
  intros Hbmap Hgz Hbz Hopen Hinit size cnt.
  assert (Hceil : 4096 * (cnt - 1) < size <= 4096 * cnt).
  { unfold cnt.
    pose proof (Z.div_mod (size + 4096 - 1) 4096 ltac:(lia)) as Hdm.
    pose proof (Z.mod_pos_bound (size + 4096 - 1) 4096 ltac:(lia)) as Hb.
    lia. }
  unfold BmapCopy_init, BmapCopy_init_with in Hinit.
  destruct (match dest with
            | AFile f0 => Ok (f0, d_name f0, false)
            | APath p => _ end) as [[[f_dest dest_path] dnc]|] eqn:Hd;
    [|discriminate].
  cbn [bind] in Hinit.
  unfold _open_image_file in Hinit.
  destruct (rescue (os (os_stat_isreg sys image_path)) _) as [reg|] eqn:Hreg;
    [|discriminate].
  cbn [bind] in Hinit.
  destruct (negb reg); [discriminate|].
  rewrite Hgz, Hbz, Hopen in Hinit.
  destruct (if is_tarball image_path then _ else Ok tt) as [[]|e] eqn:Htar.
  - cbn in Hinit. rewrite Hbmap in Hinit. cbn in Hinit.
    injection Hinit as <-. cbn. fold size. fold cnt. tauto.
  - cbn in Hinit. destruct e; discriminate.
Qed.


(* ------------------------------------------------------------------ *)
(** ** What [copy] does after its loop *)

Lemma copy_unfold fuel self do_sync verify :
  BmapCopy_copy sys fuel self do_sync verify
  = let rd := ctl_state (_get_data sys fuel self verify (reader0 self)) in
    match write_batches self (rd_queue rd) (writer0 self) with
    | Waiting _ => None
    | Aborted e => Some (Raise e)
    | Finished w =>
        Some (finish_copy sys self do_sync (im_pos (_f_image self))
                (d_pos (_f_dest self)) (option_map bm_pos (_f_bmap self))
                (rd_image rd) w)
    end.
Proof. reflexivity. Qed.

Lemma finish_copy_ok self do_sync image_pos dest_pos bmap_pos f_image w self' :
  finish_copy sys self do_sync image_pos dest_pos bmap_pos f_image w
  = Ok self' ->
  (exists self1,
     sizes_at_check sys (set_files self f_image (wr_dest w) (_f_bmap self)) w
     = Ok self1
     /\ mapped_cnt self1 = Some (blocks_written w)
     /\ mapped_cnt self' = mapped_cnt self1)
  /\ im_pos (_f_image self') = image_pos
  /\ d_pos (_f_dest self') = dest_pos
  /\ _f_bmap self'
     = match _f_bmap self, bmap_pos with
       | Some f, Some pos => Some (bmap_seek f pos)
       | other, _ => other
       end.
Proof.
  unfold finish_copy. fold (sizes_at_check sys
    (set_files self f_image (wr_dest w) (_f_bmap self)) w).
  destruct (sizes_at_check sys _ w) as [self1|] eqn:Hsizes; [|discriminate].
  cbn [bind].
  assert (Hbmap1 : _f_bmap self1 = _f_bmap self).
  { unfold sizes_at_check in Hsizes.
    destruct (negb _); [|injection Hsizes as <-; reflexivity].
    apply initialize_sizes_fields in Hsizes. destruct Hsizes as [_ ->].
    reflexivity. }
  destruct (mapped_cnt self1) as [m|] eqn:Hm; [|discriminate].
  destruct (blocks_written w =? m) eqn:Heq; cbn [negb]; [|discriminate].
  apply Z.eqb_eq in Heq. subst m.
  destruct (rescue (dest_flush _) _) as [f_dest|]; [|discriminate].
  cbn [bind].
  destruct do_sync.
  - unfold sync. cbn [_dest_path _f_dest set_files].
    destruct (sync_dest _ f_dest) as [f_dest'|]; [|discriminate].
    cbn [bind]. intros [= <-]. cbn. rewrite Hbmap1, Hm.
    split; [exists self1; auto|auto].
  - intros [= <-]. cbn. rewrite Hbmap1, Hm.
    split; [exists self1; auto|auto].
Qed.

(** C6.  When [copy] returns normally, the image, the destination and,
    when there is one, the bmap file are at the positions they had when
    [copy] was called; the same holds for the block-device class. *)
Theorem copy_restores_positions :
  (forall fuel self do_sync verify self',
     BmapCopy_copy sys fuel self do_sync verify = Some (Ok self') ->
     im_pos (_f_image self') = im_pos (_f_image self)
     /\ d_pos (_f_dest self') = d_pos (_f_dest self)
     /\ option_map bm_pos (_f_bmap self')
        = option_map bm_pos (_f_bmap self))
  /\ (forall fuel self do_sync verify log self' log',
        BmapBdevCopy_copy sys fuel self do_sync verify log
        = (Some (Ok self'), log') ->
        im_pos (_f_image (base self')) = im_pos (_f_image (base self))
        /\ d_pos (_f_dest (base self')) = d_pos (_f_dest (base self))
        /\ option_map bm_pos (_f_bmap (base self'))
           = option_map bm_pos (_f_bmap (base self))).
Proof.
  assert (Hbase : forall fuel self do_sync verify self',
     BmapCopy_copy sys fuel self do_sync verify = Some (Ok self') ->
     im_pos (_f_image self') = im_pos (_f_image self)
     /\ d_pos (_f_dest self') = d_pos (_f_dest self)
     /\ option_map bm_pos (_f_bmap self')
        = option_map bm_pos (_f_bmap self)).
  { intros fuel self do_sync verify self'. rewrite copy_unfold. cbv zeta.
    destruct (write_batches _ _ _) as [w|e|w]; try discriminate.
    intros [= H]. apply finish_copy_ok in H.
    destruct H as (_ & Hi & Hd & Hb). rewrite Hi, Hd, Hb.
    repeat split. destruct (_f_bmap self); reflexivity. }
  split; [exact Hbase|].
  intros fuel self do_sync verify log self' log'.
  unfold BmapBdevCopy_copy.
  destruct (_tune_block_device sys self log) as [[self1|e] log1] eqn:Htune.
  - assert (Hsame : base self1 = base self).
    { revert Htune. unfold _tune_block_device.
      repeat match goal with
             | |- context [match ?x with _ => _ end] => destruct x
             end; intros [= <- _]; reflexivity. }
    destruct (BmapCopy_copy sys fuel (base self1) do_sync verify)
      as [[b|e]|] eqn:Hcopy.
    + intros [= <- _]. cbn [base with_base].
      apply Hbase in Hcopy. rewrite Hsame in Hcopy. exact Hcopy.
    + unfold restore_and_reraise.
      destruct (_restore_bdev_settings sys self1 log1) as [[|] ?];
        discriminate.
    + discriminate.
  - unfold restore_and_reraise.
    destruct (_restore_bdev_settings sys self log1) as [[|] ?]; discriminate.
Qed.

(* ------------------------------------------------------------------ *)
(** ** Sessions built from a bmap *)

(** The count a document declares in [MappedBlocksCount]. *)
Lemma parse_header_fields doc hdr :
  parse_header doc = Ok hdr ->
  (t <- text_strip (xml_BlockSize doc) ;; int t) = Ok (hdr_block_size hdr)
  /\ (t <- text_strip (xml_BlocksCount doc) ;; int t)
     = Ok (hdr_blocks_cnt hdr)
  /\ (t <- text_strip (xml_MappedBlocksCount doc) ;; int t)
     = Ok (hdr_mapped_cnt hdr)
  /\ hdr_blocks_cnt hdr <> 0.
Proof.
  unfold parse_header.
  destruct (int (hd _ _)) as [major|]; [|discriminate]. cbn [bind].
  destruct (major >? SUPPORTED_BMAP_VERSION); [discriminate|].
  destruct (text_strip (xml_BlockSize doc)) as [t1|]; [|discriminate].
  cbn [bind]. destruct (int t1) as [v1|]; [|discriminate]. cbn [bind].
  destruct (text_strip (xml_BlocksCount doc)) as [t2|]; [|discriminate].
  cbn [bind]. destruct (int t2) as [v2|]; [|discriminate]. cbn [bind].
  destruct (text_strip (xml_MappedBlocksCount doc)) as [t3|]; [|discriminate].
  cbn [bind]. destruct (int t3) as [v3|]; [|discriminate]. cbn [bind].
  destruct (v2 =? 0) eqn:E; [discriminate|].
  intros [= <-]. cbn. apply Z.eqb_neq in E. auto.
Qed.

Lemma parse_bmap_fields self self' :
  _parse_bmap sys self = Ok self' ->
  exists doc hdr,
    _xml self' = Some doc
    /\ parse_header doc = Ok hdr
    /\ block_size self' = hdr_block_size hdr
    /\ blocks_cnt self' = Some (hdr_blocks_cnt hdr)
    /\ mapped_cnt self' = Some (hdr_mapped_cnt hdr)
    /\ image_size self' = Some (hdr_blocks_cnt hdr * hdr_block_size hdr)
    /\ _f_bmap self' <> None
    /\ _batch_bytes self' = _batch_bytes self.
Proof.
  unfold _parse_bmap.
  destruct (_f_bmap self) as [f|]; [|discriminate].
  destruct (_bmap_path self) as [p|]; [|discriminate].
  destruct (rescue _ _) as [doc|]; [|discriminate]. cbn [bind].
  destruct (parse_header doc) as [hdr|] eqn:Hhdr; [|discriminate].
  cbn [bind]. intros [= <-]. exists doc, hdr. cbn.
  repeat split; auto; discriminate.
Qed.

Lemma init_with_bmap_fields open_destination image dest bmap self :
  truthy_arg bmap = true ->
  BmapCopy_init_with sys open_destination image dest bmap = Ok self ->
  exists doc hdr,
    _xml self = Some doc
    /\ parse_header doc = Ok hdr
    /\ block_size self = hdr_block_size hdr
    /\ hdr_block_size hdr <> 0
    /\ blocks_cnt self = Some (hdr_blocks_cnt hdr)
    /\ mapped_cnt self = Some (hdr_mapped_cnt hdr)
    /\ image_size self = Some (hdr_blocks_cnt hdr * hdr_block_size hdr)
    /\ _f_bmap self <> None
    /\ _batch_blocks self = 1024 * 1024 / hdr_block_size hdr.
Proof.
  intros Hbmap. unfold BmapCopy_init_with.
  destruct (match dest with AFile _ => _ | APath _ => _ end)
    as [[[f_dest dest_path] dnc]|]; [|discriminate].
  cbn [bind].
  destruct (match image with AFile _ => _ | APath _ => _ end)
    as [[[[f_image image_path] inc] cmp]|]; [|discriminate].
  cbn [bind]. rewrite Hbmap.
  destruct (match bmap with Some _ => _ | None => _ end)
    as [[[f_bmap bmap_path] bnc]|]; [|discriminate].
  cbn [bind].
  destruct (_parse_bmap sys _) as [self1|] eqn:Hparse; [|discriminate].
  cbn [bind].
  apply parse_bmap_fields in Hparse.
  destruct Hparse as (doc & hdr & Hxml & Hhdr & Hbs & Hbc & Hmc & His & Hfb
                      & Hbb).
  cbn in Hbb. unfold floordiv.
  destruct (block_size self1 =? 0) eqn:E; [discriminate|].
  cbn [bind]. intros [= <-]. apply Z.eqb_neq in E.
  exists doc, hdr. cbn. rewrite Hbb, <- Hbs. repeat split; auto.
  rewrite His, Hbs. reflexivity.
Qed.

Lemma truthy_product a b :
  a <> 0 -> b <> 0 -> truthy_int (Some (a * b)) = true.
Proof.
  intros Ha Hb. cbn. apply negb_true_iff, Z.eqb_neq. nia.
Qed.

(** The comparison [copy] makes once its loop has ended, for a session
    whose image size is known and not zero. *)
Lemma copy_compares_with_mapped_cnt self m :
  truthy_int (image_size self) = true ->
  mapped_cnt self = Some m ->
  forall fuel do_sync verify w,
    write_batches self
      (rd_queue (ctl_state (_get_data sys fuel self verify (reader0 self))))
      (writer0 self) = Finished w ->
    (blocks_written w <> m ->
     BmapCopy_copy sys fuel self do_sync verify
     = Some (Raise (size_mismatch (blocks_written w) m)))
    /\ (forall self',
          BmapCopy_copy sys fuel self do_sync verify = Some (Ok self') ->
          blocks_written w = m).
Proof.
  intros Hsize Hm fuel do_sync verify w Hloop.
  rewrite copy_unfold. cbv zeta. rewrite Hloop. split.
  - intros Hne. unfold finish_copy. cbn [image_size set_files].
    rewrite Hsize. cbn [negb bind mapped_cnt set_files]. rewrite Hm.
    apply Z.eqb_neq in Hne. rewrite Hne. reflexivity.
  - intros self' [= H]. apply finish_copy_ok in H.
    destruct H as ((self1 & Hs & Hm1 & _) & _).
    unfold sizes_at_check in Hs. cbn [image_size set_files] in Hs.
    rewrite Hsize in Hs. cbn [negb] in Hs. injection Hs as <-.
    cbn in Hm1. congruence.
Qed.

(** C4.  For a session built from a bmap whose [MappedBlocksCount] is
    [m]: when the loop of [copy] ends at the end-of-stream marker with
    [blocks_written] different from [m], [copy] raises the
    "wrote ... blocks, but should have ..." error; and a [copy] that
    returns normally has written exactly [m] blocks. *)
Theorem copy_checks_blocks_written
    (image : arg image_file) (dest : arg dest_file)
    (bmap : option (arg bmap_file)) (self : BmapCopy) :
  truthy_arg bmap = true ->
  BmapCopy_init sys image dest bmap = Ok self ->
  exists doc m,
    _xml self = Some doc
    /\ (t <- text_strip (xml_MappedBlocksCount doc) ;; int t) = Ok m
    /\ mapped_cnt self = Some m
    /\ forall fuel do_sync verify w,
         write_batches self
           (rd_queue
              (ctl_state (_get_data sys fuel self verify (reader0 self))))
           (writer0 self) = Finished w ->
         (blocks_written w <> m ->
          BmapCopy_copy sys fuel self do_sync verify
          = Some (Raise (size_mismatch (blocks_written w) m)))
         /\ (forall self',
               BmapCopy_copy sys fuel self do_sync verify = Some (Ok self') ->
               blocks_written w = m).
Proof.
  intros Hbmap Hinit.
  destruct (init_with_bmap_fields _ _ _ _ _ Hbmap Hinit)
    as (doc & hdr & Hxml & Hhdr & Hbs & Hbs0 & Hbc & Hmc & His & _).
  destruct (parse_header_fields _ _ Hhdr) as (_ & _ & Hm & Hbc0).
  exists doc, (hdr_mapped_cnt hdr). repeat split; auto.
  - eapply copy_compares_with_mapped_cnt; eauto.
    rewrite His. apply truthy_product; assumption.
  - eapply copy_compares_with_mapped_cnt; eauto.
    rewrite His. apply truthy_product; assumption.
Qed.

(* ------------------------------------------------------------------ *)
(** ** The reader thread always ends with the end-of-stream marker *)

Lemma extends_step {S : Type} (proj : S -> reader) f0 q0 s (c : ctl S) :
  im_data (rd_image (proj s)) = im_data f0 ->
  (exists ds, rd_queue (proj s) = q0 ++ ds /\ Forall is_data ds) ->
  extends proj (rd_image (proj s)) (rd_queue (proj s)) c ->
  extends proj f0 q0 c.
Proof.
  intros Hdata (ds & Hq & Hds) Hc.
  assert (Hext : forall s', (exists ds', rd_queue (proj s')
                               = rd_queue (proj s) ++ ds'
                               /\ Forall is_data ds') ->
                 exists ds', rd_queue (proj s') = q0 ++ ds'
                             /\ Forall is_data ds').
  { intros s' (ds' & Hq' & Hds'). exists (ds ++ ds'). split.
    - rewrite Hq', Hq, app_assoc. reflexivity.
    - apply Forall_app; auto. }
  destruct c as [s'|s'|e s'|s']; cbn in *.
  - destruct Hc as [Hd Hc]. split; [congruence | auto].
  - destruct Hc as [Hd (ds' & Hq' & Hds')]. split; [congruence|].
    exists (ds ++ ds'). split.
    + rewrite Hq', Hq, !app_assoc. reflexivity.
    + apply Forall_app; auto.
  - destruct Hc as (He & Hd & Hc). repeat split; [assumption|congruence|auto].
  - destruct Hc as [Hd Hc]. split; [congruence | auto].
Qed.

Lemma extends_refl_next {S : Type} (proj : S -> reader) s :
  extends proj (rd_image (proj s)) (rd_queue (proj s)) (Next s).
Proof.
  cbn. split; [reflexivity|]. exists []. rewrite app_nil_r. auto.
Qed.

Lemma module_failure_is_Exception e :
  module_failure e -> is_Exception e = true.
Proof. destruct e; cbn; auto; discriminate. Qed.

(** A loop whose generator raises only such exceptions and whose body
    extends the queue extends the queue. *)
Lemma for_in_extends {I A S : Type} (proj : S -> reader)
    (next : step I A) (body : A -> S -> ctl S) :
  (forall it e, next it = Raise e -> module_failure e) ->
  (forall a s,
     extends proj (rd_image (proj s)) (rd_queue (proj s)) (body a s)) ->
  forall fuel it s,
    extends proj (rd_image (proj s)) (rd_queue (proj s))
      (for_in fuel next body it s).
Proof.
  intros Hnext Hbody. induction fuel as [|fuel IH]; intros it s.
  - cbn. split; [reflexivity|]. exists []. rewrite app_nil_r. auto.
  - cbn [for_in]. destruct (next it) as [[[a it']|]|e] eqn:Hn.
    + specialize (Hbody a s).
      destruct (body a s) as [s'|s'|e s'|s'] eqn:Hb; try exact Hbody.
      destruct Hbody as [Hd Hq].
      eapply extends_step; [exact Hd | exact Hq | apply IH].
    + apply extends_refl_next.
    + cbn. split; [eauto|]. split; [reflexivity|].
      exists []. rewrite app_nil_r. auto.
Qed.

Lemma image_read_data f n buf f' :
  image_read f n = Ok (buf, f') -> im_data f' = im_data f.
Proof.
  unfold image_read. destruct (im_read_error f (im_pos f)); [discriminate|].
  intros [= _ <-]. reflexivity.
Qed.

Lemma image_read_raises f n e :
  image_read f n = Raise e -> exists msg, e = IOError msg.
Proof.
  unfold image_read. destruct (im_read_error f (im_pos f)) as [m|];
    [|discriminate].
  intros [= <-]. eauto.
Qed.

Lemma read_batch_extends self verify sha1 b st :
  extends fst (rd_image (fst st)) (rd_queue (fst st))
    (read_batch self verify sha1 b st).
Proof.
  destruct b as [[start end_] length]. destruct st as [rd hashed].
  unfold read_batch.
  destruct (image_read (rd_image rd) (length * block_size self))
    as [[buf f']|e] eqn:Hread; cbn [rescue].
  - apply image_read_data in Hread.
    destruct buf as [|b0 buf].
    + cbn. split; [assumption|]. exists []. auto.
    + unfold floordiv. destruct (block_size self =? 0).
      * cbn. repeat split; auto. exists []. rewrite app_nil_r. auto.
      * cbn. split; [assumption|]. eexists [_]. split; [reflexivity|].
        repeat constructor.
  - apply image_read_raises in Hread. destruct Hread as [msg ->].
    cbn. repeat split. exists []. rewrite app_nil_r. auto.
Qed.

Lemma get_batches_next_ok batch_blocks last it e :
  _get_batches_next batch_blocks last it <> Raise e.
Proof.
  destruct it as [first|]; cbn; [|discriminate].
  destruct (_ <=? _); [discriminate|].
  destruct (_ =? 0); discriminate.
Qed.

Lemma read_range_extends fuel self verify t rd :
  extends (fun rd => rd) (rd_image rd) (rd_queue rd)
    (read_range sys fuel self verify t rd).
Proof.
  destruct t as [[first last] sha1]. unfold read_range.
  set (rd1 := with_image rd _).
  pose proof (for_in_extends fst
                (_get_batches_next (_batch_blocks self) last)
                (read_batch self verify sha1)
                (fun it e H => False_ind _ (get_batches_next_ok _ _ _ _ H))
                (read_batch_extends self verify sha1)
                fuel (BatchesLoop first) (rd1, [])) as H.
  cbn [fst] in H.
  destruct (for_in fuel _ _ _ _) as [[rd' h]|[rd' h]|e [rd' h]|[rd' h]];
    cbn in H |- *; try exact H.
  destruct sha1 as [digest|]; [|exact H].
  destruct (verify && _ && _); [|exact H].
  cbn. split; [reflexivity | exact H].
Qed.

Lemma int_raises s e : int s = Raise e -> e = ValueError.
Proof.
  unfold int.
  destruct (match strip_chars (list_ascii_of_string s) with
            | [] => _ | _ => _ end); [discriminate|].
  intros [= <-]. reflexivity.
Qed.

Lemma parse_range_raises r e :
  parse_range r = Raise e -> module_failure e.
Proof.
  unfold parse_range, text_strip, bad_range.
  destruct (range_text r); cbn [bind]; [|intros [= <-]; reflexivity].
  destruct (map strip _) as [|a [|b l]]; [intros [= <-]; reflexivity| |].
  - destruct (int a) eqn:Ha; cbn [bind]; [discriminate|].
    intros [= <-]. apply int_raises in Ha. subst. reflexivity.
  - destruct (int a) eqn:Ha; cbn [bind];
      [|intros [= <-]; apply int_raises in Ha; subst; reflexivity].
    destruct (int b) eqn:Hb; cbn [bind];
      [|intros [= <-]; apply int_raises in Hb; subst; reflexivity].
    destruct (_ >? _); [intros [= <-]; reflexivity | discriminate].
Qed.

Lemma get_block_ranges_next_raises self it e :
  _get_block_ranges_next self it = Raise e -> module_failure e.
Proof.
  assert (Hxml : forall rest, ranges_xml_next rest = Raise e ->
                              module_failure e).
  { intros [|r rest]; cbn; [discriminate|].
    destruct (parse_range r) eqn:Hp; cbn; [discriminate|].
    intros [= <-]. eapply parse_range_raises; eauto. }
  destruct it as [|first|rest|]; cbn;
    [|discriminate|apply Hxml|discriminate].
  destruct (_f_bmap self).
  - destruct (_xml self) as [doc|]; [|intros [= <-]; reflexivity].
    destruct (xml_BlockMap doc); [apply Hxml|intros [= <-]; reflexivity].
  - destruct (blocks_cnt self) as [cnt|]; [|discriminate].
    destruct (negb _); discriminate.
Qed.

Lemma get_data_extends fuel self verify :
  match _get_data sys fuel self verify (reader0 self) with
  | Return rd =>
      exists ds, Forall is_data ds /\ rd_queue rd = ds ++ [QNone]
  | Next rd => ends_with_marker (rd_queue rd)
  | Throw _ _ => False
  | Spin rd => Forall is_data (rd_queue rd)
  end.
Proof.
  unfold _get_data.
  pose proof (for_in_extends (fun rd => rd) (_get_block_ranges_next self)
                (read_range sys fuel self verify)
                (get_block_ranges_next_raises self)
                (read_range_extends fuel self verify)
                fuel RangesStart (reader0 self)) as H.
  cbn [reader0 rd_queue rd_image app] in H.
  destruct (for_in fuel _ _ _ _) as [rd|rd|e rd|rd]; cbn in H.
  - destruct H as [_ (ds & Hq & Hds)]. cbn. rewrite Hq.
    exists ds. auto.
  - destruct H as [_ (ds & Hq & Hds)]. exists ds. auto.
  - destruct H as (He & _ & ds & Hq & Hds).
    rewrite (module_failure_is_Exception e He). cbn. rewrite Hq.
    exists ds. split; [assumption|]. right. exists e.
    rewrite <- app_assoc. auto.
  - destruct H as [_ (ds & Hq & Hds)]. rewrite Hq. assumption.
Qed.

(** *** The reader thread stops *)

Lemma for_in_finishes {I A S : Type} (next : step I A)
    (body : A -> S -> ctl S) :
  (forall a s, ~ spins (body a s)) ->
  forall fuel it r s,
    to_list fuel next it = Some r ->
    ~ spins (for_in fuel next body it s).
Proof.
  intros Hbody. induction fuel as [|fuel IH]; intros it r s; [discriminate|].
  cbn [to_list for_in].
  destruct (next it) as [[[a it']|]|e]; [|intros _ []|intros _ []].
  destruct (to_list fuel next it') as [r'|] eqn:Hl;
    [|destruct r; discriminate].
  intros _. specialize (Hbody a s).
  destruct (body a s) as [s'|s'|e s'|s']; try exact Hbody.
  eapply IH; eauto.
Qed.

Lemma batches_to_list_some batch_blocks first last fuel :
  0 < batch_blocks ->
  (batches_fuel batch_blocks first last <= fuel)%nat ->
  exists l,
    to_list fuel (_get_batches_next batch_blocks last) (BatchesLoop first)
    = Some (Ok l).
Proof.
  intros Hbb Hfuel. unfold batches_fuel in Hfuel.
  destruct (Z_le_gt_dec first (last + 1)) as [Hle|Hgt].
  - eexists. apply batches_loop_to_list with
      (n := Z.to_nat ((last - first + 1) / batch_blocks)); auto.
    rewrite Z2Nat.id; [reflexivity|]. apply Z.div_pos; lia.
  - destruct fuel as [|[|fuel]]; [lia|lia|].
    cbn [to_list _get_batches_next].
    destruct (first + batch_blocks - 1 <=? last) eqn:E;
      [apply Z.leb_le in E; lia|].
    destruct (last - first + 1 =? 0) eqn:E0;
      [apply Z.eqb_eq in E0; lia|].
    eexists. reflexivity.
Qed.

Lemma read_batch_no_spin self verify sha1 b st :
  ~ spins (read_batch self verify sha1 b st).
Proof.
  destruct b as [[start end_] length]. destruct st as [rd hashed].
  unfold read_batch.
  destruct (rescue _ _) as [[[|b0 buf] f']|e]; cbn; auto.
  destruct (floordiv _ _); cbn; auto.
Qed.

Lemma read_range_no_spin fuel self verify first last sha1 rd :
  0 < _batch_blocks self ->
  (batches_fuel (_batch_blocks self) first last <= fuel)%nat ->
  ~ spins (read_range sys fuel self verify (first, last, sha1) rd).
Proof.
  intros Hbb Hfuel. unfold read_range.
  destruct (batches_to_list_some _ first last fuel Hbb Hfuel) as [l Hl].
  pose proof (for_in_finishes _ (read_batch self verify sha1)
                (read_batch_no_spin self verify sha1) fuel _ _
                (with_image rd (image_seek (rd_image rd)
                                  (first * block_size self)), []) Hl) as H.
  destruct (for_in fuel _ _ _ _) as [[rd' h]|[rd' h]|e [rd' h]|[rd' h]];
    cbn in H |- *; auto.
  destruct sha1 as [digest|]; cbn; auto.
  destruct (verify && _ && _); cbn; auto.
Qed.

(** The ranges of a bmap. *)
Lemma xml_ranges_finish self verify fuel :
  0 < _batch_blocks self ->
  forall ranges k rd,
    (xml_ranges_fuel (_batch_blocks self) ranges <= fuel)%nat ->
    (List.length ranges + 1 <= k)%nat ->
    ~ spins (for_in k (_get_block_ranges_next self)
               (read_range sys fuel self verify) (RangesXml ranges) rd).
Proof.
  intros Hbb. induction ranges as [|r ranges IH]; intros k rd Hfuel Hk.
  - destruct k; [cbn in Hk; lia|]. cbn. auto.
  - destruct k as [|k]; [cbn in Hk; lia|].
    cbn [for_in _get_block_ranges_next ranges_xml_next].
    cbn [xml_ranges_fuel fold_right] in Hfuel.
    fold (xml_ranges_fuel (_batch_blocks self) ranges) in Hfuel.
    destruct (parse_range r) as [[[first last] sha1]|e]; cbn [bind];
      [|cbn; auto].
    pose proof (read_range_no_spin fuel self verify first last sha1 rd Hbb
                  ltac:(lia)) as Hbody.
    destruct (read_range sys fuel self verify (first, last, sha1) rd)
      as [rd'|rd'|e rd'|rd']; cbn in Hbody |- *; auto.
    apply IH; [lia | cbn in Hk; lia].
Qed.

(** A range whose first batch finds the image exhausted ends the thread:
    when the body of the outer loop falls through, there was data at
    [first * block_size]. *)
Lemma read_range_next_has_data fuel self verify first last sha1 rd rd' :
  0 <= first * block_size self ->
  first + _batch_blocks self - 1 <= last ->
  read_range sys fuel self verify (first, last, sha1) rd = Next rd' ->
  first * block_size self < Z.of_nat (List.length (im_data (rd_image rd))).
Proof.
  intros Hpos Hfull Hnext.
  destruct (Z_lt_le_dec (first * block_size self)
              (Z.of_nat (List.length (im_data (rd_image rd)))))
    as [Hlt|Hge]; [assumption|exfalso].
  revert Hnext. unfold read_range.
  destruct fuel as [|fuel]; [discriminate|].
  cbn [for_in _get_batches_next].
  apply Z.leb_le in Hfull. rewrite Hfull.
  unfold read_batch, image_read.
  cbn [rd_image with_image image_seek im_pos im_read_error im_data].
  destruct (im_read_error (rd_image rd) (first * block_size self));
    cbn [rescue on_IOError]; [discriminate|].
  rewrite skipn_all2 by lia.
  destruct (_ <? 0); cbn; try rewrite firstn_nil; discriminate.
Qed.

(** The endless ranges of an image of unknown size: the position grows by
    a full batch with every range, so the data runs out. *)
Lemma endless_ranges_finish self verify fuel :
  0 < block_size self ->
  0 < _batch_blocks self ->
  (3 <= fuel)%nat ->
  forall k it first rd,
    0 <= first ->
    _get_block_ranges_next self it
    = Ok (Some ((first, first + _batch_blocks self - 1, None),
                RangesForever (first + _batch_blocks self))) ->
    (1 <= k)%nat ->
    Z.of_nat (List.length (im_data (rd_image rd))) - first * block_size self
    < Z.of_nat k ->
    ~ spins (for_in k (_get_block_ranges_next self)
               (read_range sys fuel self verify) it rd).
Proof.
  intros Hbs Hbb Hfuel. induction k as [|k IH];
    intros it first rd Hfirst Hnext Hk Hdata; [lia|].
  cbn [for_in]. rewrite Hnext.
  assert (Hbf : (batches_fuel (_batch_blocks self) first
                   (first + _batch_blocks self - 1) <= fuel)%nat).
  { unfold batches_fuel.
    replace (first + _batch_blocks self - 1 - first + 1)
      with (_batch_blocks self) by lia.
    rewrite Z.div_same by lia. cbn. lia. }
  pose proof (read_range_no_spin fuel self verify first
                (first + _batch_blocks self - 1) None rd Hbb Hbf) as Hbody.
  pose proof (read_range_extends fuel self verify
                (first, first + _batch_blocks self - 1, None) rd) as Hext.
  destruct (read_range sys fuel self verify _ rd)
    as [rd'|rd'|e rd'|rd'] eqn:Hrange; cbn in Hbody |- *; auto.
  apply read_range_next_has_data in Hrange; [|nia|lia].
  cbn in Hext. destruct Hext as [Hsame _].
  apply (IH _ (first + _batch_blocks self)); [lia|reflexivity|nia|].
  rewrite Hsame. nia.
Qed.

Lemma get_data_finishes self verify fuel :
  0 < block_size self ->
  0 < _batch_blocks self ->
  (reader_fuel self <= fuel)%nat ->
  ~ spins (_get_data sys fuel self verify (reader0 self)).
Proof.
  intros Hbs Hbb Hfuel.
  assert (Hloop : ~ spins (for_in fuel (_get_block_ranges_next self)
                             (read_range sys fuel self verify) RangesStart
                             (reader0 self))).
  { unfold reader_fuel in Hfuel.
    assert (Hendless :
              (List.length (im_data (_f_image self)) + 3 <= fuel)%nat ->
              _get_block_ranges_next self RangesStart
              = Ok (Some ((0, 0 + _batch_blocks self - 1, None),
                          RangesForever (0 + _batch_blocks self))) ->
              ~ spins (for_in fuel (_get_block_ranges_next self)
                         (read_range sys fuel self verify) RangesStart
                         (reader0 self))).
    { intros Hf Hn.
      apply (endless_ranges_finish self verify fuel Hbs Hbb ltac:(lia)
               fuel RangesStart 0 (reader0 self)); auto; try lia.
      cbn [reader0 rd_image]. lia. }
    destruct (_f_bmap self) as [fb|] eqn:Hfb.
    - destruct fuel as [|k]; [destruct (_xml self) as [doc|];
                              [destruct (xml_BlockMap doc)|]; cbn in Hfuel; lia|].
      remember (S k) as fuel eqn:Efuel.
      rewrite Efuel at 1. cbn [for_in _get_block_ranges_next].
      rewrite Hfb.
      destruct (_xml self) as [doc|]; [|cbn; auto].
      destruct (xml_BlockMap doc) as [ranges|]; [|cbn; auto].
      pose proof (xml_ranges_finish self verify fuel Hbb ranges (S k)
                    (reader0 self) ltac:(lia) ltac:(lia)) as H.
      cbn [for_in _get_block_ranges_next] in H. exact H.
    - destruct (blocks_cnt self) as [cnt|] eqn:Hcnt.
      + destruct (negb (cnt =? 0)) eqn:Hz.
        * destruct fuel as [|[|k]]; [lia|lia|].
          remember (S (S k)) as fuel eqn:Efuel.
          rewrite Efuel at 1. cbn [for_in _get_block_ranges_next].
          rewrite Hfb, Hcnt, Hz.
          pose proof (read_range_no_spin fuel self verify 0 (cnt - 1) None
                        (reader0 self) Hbb ltac:(lia)) as Hbody.
          destruct (read_range sys fuel self verify _ _)
            as [rd'|rd'|e rd'|rd']; cbn in Hbody |- *; auto.
        * apply Hendless; [assumption|]. cbn. rewrite Hfb, Hcnt, Hz.
          reflexivity.
      + apply Hendless; [assumption|]. cbn. rewrite Hfb, Hcnt. reflexivity. }
  unfold _get_data.
  destruct (for_in fuel _ _ _ _) as [rd|rd|e rd|rd]; cbn in Hloop |- *; auto.
  destruct (is_Exception e); cbn; auto.
Qed.

(** C8.  However the reader thread ends, what it has put on the queue is a
    run of data items followed by exactly one end-of-stream marker, with
    at most one error record, placed right before the marker; after a
    zero-byte read there is no error record.  While the thread has not
    ended there is no marker on the queue, and the thread never dies of an
    exception.  With a positive block size and a positive batch size the
    thread ends: [reader_fuel] iterations are enough. *)
Theorem get_data_ends_with_marker (self : BmapCopy) (verify : bool) :
  (forall fuel,
     match _get_data sys fuel self verify (reader0 self) with
     | Return rd =>
         exists ds, Forall is_data ds /\ rd_queue rd = ds ++ [QNone]
     | Next rd => ends_with_marker (rd_queue rd)
     | Throw _ _ => False
     | Spin rd => Forall is_data (rd_queue rd)
     end)
  /\ (0 < block_size self ->
      0 < _batch_blocks self ->
      forall fuel,
        (reader_fuel self <= fuel)%nat ->
        ends_with_marker
          (rd_queue
             (ctl_state (_get_data sys fuel self verify (reader0 self))))).
Proof.
  split; [intros fuel; apply get_data_extends|].
  intros Hbs Hbb fuel Hfuel.
  pose proof (get_data_finishes self verify fuel Hbs Hbb Hfuel) as Hfin.
  pose proof (get_data_extends fuel self verify) as Hext.
  destruct (_get_data sys fuel self verify (reader0 self))
    as [rd|rd|e rd|rd]; cbn in Hfin |- *; try tauto.
  destruct Hext as (ds & Hds & Hq). exists ds. auto.
Qed.

(* ------------------------------------------------------------------ *)
(** ** Tuning and restoring the block device *)

Lemma tune_block_device_base self log self1 log1 :
  _tune_block_device sys self log = (Ok self1, log1) ->
  base self1 = base self
  /\ _sysfs_scheduler_path self1 = _sysfs_scheduler_path self
  /\ _sysfs_max_ratio_path self1 = _sysfs_max_ratio_path self.
Proof.
  unfold _tune_block_device.
  repeat match goal with
         | |- context [match ?x with _ => _ end] => destruct x
         end; intros [= <- _]; auto.
Qed.

(** [_tune_block_device] raises only when the scheduler file was read and
    rewritten but names no scheduler in brackets; a sysfs operation that
    fails makes it return. *)
Lemma tune_block_device_raises self log e log1 :
  _tune_block_device sys self log = (Raise e, log1) ->
  e = AttributeError
  /\ exists contents,
       sysfs_open sys (_sysfs_scheduler_path self) "r+" = Done tt
       /\ sysfs_read sys (_sysfs_scheduler_path self) = Done contents
       /\ sysfs_write sys (_sysfs_scheduler_path self) "noop" = Done tt
       /\ scheduler_in_brackets contents = None.
Proof.
  unfold _tune_block_device.
  destruct (sysfs_open sys (_sysfs_scheduler_path self) "r+") as [[]|];
    [|discriminate].
  destruct (sysfs_read sys (_sysfs_scheduler_path self)) as [contents|];
    [|discriminate].
  destruct (sysfs_write sys (_sysfs_scheduler_path self) "noop") as [[]|];
    [|discriminate].
  destruct (scheduler_in_brackets contents) eqn:Hm.
  - repeat match goal with
           | |- context [match ?x with _ => _ end] => destruct x
           end; discriminate.
  - intros [= <- _]. split; [reflexivity|]. exists contents. auto.
Qed.

Lemma restore_bdev_settings_log self log :
  _restore_bdev_settings sys self log
  = (Ok tt, log ++ restore_events sys self).
Proof.
  unfold _restore_bdev_settings, restore_events, restore_saved,
    restore_attempt.
  destruct (old_scheduler_value self) as [v|];
    destruct (old_max_ratio_value self) as [v'|];
    repeat match goal with
           | |- context [match sysfs_open ?a ?b ?c with _ => _ end] =>
               destruct (sysfs_open a b c) as [[]|]
           | |- context [match sysfs_write ?a ?b ?c with _ => _ end] =>
               destruct (sysfs_write a b c) as [[]|]
           end;
    cbn; rewrite <- ?app_assoc, ?app_nil_r; reflexivity.
Qed.

(** C1 (what the code does).  When [BmapBdevCopy.copy] returns normally,
    the sysfs log holds the events of [_tune_block_device] and nothing
    else: [_restore_bdev_settings] has not run, and the values that were
    captured are still the saved ones. *)
Theorem bdev_copy_success_skips_restore
    (fuel : nat) (self self' : BmapBdevCopy) (do_sync verify : bool)
    (log log' : list sysfs_event) :
  BmapBdevCopy_copy sys fuel self do_sync verify log
  = (Some (Ok self'), log') ->
  exists self1,
    _tune_block_device sys self log = (Ok self1, log')
    /\ old_scheduler_value self' = old_scheduler_value self1
    /\ old_max_ratio_value self' = old_max_ratio_value self1.
Proof.
  unfold BmapBdevCopy_copy, restore_and_reraise.
  destruct (_tune_block_device sys self log) as [[self1|e] log1].
  - destruct (BmapCopy_copy sys fuel (base self1) do_sync verify)
      as [[b|e]|].
    + intros [= <- <-]. exists self1. auto.
    + rewrite restore_bdev_settings_log. discriminate.
    + discriminate.
  - rewrite restore_bdev_settings_log. discriminate.
Qed.

(** C9 (as amended).  A sysfs operation that fails during tuning does not
    make [BmapBdevCopy.copy] fail: tuning then returns, and the outcome of
    the copy is the outcome of [BmapCopy.copy].  [_restore_bdev_settings]
    never raises.  It tries the saved scheduler first and the saved
    write-buffering ratio only when the scheduler attempt did not fail, so
    each control file is opened for writing at most once; it runs once
    when the copy fails. *)
Theorem bdev_tuning_is_best_effort :
  (forall self log e log1,
     _tune_block_device sys self log = (Raise e, log1) ->
     e = AttributeError
     /\ exists contents,
          sysfs_open sys (_sysfs_scheduler_path self) "r+" = Done tt
          /\ sysfs_read sys (_sysfs_scheduler_path self) = Done contents
          /\ sysfs_write sys (_sysfs_scheduler_path self) "noop" = Done tt
          /\ scheduler_in_brackets contents = None)
  /\ (forall fuel self do_sync verify log self1 log1,
        _tune_block_device sys self log = (Ok self1, log1) ->
        match BmapCopy_copy sys fuel (base self) do_sync verify with
        | None =>
            BmapBdevCopy_copy sys fuel self do_sync verify log = (None, log1)
        | Some (Ok b) =>
            BmapBdevCopy_copy sys fuel self do_sync verify log
            = (Some (Ok (with_base self1 b)), log1)
        | Some (Raise e) =>
            BmapBdevCopy_copy sys fuel self do_sync verify log
            = (Some (Raise e), log1 ++ restore_events sys self1)
        end)
  /\ (forall self log,
        _restore_bdev_settings sys self log
        = (Ok tt, log ++ restore_events sys self))
  /\ (forall self,
        (opened_for_writing (_sysfs_scheduler_path self)
           (fst (restore_saved sys (_sysfs_scheduler_path self)
                   (old_scheduler_value self))) <= 1)%nat
        /\ (opened_for_writing (_sysfs_max_ratio_path self)
              (fst (restore_saved sys (_sysfs_max_ratio_path self)
                      (old_max_ratio_value self))) <= 1)%nat
        /\ (snd (restore_saved sys (_sysfs_scheduler_path self)
                   (old_scheduler_value self)) = false ->
            restore_events sys self
            = fst (restore_saved sys (_sysfs_scheduler_path self)
                     (old_scheduler_value self)))).
Proof.
  split; [exact tune_block_device_raises|].
  split; [|split; [exact restore_bdev_settings_log|]].
  - intros fuel self do_sync verify log self1 log1 Htune.
    unfold BmapBdevCopy_copy, restore_and_reraise. rewrite Htune.
    apply tune_block_device_base in Htune. destruct Htune as (-> & _).
    destruct (BmapCopy_copy sys fuel (base self) do_sync verify)
      as [[b|e]|]; try reflexivity.
    rewrite restore_bdev_settings_log. reflexivity.
  - intros self.
    assert (Hone : forall path saved,
              (opened_for_writing path
                 (fst (restore_saved sys path saved)) <= 1)%nat).
    { intros path [v|]; cbn; [|lia]. unfold restore_attempt.
      destruct (sysfs_open sys path "w") as [[]|];
        [destruct (sysfs_write sys path v) as [[]|]|];
        cbn; rewrite String.eqb_refl; cbn; lia. }
    split; [apply Hone|]. split; [apply Hone|].
    intros Hfailed. unfold restore_events.
    destruct (restore_saved sys (_sysfs_scheduler_path self)
                (old_scheduler_value self)) as [events ok].
    cbn in Hfailed |- *. subst ok. apply app_nil_r.
Qed.

(* ------------------------------------------------------------------ *)
(** ** Where range texts are parsed *)

Lemma parse_range_ordered r first last sha1 :
  parse_range r = Ok (first, last, sha1) ->
  first <= last /\ sha1 = range_sha1 r.
Proof.
  unfold parse_range.
  destruct (text_strip (range_text r)) as [text|]; [|discriminate].
  cbn [bind].
  destruct (map strip _) as [|a [|b l]]; [discriminate| |].
  - destruct (int a); [|discriminate]. cbn [bind].
    intros [= <- <- <-]. split; [lia|reflexivity].
  - destruct (int a); [|discriminate]. cbn [bind].
    destruct (int b); [|discriminate]. cbn [bind].
    destruct (_ >? _) eqn:E; [discriminate|].
    intros [= <- <- <-]. split; [|reflexivity].
    rewrite Z.gtb_ltb in E. apply Z.ltb_ge in E. assumption.
Qed.


(* ------------------------------------------------------------------ *)
(** ** The classes of the exceptions that reach the caller *)

Lemma bind_raises {A B : Type} (m : result A) (k : A -> result B) e :
  bind m k = Raise e ->
  m = Raise e \/ exists a, m = Ok a /\ k a = Raise e.
Proof. destruct m as [a|e']; cbn; [eauto | intros [= ->]; auto]. Qed.




Lemma floordiv_raises a b e :
  floordiv a b = Raise e -> e = ZeroDivisionError.
Proof. unfold floordiv. destruct (b =? 0); congruence. Qed.



Ltac split_bind H :=
  let a := fresh "a" in
  let Ha := fresh "Ha" in
  apply bind_raises in H; destruct H as [H|(a & Ha & H)].









Lemma sync_dest_raises dest_path f e :
  sync_dest dest_path f = Raise e ->
  exists m, d_fsync_error f (d_log f) = Some m
            /\ e = cannot_synchronize dest_path m.
Proof.
  unfold sync_dest, os_fsync.
  destruct (d_fsync_error f (d_log f)) as [m|]; cbn; [|discriminate].
  intros [= <-]. eauto.
Qed.



(** The loop of [copy] goes through a run of data items with
    [write_all], and stops at the first item that raises. *)
Lemma write_batches_app self ds rest w :
  Forall is_data ds ->
  write_batches self (ds ++ rest) w
  = match write_all self ds w with
    | Ok w' => write_batches self rest w'
    | Raise e => Aborted e
    end.
Proof.
  intros Hds. revert w. induction Hds as [|item ds Hitem Hds IH]; intros w;
    [reflexivity|].
  destruct item as [start end_ length buf|e|]; cbn in Hitem; try tauto.
  cbn [app write_batches write_all].
  destruct (write_batch self start end_ length buf w) as [w'|e];
    cbn [bind]; [apply IH | reflexivity].
Qed.





(* ------------------------------------------------------------------ *)
(** ** Checksums *)

Lemma slice_length data pos len :
  0 <= pos -> 0 <= len ->
  pos + len <= Z.of_nat (List.length data) ->
  Z.of_nat (List.length (slice data pos len)) = len.
Proof.
  intros Hpos Hlen Hfit. unfold slice.
  rewrite firstn_length_le; [lia|]. rewrite length_skipn. lia.
Qed.

Lemma slice_app data pos a b :
  0 <= pos -> 0 <= a -> 0 <= b ->
  slice data pos a ++ slice data (pos + a) b = slice data pos (a + b).
Proof.
  intros Hpos Ha Hb. unfold slice.
  rewrite (Z2Nat.inj_add pos a), (Z2Nat.inj_add a b) by lia.
  rewrite (Nat.add_comm (Z.to_nat pos)), <- skipn_skipn.
  generalize (skipn (Z.to_nat pos) data) as l.
  generalize (Z.to_nat a) as n. generalize (Z.to_nat b) as m.
  intros m n. induction n as [|n IH]; intros l; [reflexivity|].
  destruct l as [|x l]; cbn.
  - rewrite firstn_nil. reflexivity.
  - rewrite IH. reflexivity.
Qed.

Lemma ceil_blocks length bs :
  0 < bs -> (length * bs + bs - 1) / bs = length.
Proof.
  intros Hbs. replace (length * bs + bs - 1) with (bs - 1 + length * bs)
    by lia.
  rewrite Z.div_add by lia. rewrite Z.div_small by lia. lia.
Qed.

(** One batch read in full. *)
Lemma read_batch_run self verify sha1 start end_ length rd hashed :
  0 < block_size self ->
  0 < length ->
  0 <= start ->
  (start + length) * block_size self
  <= Z.of_nat (List.length (im_data (_f_image self))) ->
  steady self (rd_image rd) ->
  im_pos (rd_image rd) = start * block_size self ->
  read_batch self verify sha1 (start, end_, length) (rd, hashed)
  = Next (put (batch_item self (start, end_, length))
            (with_image rd
               (image_seek (rd_image rd)
                  ((start + length) * block_size self))),
          if verify && truthy_str sha1
          then hashed ++ slice (im_data (_f_image self))
                           (start * block_size self)
                           (length * block_size self)
          else hashed).
Proof.
  intros Hbs Hlen Hstart Hfit [Hdata Herr] Hpos.
  unfold read_batch, image_read. rewrite Herr, Hpos, Hdata.
  cbn [rescue].
  assert (Hneg : (length * block_size self <? 0) = false)
    by (apply Z.ltb_ge; nia).
  rewrite Hneg.
  fold (slice (im_data (_f_image self)) (start * block_size self)
          (length * block_size self)).
  pose proof (slice_length (im_data (_f_image self))
                (start * block_size self) (length * block_size self)
                ltac:(nia) ltac:(nia) ltac:(nia)) as Hsl.
  destruct (slice _ _ _) as [|b0 buf] eqn:Hbuf; [cbn in Hsl; nia|].
  rewrite Hsl. unfold floordiv.
  destruct (block_size self =? 0) eqn:E; [apply Z.eqb_eq in E; lia|].
  rewrite ceil_blocks by assumption. cbn [batch_item].
  rewrite Hbuf.
  replace (start * block_size self + length * block_size self)
    with ((start + length) * block_size self) by lia.
  reflexivity.
Qed.

Lemma steady_seek self f pos : steady self f -> steady self (image_seek f pos).
Proof. intros [Hd He]. split; [exact Hd | exact He]. Qed.

(** The inner loop of the reader on a range that lies within the image,
    started inside the range: the batches that are left are put on the
    queue and their bytes are fed to the digest. *)
Lemma read_batches_run self verify sha1 last :
  0 < block_size self ->
  0 < _batch_blocks self ->
  (last + 1) * block_size self
  <= Z.of_nat (List.length (im_data (_f_image self))) ->
  forall n first fuel rd hashed,
    0 <= first ->
    first <= last + 1 ->
    (last - first + 1) / _batch_blocks self = Z.of_nat n ->
    (n + 2 <= fuel)%nat ->
    steady self (rd_image rd) ->
    im_pos (rd_image rd) = first * block_size self ->
    exists f,
      steady self f
      /\ for_in fuel (_get_batches_next (_batch_blocks self) last)
           (read_batch self verify sha1) (BatchesLoop first) (rd, hashed)
         = Next ({| rd_image := f;
                    rd_queue :=
                      rd_queue rd
                      ++ map (batch_item self)
                           (full_batches (_batch_blocks self) first n
                            ++ final_batch
                                 (first + Z.of_nat n * _batch_blocks self)
                                 last) |},
                 if verify && truthy_str sha1
                 then hashed
                      ++ slice (im_data (_f_image self))
                           (first * block_size self)
                           ((last - first + 1) * block_size self)
                 else hashed).
Proof.
  intros Hbs Hbb Hfit. induction n as [|n IH];
    intros first fuel rd hashed Hfirst Hle Hdiv Hfuel Hsteady Hpos.
  - apply Z.div_small_iff in Hdiv; [|lia].
    destruct Hdiv as [Hdiv|Hdiv]; [|lia].
    destruct fuel as [|[|fuel]]; [lia|lia|].
    cbn [full_batches app].
    replace (first + Z.of_nat 0 * _batch_blocks self) with first by lia.
    unfold final_batch. cbn [for_in _get_batches_next].
    destruct (first + _batch_blocks self - 1 <=? last) eqn:E;
      [apply Z.leb_le in E; lia|].
    destruct (last - first + 1 =? 0) eqn:E0.
    + apply Z.eqb_eq in E0. exists (rd_image rd). split; [assumption|].
      rewrite E0. cbn [map]. rewrite !app_nil_r.
      change (0 * block_size self) with 0. unfold slice.
      cbn [Z.to_nat firstn].
      destruct rd, (verify && truthy_str sha1); reflexivity.
    + apply Z.eqb_neq in E0.
      rewrite read_batch_run; auto; [|lia|nia].
      cbn [for_in _get_batches_next].
      eexists. split; [apply steady_seek; eassumption|].
      cbn [map put with_image rd_image rd_queue]. reflexivity.
  - destruct fuel as [|fuel]; [lia|].
    assert (Hge : _batch_blocks self <= last - first + 1).
    { destruct (Z_lt_le_dec (last - first + 1) (_batch_blocks self))
        as [Hlt|]; [|lia].
      rewrite Z.div_small in Hdiv by lia. lia. }
    cbn [for_in _get_batches_next].
    destruct (first + _batch_blocks self - 1 <=? last) eqn:E;
      [|apply Z.leb_gt in E; lia].
    rewrite read_batch_run; auto; [|nia].
    match goal with
    | |- context [for_in fuel _ _ (BatchesLoop _) (?rd1, ?h1)] =>
        destruct (IH (first + _batch_blocks self) fuel rd1 h1)
          as (f & Hf & Hrun)
    end; [lia|lia| |lia| | |].
    + replace (last - (first + _batch_blocks self) + 1)
        with (last - first + 1 + (-1) * _batch_blocks self) by lia.
      rewrite Z.div_add by lia. lia.
    + destruct Hsteady as [Hd He]. split; [exact Hd | exact He].
    + reflexivity.
    + rewrite Hrun. exists f. split; [assumption|].
      cbn [put with_image rd_image rd_queue full_batches app map].
      replace (first + _batch_blocks self
               + Z.of_nat n * _batch_blocks self)
        with (first + Z.of_nat (S n) * _batch_blocks self) by lia.
      rewrite <- app_assoc. cbn [app].
      destruct (verify && truthy_str sha1); [|reflexivity].
      replace ((first + _batch_blocks self) * block_size self)
        with (first * block_size self
              + _batch_blocks self * block_size self) by lia.
      rewrite <- app_assoc, slice_app by nia.
      replace (_batch_blocks self * block_size self
               + (last - (first + _batch_blocks self) + 1) * block_size self)
        with ((last - first + 1) * block_size self) by lia.
      reflexivity.
Qed.

Lemma range_batches_tiles batch_blocks first last :
  0 < batch_blocks ->
  first <= last ->
  tiles first (range_batches batch_blocks first last) (last + 1).
Proof.
  intros Hbb Hle. unfold range_batches.
  set (n := Z.to_nat ((last - first + 1) / batch_blocks)).
  assert (Hn : Z.of_nat n = (last - first + 1) / batch_blocks).
  { unfold n. rewrite Z2Nat.id; [reflexivity|]. apply Z.div_pos; lia. }
  pose proof (Z.div_mod (last - first + 1) batch_blocks ltac:(lia)) as Hdm.
  pose proof (Z.mod_pos_bound (last - first + 1) batch_blocks Hbb) as Hrem.
  rewrite <- Hn in Hdm.
  eapply tiles_app; [apply full_batches_tiles; assumption|].
  apply final_batch_tiles. lia.
Qed.

(** The outer loop body on a range that lies within the image. *)
Lemma read_range_run self verify first last sha1 rd fuel :
  0 < block_size self ->
  0 < _batch_blocks self ->
  0 <= first ->
  first <= last ->
  (last + 1) * block_size self
  <= Z.of_nat (List.length (im_data (_f_image self))) ->
  steady self (rd_image rd) ->
  (batches_fuel (_batch_blocks self) first last <= fuel)%nat ->
  exists f,
    steady self f
    /\ read_range sys fuel self verify (first, last, sha1) rd
       = let rd' := {| rd_image := f;
                       rd_queue :=
                         rd_queue rd
                         ++ range_items self (first, last, sha1) |} in
         match (if verify then mismatch sys self (first, last, sha1)
                else None) with
         | Some e => Throw e rd'
         | None => Next rd'
         end.
Proof.
  intros Hbs Hbb Hfirst Hle Hfit Hsteady Hfuel. unfold read_range.
  destruct (read_batches_run self verify sha1 last Hbs Hbb Hfit
              (Z.to_nat ((last - first + 1) / _batch_blocks self))
              first fuel
              (with_image rd (image_seek (rd_image rd)
                                (first * block_size self))) [])
    as (f & Hf & Hrun); [assumption|lia| | | |reflexivity|].
  { rewrite Z2Nat.id; [reflexivity|]. apply Z.div_pos; lia. }
  { unfold batches_fuel in Hfuel. exact Hfuel. }
  { destruct Hsteady as [Hd He]. split; [exact Hd | exact He]. }
  rewrite Hrun. exists f. split; [assumption|].
  cbv zeta. cbn [with_image rd_queue range_items mismatch].
  fold (range_batches (_batch_blocks self) first last).
  fold (range_bytes self first last).
  destruct sha1 as [digest|]; [|destruct verify; reflexivity].
  destruct verify; cbn [andb app]; [|reflexivity].
  destruct (truthy_str (Some digest)); cbn [andb app]; [|reflexivity].
  destruct (negb _); reflexivity.
Qed.

Lemma mismatch_is_Exception self t e :
  mismatch sys self t = Some e -> is_Exception e = true.
Proof.
  destruct t as [[first last] [digest|]]; cbn; [|discriminate].
  destruct (_ && _); [|discriminate]. intros [= <-]. reflexivity.
Qed.

(** The outer loop on the ranges of a bmap that lie within the image. *)
Lemma ranges_run self verify fuel :
  0 < block_size self ->
  0 < _batch_blocks self ->
  forall ranges ts,
    Forall2 (fun r t => parse_range r = Ok t) ranges ts ->
    Forall (fun t => let '(first, last, _) := t in
                     0 <= first
                     /\ (last + 1) * block_size self
                        <= Z.of_nat
                             (List.length (im_data (_f_image self)))) ts ->
    (xml_ranges_fuel (_batch_blocks self) ranges <= fuel)%nat ->
    forall k rd,
      (List.length ranges + 1 <= k)%nat ->
      steady self (rd_image rd) ->
      exists f,
        steady self f
        /\ for_in k (_get_block_ranges_next self)
             (read_range sys fuel self verify) (RangesXml ranges) rd
           = let rd' := {| rd_image := f;
                           rd_queue :=
                             rd_queue rd
                             ++ fst (expected_queue sys self verify ts) |} in
             match snd (expected_queue sys self verify ts) with
             | Some e => Throw e rd'
             | None => Next rd'
             end.
Proof.
  intros Hbs Hbb ranges ts Hparse.
  induction Hparse as [|r t ranges ts Hr Hparse IH];
    intros Hwithin Hfuel k rd Hk Hsteady.
  - destruct k; [cbn in Hk; lia|]. exists (rd_image rd).
    split; [assumption|]. cbn. rewrite app_nil_r. destruct rd; reflexivity.
  - destruct k as [|k]; [cbn in Hk; lia|].
    destruct t as [[first last] sha1].
    inversion Hwithin as [|? ? Hhead Hwithin']; subst.
    cbn in Hhead. destruct Hhead as [Hfirst Hfit].
    cbn [xml_ranges_fuel fold_right] in Hfuel.
    fold (xml_ranges_fuel (_batch_blocks self) ranges) in Hfuel.
    rewrite Hr in Hfuel.
    destruct (parse_range_ordered _ _ _ _ Hr) as [Hle _].
    cbn [for_in _get_block_ranges_next ranges_xml_next]. rewrite Hr.
    cbn [bind].
    destruct (read_range_run self verify first last sha1 rd fuel)
      as (f & Hf & Hrun); auto; try lia.
    rewrite Hrun. cbv zeta. cbn [expected_queue].
    destruct (if verify then mismatch sys self (first, last, sha1) else None)
      as [e|] eqn:Hm.
    + exists f. split; [assumption|]. reflexivity.
    + destruct (IH Hwithin' ltac:(lia) k
                  {| rd_image := f;
                     rd_queue := rd_queue rd
                                 ++ range_items self (first, last, sha1) |})
        as (f' & Hf' & Hrest); [cbn in Hk; lia|exact Hf|].
      rewrite Hrest. exists f'. split; [assumption|].
      cbv zeta. cbn [rd_queue].
      destruct (expected_queue sys self verify ts) as [items e].
      cbn [fst snd]. rewrite <- app_assoc. reflexivity.
Qed.

Lemma for_in_S {I A S : Type} k (next : step I A) (body : A -> S -> ctl S)
    it s :
  for_in (Datatypes.S k) next body it s
  = match next it with
    | Raise e => Throw e s
    | Ok None => Next s
    | Ok (Some (a, it')) =>
        match body a s with
        | Next s' => for_in k next body it' s'
        | other => other
        end
    end.
Proof. reflexivity. Qed.

(** What the reader thread puts for a sound input. *)
Lemma get_data_run self ts verify fuel :
  sound_input self ts ->
  (reader_fuel self <= fuel)%nat ->
  exists f,
    _get_data sys fuel self verify (reader0 self)
    = Next {| rd_image := f;
              rd_queue :=
                fst (expected_queue sys self verify ts)
                ++ match snd (expected_queue sys self verify ts) with
                   | Some e => [QError e; QNone]
                   | None => [QNone]
                   end |}.
Proof.
  intros [Hbs Hbb Hbmap (doc & ranges & Hxml & Hmap & Hparse) Hwithin Himg
            _ _ _ _ _] Hfuel.
  unfold reader_fuel in Hfuel.
  destruct (_f_bmap self) as [fb|] eqn:Hfb; [|congruence].
  rewrite Hxml, Hmap in Hfuel.
  assert (Hstart : for_in fuel (_get_block_ranges_next self)
                     (read_range sys fuel self verify) RangesStart
                     (reader0 self)
                   = for_in fuel (_get_block_ranges_next self)
                       (read_range sys fuel self verify) (RangesXml ranges)
                       (reader0 self)).
  { destruct fuel as [|k]; [reflexivity|].
    rewrite !for_in_S. cbn [_get_block_ranges_next].
    rewrite Hfb, Hxml, Hmap. reflexivity. }
  destruct (ranges_run self verify fuel Hbs Hbb ranges ts Hparse Hwithin
              ltac:(lia) fuel (reader0 self) ltac:(lia))
    as (f & Hf & Hrun).
  { split; [reflexivity | exact Himg]. }
  unfold _get_data. rewrite Hstart, Hrun. cbv zeta.
  cbn [reader0 rd_queue app].
  destruct (expected_queue sys self verify ts) as [items [e|]] eqn:Hexp;
    cbn [fst snd].
  - assert (He : is_Exception e = true).
    { clear - Hexp. revert items Hexp.
      induction ts as [|t ts IH]; intros items; cbn [expected_queue];
        [discriminate|].
      destruct (if verify then mismatch sys self t else None) as [e'|] eqn:Hm.
      - intros [= _ <-]. destruct verify; [|discriminate].
        eapply mismatch_is_Exception; eauto.
      - destruct (expected_queue sys self verify ts) as [items' e'].
        intros [= _ ->]. eapply IH; eauto. }
    rewrite He. exists f. unfold put. cbn [rd_queue rd_image].
    rewrite <- app_assoc. reflexivity.
  - exists f. reflexivity.
Qed.

(** *** The loop of [copy] on a healthy destination *)

Lemma write_batch_run self start end_ length buf w :
  healthy (wr_dest w) ->
  Z.of_nat (List.length buf) <= length * block_size self ->
  exists w',
    write_batch self start end_ length buf w = Ok w'
    /\ blocks_written w' = blocks_written w + length
    /\ healthy (wr_dest w').
Proof.
  intros Hh Hsize. unfold write_batch.
  apply Z.leb_le in Hsize. rewrite Hsize. cbn [negb].
  set (f0 := dest_seek (wr_dest w) (start * block_size self)).
  assert (Hf0 : healthy f0) by exact Hh.
  assert (Hsync : exists f1 v,
            (if truthy_int (_dest_fsync_watermark self) then
               match _dest_fsync_watermark self with
               | Some watermark =>
                   if blocks_written w >=? fsync_last w + watermark then
                     f <- sync_dest (_dest_path self) f0 ;;
                     Ok (f, blocks_written w)
                   else Ok (f0, fsync_last w)
               | None => Ok (f0, fsync_last w)
               end
             else Ok (f0, fsync_last w)) = Ok (f1, v)
            /\ healthy f1).
  { destruct (truthy_int _); [|eauto].
    destruct (_dest_fsync_watermark self) as [watermark|]; [|eauto].
    destruct (_ >=? _); [|eauto].
    unfold sync_dest, os_fsync.
    destruct Hf0 as (Hw & Hfl & Hfs). rewrite Hfs. cbn.
    do 2 eexists. split; [reflexivity|]. repeat split; assumption. }
  destruct Hsync as (f1 & v & -> & Hf1). cbn [bind].
  unfold dest_write. destruct Hf1 as (Hw & Hfl & Hfs). rewrite Hw.
  cbn [rescue bind]. eexists. split; [reflexivity|].
  cbn. split; [reflexivity|]. repeat split; assumption.
Qed.

Lemma write_all_run self ds :
  Forall (sized self) ds ->
  forall w,
    healthy (wr_dest w) ->
    exists w',
      write_all self ds w = Ok w'
      /\ blocks_written w' = blocks_written w + items_blocks ds
      /\ healthy (wr_dest w').
Proof.
  induction 1 as [|item ds Hitem Hds IH]; intros w Hw.
  - exists w. split; [reflexivity|]. split; [cbn; lia | assumption].
  - destruct item as [start end_ length buf|e|]; cbn in Hitem; try tauto.
    destruct (write_batch_run self start end_ length buf w Hw Hitem)
      as (w1 & Hw1 & Hb1 & Hh1).
    destruct (IH w1 Hh1) as (w' & Hw' & Hb' & Hh').
    exists w'. cbn [write_all items_blocks fold_right]. rewrite Hw1.
    cbn [bind]. rewrite Hw'.
    fold (items_blocks ds). split; [reflexivity|].
    split; [lia | assumption].
Qed.

(** *** The items of a sound input *)

Lemma tiles_items self lo bs hi :
  0 < block_size self ->
  tiles lo bs hi ->
  Forall (sized self) (map (batch_item self) bs)
  /\ Forall is_data (map (batch_item self) bs)
  /\ items_blocks (map (batch_item self) bs) = hi - lo.
Proof.
  intros Hbs. induction 1 as [lo|lo len bs hi Hlen Htiles IH].
  - cbn. repeat split; [constructor|constructor|lia].
  - destruct IH as (Hsized & Hdata & Hsum).
    cbn [map batch_item items_blocks fold_right].
    fold (items_blocks (map (batch_item self) bs)).
    repeat split; [constructor; [|assumption]|constructor; [exact I|assumption]
                  |lia].
    cbn. unfold slice.
    pose proof (firstn_le_length (Z.to_nat (len * block_size self))
                  (skipn (Z.to_nat (lo * block_size self))
                     (im_data (_f_image self)))) as Hle.
    nia.
Qed.

Lemma items_blocks_app ds1 ds2 :
  items_blocks (ds1 ++ ds2) = items_blocks ds1 + items_blocks ds2.
Proof.
  induction ds1 as [|item ds1 IH]; [reflexivity|].
  change (items_blocks ((item :: ds1) ++ ds2))
    with (match item with
          | QRange _ _ length _ => length + items_blocks (ds1 ++ ds2)
          | _ => items_blocks (ds1 ++ ds2)
          end).
  change (items_blocks (item :: ds1))
    with (match item with
          | QRange _ _ length _ => length + items_blocks ds1
          | _ => items_blocks ds1
          end).
  rewrite IH. destruct item; lia.
Qed.

Lemma expected_queue_items self verify ts :
  0 < block_size self ->
  0 < _batch_blocks self ->
  Forall (fun t => let '(first, last, _) := t in first <= last) ts ->
  Forall (sized self) (fst (expected_queue sys self verify ts))
  /\ Forall is_data (fst (expected_queue sys self verify ts))
  /\ (snd (expected_queue sys self verify ts) = None ->
      items_blocks (fst (expected_queue sys self verify ts))
      = total_blocks ts).
Proof.
  intros Hbs Hbb. induction 1 as [|[[first last] sha1] ts Hle Hts IH].
  - cbn. repeat split; constructor.
  - destruct IH as (Hsized & Hdata & Hsum).
    pose proof (tiles_items self first
                  (range_batches (_batch_blocks self) first last) (last + 1)
                  Hbs (range_batches_tiles _ _ _ Hbb Hle))
      as (Hs1 & Hd1 & Hb1).
    cbn [expected_queue].
    destruct (if verify then mismatch sys self (first, last, sha1) else None)
      as [e|]; cbn [fst snd range_items].
    + repeat split; [assumption|assumption|discriminate].
    + destruct (expected_queue sys self verify ts) as [items e].
      cbn [fst snd] in *.
      repeat split; [apply Forall_app; auto|apply Forall_app; auto|].
      intros He. specialize (Hsum He).
      cbn [total_blocks fold_right]. fold (total_blocks ts).
      rewrite items_blocks_app. lia.
Qed.

Lemma expected_queue_unverified self ts :
  snd (expected_queue sys self false ts) = None.
Proof.
  induction ts as [|t ts IH]; [reflexivity|].
  cbn [expected_queue].
  destruct (expected_queue sys self false ts) as [items e].
  cbn [snd] in *. assumption.
Qed.

(** With verification on, a range whose digest does not match makes the
    expected queue end with the error of the first such range. *)
Lemma expected_queue_verified self ts t e0 :
  In t ts ->
  mismatch sys self t = Some e0 ->
  exists first last digest,
    In (first, last, Some digest) ts
    /\ sha1_hexdigest sys (range_bytes self first last) <> digest
    /\ snd (expected_queue sys self true ts)
       = Some (checksum_mismatch first last
                 (sha1_hexdigest sys (range_bytes self first last)) digest).
Proof.
  induction ts as [|t1 ts IH]; intros Hin Hm; [destruct Hin|].
  cbn [expected_queue].
  destruct (mismatch sys self t1) as [e1|] eqn:Hm1.
  - destruct t1 as [[first last] [digest|]]; cbn in Hm1; [|discriminate].
    destruct (negb (digest =? "")%string
              && negb (sha1_hexdigest sys (range_bytes self first last)
                       =? digest)%string) eqn:Hc; [|discriminate].
    injection Hm1 as <-. exists first, last, digest.
    split; [left; reflexivity|]. split; [|reflexivity].
    apply andb_true_iff in Hc. destruct Hc as [_ Hc].
    apply negb_true_iff, String.eqb_neq in Hc. assumption.
  - destruct Hin as [->|Hin]; [congruence|].
    destruct (IH Hin Hm) as (first & last & digest & Hin' & Hne & Hsnd).
    exists first, last, digest.
    destruct (expected_queue sys self true ts) as [items e].
    cbn [snd] in *.
    split; [right; assumption|]. split; assumption.
Qed.

Lemma finish_copy_run self do_sync image_pos dest_pos bmap_pos f w :
  truthy_int (image_size self) = true ->
  mapped_cnt self = Some (blocks_written w) ->
  healthy (wr_dest w) ->
  exists self',
    finish_copy sys self do_sync image_pos dest_pos bmap_pos f w = Ok self'.
Proof.
  intros Hsize Hm (Hw & Hfl & Hfs). unfold finish_copy.
  cbn [image_size set_files]. rewrite Hsize. cbn [negb bind mapped_cnt
                                                    set_files].
  rewrite Hm, Z.eqb_refl. cbn [negb _f_dest set_files].
  unfold dest_flush. rewrite Hfl. cbn [rescue bind].
  destruct do_sync; [|eexists; reflexivity].
  unfold sync, sync_dest, os_fsync. cbn [_f_dest set_files d_log dest_with
                                           d_fsync_error _dest_path].
  rewrite Hfs. cbn [rescue bind]. eexists. reflexivity.
Qed.

Lemma parsed_ranges_ordered ranges ts :
  Forall2 (fun r t => parse_range r = Ok t) ranges ts ->
  Forall (fun t => let '(first, last, _) := t in first <= last) ts.
Proof.
  induction 1 as [|r [[first last] sha1] ranges ts Hr _ IH]; constructor;
    [|assumption].
  apply parse_range_ordered in Hr. tauto.
Qed.

(** The loop of [copy] on the queue of a sound input. *)
Lemma write_expected_run self ts verify tail :
  sound_input self ts ->
  exists w,
    write_batches self
      (fst (expected_queue sys self verify ts) ++ tail) (writer0 self)
    = write_batches self tail w
    /\ healthy (wr_dest w)
    /\ (snd (expected_queue sys self verify ts) = None ->
        blocks_written w = total_blocks ts).
Proof.
  intros Hsound.
  destruct Hsound as [Hbs Hbb _ (doc & ranges & _ & _ & Hparse) _ _
                        Hwr Hfl Hfs _ _].
  destruct (expected_queue_items self verify ts Hbs Hbb
              (parsed_ranges_ordered _ _ Hparse))
    as (Hsized & Hdata & Hsum).
  destruct (write_all_run self _ Hsized (writer0 self))
    as (w & Hw & Hblocks & Hh).
  { repeat split; assumption. }
  exists w. rewrite write_batches_app by assumption. rewrite Hw.
  split; [reflexivity|]. split; [assumption|].
  intros Hnone. rewrite Hblocks, (Hsum Hnone). cbn. lia.
Qed.

(** C2.  On a sound input — a session with a bmap whose ranges lie within
    the image, files that do not fail, and a [MappedBlocksCount] that is
    the number of blocks in the ranges — [copy] without verification
    completes, whatever the declared digests are.  With verification, as
    soon as some range declares a non-empty digest that is not the digest
    of the bytes read for it, the reader thread puts an error record with
    the "checksum mismatch" [Error] of the first such range on the queue,
    followed by the end-of-stream marker, and [copy] raises that
    [Error]. *)
Theorem checksum_mismatch_aborts_verified_copy
    (self : BmapCopy) (ts : list triplet) (do_sync : bool) (fuel : nat) :
  sound_input self ts ->
  (reader_fuel self <= fuel)%nat ->
  (exists self',
     BmapCopy_copy sys fuel self do_sync false = Some (Ok self'))
  /\ (forall first last digest,
        In (first, last, Some digest) ts ->
        digest <> EmptyString ->
        sha1_hexdigest sys (range_bytes self first last) <> digest ->
        exists first' last' digest' pre,
          let calculated :=
            sha1_hexdigest sys (range_bytes self first' last') in
          let e := checksum_mismatch first' last' calculated digest' in
          In (first', last', Some digest') ts
          /\ calculated <> digest'
          /\ Forall is_data pre
          /\ rd_queue (ctl_state
                         (_get_data sys fuel self true (reader0 self)))
             = pre ++ [QError e; QNone]
          /\ BmapCopy_copy sys fuel self do_sync true = Some (Raise e)).
Proof.
  intros Hsound Hfuel. split.
  - destruct (get_data_run self ts false fuel Hsound Hfuel) as (f & Hrun).
    rewrite expected_queue_unverified in Hrun.
    destruct (write_expected_run self ts false [QNone] Hsound)
      as (w & Hw & Hh & Hblocks).
    specialize (Hblocks (expected_queue_unverified self ts)).
    rewrite copy_unfold, Hrun. cbv zeta. cbn [ctl_state rd_queue rd_image].
    rewrite Hw. cbn [write_batches].
    destruct (finish_copy_run self do_sync (im_pos (_f_image self))
                (d_pos (_f_dest self)) (option_map bm_pos (_f_bmap self))
                f w) as (self' & Hfinish).
    + apply (si_image_size _ _ Hsound).
    + rewrite Hblocks. apply (si_mapped_cnt _ _ Hsound).
    + assumption.
    + exists self'. rewrite Hfinish. reflexivity.
  - intros first last digest Hin Hdigest Hne.
    assert (Hm : exists e0,
               mismatch sys self (first, last, Some digest) = Some e0).
    { cbn. apply String.eqb_neq in Hdigest, Hne.
      rewrite Hdigest, Hne. cbn. eauto. }
    destruct Hm as (e0 & Hm).
    destruct (expected_queue_verified self ts _ e0 Hin Hm)
      as (first' & last' & digest' & Hin' & Hne' & Hsnd).
    destruct (get_data_run self ts true fuel Hsound Hfuel) as (f & Hrun).
    rewrite Hsnd in Hrun.
    destruct (write_expected_run self ts true
                [QError (checksum_mismatch first' last'
                           (sha1_hexdigest sys
                              (range_bytes self first' last')) digest');
                 QNone] Hsound)
      as (w & Hw & _ & _).
    destruct Hsound as [Hbs Hbb _ (doc & ranges & _ & _ & Hparse) _ _
                          _ _ _ _ _].
    destruct (expected_queue_items self true ts Hbs Hbb
                (parsed_ranges_ordered _ _ Hparse)) as (_ & Hdata & _).
    exists first', last', digest', (fst (expected_queue sys self true ts)).
    cbv zeta. split; [assumption|]. split; [assumption|].
    split; [assumption|]. rewrite copy_unfold, Hrun. cbv zeta.
    cbn [ctl_state rd_queue rd_image]. split; [reflexivity|].
    rewrite Hw. reflexivity.
Qed.

(* ------------------------------------------------------------------ *)
(** ** Opening the image *)

(** The image counts as compressed exactly for the two extensions. *)
Lemma open_image_file_flag (path : string) (f : image_file)
    (compressed : bool) :
  _open_image_file sys path = Ok (f, compressed) ->
  compressed = endswith path ".gz" || endswith path ".bz2".
Proof.
  unfold _open_image_file. intros H.
  destruct (os_stat_isreg sys path) as [[|]|m]; cbn in H; try discriminate.
  match type of H with rescue ?m _ = _ => destruct m as [[f' c']|e] eqn:Hm end;
    [|cbn in H; destruct (on_IOError _ e); discriminate].
  cbn in H. injection H as -> ->.
  assert (Hflag :
    (if endswith path ".gz" then
       f <- io (gzip_open sys path) ;; Ok (f, true)
     else if endswith path ".bz2" then
       f <- io (bz2_open sys path) ;; Ok (f, true)
     else f <- io (open_rb sys path) ;; Ok (f, false)) = Ok (f, compressed) ->
    compressed = endswith path ".gz" || endswith path ".bz2").
  { destruct (endswith path ".gz");
      [|destruct (endswith path ".bz2")];
      match goal with
      | |- context [io ?o] => destruct o; cbn; try discriminate
      end; intros [= _ <-]; reflexivity. }
  match type of Hm with
  | bind ?m _ = _ => destruct m as [[]|]; cbn [bind] in Hm; [|discriminate]
  end.
  apply Hflag. exact Hm.
Qed.


(* ------------------------------------------------------------------ *)
(** ** What the constructor leaves in the session *)

Lemma parse_header_version doc hdr :
  parse_header doc = Ok hdr -> hdr_version hdr = version_text doc.
Proof.
  unfold parse_header. fold (version_text doc).
  destruct (int (hd _ _)) as [major|]; [|discriminate]. cbn [bind].
  destruct (major >? SUPPORTED_BMAP_VERSION); [discriminate|].
  destruct (text_strip (xml_BlockSize doc)) as [t1|]; [|discriminate].
  cbn [bind]. destruct (int t1) as [v1|]; [|discriminate]. cbn [bind].
  destruct (text_strip (xml_BlocksCount doc)) as [t2|]; [|discriminate].
  cbn [bind]. destruct (int t2) as [v2|]; [|discriminate]. cbn [bind].
  destruct (text_strip (xml_MappedBlocksCount doc)) as [t3|]; [|discriminate].
  cbn [bind]. destruct (int t3) as [v3|]; [|discriminate]. cbn [bind].
  destruct (v2 =? 0); [discriminate|].
  intros [= <-]. reflexivity.
Qed.

(** [_parse_bmap] changes the attributes it reads from the document and
    nothing else; the bmap file is back at its position. *)
Lemma parse_bmap_frame self self' :
  _parse_bmap sys self = Ok self' ->
  exists f doc hdr,
    _f_bmap self = Some f
    /\ bm_parse f = Done doc
    /\ parse_header doc = Ok hdr
    /\ _xml self' = Some doc
    /\ bmap_version self' = VersionStr (version_text doc)
    /\ mapped_size self' = Some (hdr_mapped_cnt hdr * hdr_block_size hdr)
    /\ mapped_percent self'
       = Some (PercentFloat (hdr_mapped_cnt hdr) (hdr_blocks_cnt hdr))
    /\ image_size_human self'
       = Some (human_size sys (hdr_blocks_cnt hdr * hdr_block_size hdr))
    /\ mapped_size_human self'
       = Some (human_size sys (hdr_mapped_cnt hdr * hdr_block_size hdr))
    /\ _f_bmap self' = Some (bmap_seek f (bm_pos f))
    /\ _f_image self' = _f_image self
    /\ _f_dest self' = _f_dest self
    /\ _image_is_compressed self' = _image_is_compressed self
    /\ _dest_fsync_watermark self' = _dest_fsync_watermark self
    /\ _batch_queue_len self' = _batch_queue_len self
    /\ _f_image_needs_close self' = _f_image_needs_close self
    /\ _f_dest_needs_close self' = _f_dest_needs_close self
    /\ _f_bmap_needs_close self' = _f_bmap_needs_close self
    /\ _dest_path self' = _dest_path self
    /\ _image_path self' = _image_path self
    /\ _bmap_path self' = _bmap_path self
    /\ _batch_bytes self' = _batch_bytes self.
Proof.
  unfold _parse_bmap.
  destruct (_f_bmap self) as [f|]; [|discriminate].
  destruct (_bmap_path self) as [p|]; [|discriminate].
  cbn [bmap_seek bm_parse].
  destruct (bm_parse f) as [doc|m] eqn:Hparse; [|discriminate].
  cbn [xml rescue bind].
  destruct (parse_header doc) as [hdr|] eqn:Hhdr; [|discriminate].
  cbn [bind]. intros [= <-]. exists f, doc, hdr. cbn.
  rewrite (parse_header_version _ _ Hhdr).
  repeat split; auto.
Qed.

(** What [__init__] makes of its three arguments. *)
Lemma init_with_files open_destination image dest bmap self :
  BmapCopy_init_with sys open_destination image dest bmap = Ok self ->
  match dest with
  | AFile f => _f_dest self = f /\ _dest_path self = d_name f
  | APath p => open_destination p = Ok (_f_dest self) /\ _dest_path self = p
  end
  /\ _f_dest_needs_close self = is_path dest
  /\ match image with
     | AFile f =>
         _f_image self = f /\ _image_path self = im_name f
         /\ _image_is_compressed self = true
     | APath p =>
         _open_image_file sys p
         = Ok (_f_image self, _image_is_compressed self)
         /\ _image_path self = p
     end
  /\ _f_image_needs_close self = is_path image
  /\ (if truthy_arg bmap then
        exists f,
          _f_bmap self = Some (bmap_seek f (bm_pos f))
          /\ match bmap with
             | Some (AFile f') => f' = f /\ _f_bmap_needs_close self = false
             | Some (APath p) =>
                 _open_bmap_file sys p = Ok f
                 /\ _f_bmap_needs_close self = true
             | None => False
             end
      else
        _f_bmap self = None /\ _f_bmap_needs_close self = false
        /\ _xml self = None /\ block_size self = 4096
        /\ bmap_version self = VersionInt 0
        /\ mapped_percent self = Some (PercentInt 100))
  /\ _dest_fsync_watermark self = None
  /\ _batch_queue_len self = 2
  /\ _batch_bytes self = 1024 * 1024
  /\ block_size self <> 0
  /\ _batch_blocks self = 1024 * 1024 / block_size self.
Proof.
  unfold BmapCopy_init_with.
  destruct (match dest with AFile _ => _ | APath _ => _ end)
    as [[[f_dest dest_path] dnc]|] eqn:Hdest; [|discriminate].
  cbn [bind].
  destruct (match image with AFile _ => _ | APath _ => _ end)
    as [[[[f_image image_path] inc] cmp]|] eqn:Himage; [|discriminate].
  cbn [bind].
  assert (Hd : match dest with
               | AFile f => f_dest = f /\ dest_path = d_name f
               | APath p => open_destination p = Ok f_dest /\ dest_path = p
               end /\ dnc = is_path dest).
  { destruct dest as [f|p]; cbn in Hdest |- *.
    - injection Hdest as <- <- <-. auto.
    - destruct (open_destination p); cbn in Hdest; [|discriminate].
      injection Hdest as <- <- <-. auto. }
  assert (Hi : match image with
               | AFile f => f_image = f /\ image_path = im_name f
                            /\ cmp = true
               | APath p => _open_image_file sys p = Ok (f_image, cmp)
                            /\ image_path = p
               end /\ inc = is_path image).
  { destruct image as [f|p]; cbn in Himage |- *.
    - injection Himage as <- <- <- <-. auto.
    - destruct (_open_image_file sys p) as [[f c]|]; cbn in Himage;
        [|discriminate].
      injection Himage as <- <- <- <-. auto. }
  clear Hdest Himage. destruct Hd as [Hd ->]. destruct Hi as [Hi ->].
  destruct (truthy_arg bmap) eqn:Hb.
  - destruct (match bmap with Some _ => _ | None => _ end)
      as [[[f_bmap bmap_path] bnc]|] eqn:Hbmap; [|discriminate].
    cbn [bind].
    destruct (_parse_bmap sys _) as [self1|] eqn:Hparse; [|discriminate].
    cbn [bind]. apply parse_bmap_frame in Hparse.
    destruct Hparse as (f & doc & hdr & Hf & _ & _ & _ & _ & _ & _ & _ & _
                        & Hfb & Hfi & Hfd & Hc & Hw & Hq & Hinc & Hdnc & Hbnc
                        & Hdp & Hip & _ & Hbb).
    cbn in Hf, Hfi, Hfd, Hc, Hw, Hq, Hinc, Hdnc, Hbnc, Hdp, Hip, Hbb.
    injection Hf as <-.
    unfold floordiv. destruct (block_size self1 =? 0) eqn:E; [discriminate|].
    cbn [bind]. intros [= <-]. apply Z.eqb_neq in E. cbn.
    rewrite Hfd, Hdp, Hdnc, Hfi, Hip, Hc, Hinc, Hw, Hq, Hfb, Hbnc, Hbb.
    repeat split; auto.
    exists f_bmap. split; [reflexivity|].
    destruct bmap as [[f'|p]|]; cbn in Hbmap; [| |discriminate].
    + injection Hbmap as <- _ <-. auto.
    + destruct (_open_bmap_file sys p); cbn in Hbmap; [|discriminate].
      injection Hbmap as <- _ <-. auto.
  - cbn [_image_is_compressed negb].
    match goal with
    | |- bind ?m _ = _ -> _ => destruct m as [self1|] eqn:Hsizes
    end; [|discriminate].
    cbn [bind].
    assert (Hframe :
      block_size self1 = 4096 /\ _f_dest self1 = f_dest
      /\ _dest_path self1 = dest_path /\ _f_image self1 = f_image
      /\ _image_path self1 = image_path /\ _image_is_compressed self1 = cmp
      /\ _f_bmap self1 = None /\ _xml self1 = None
      /\ bmap_version self1 = VersionInt 0
      /\ mapped_percent self1 = Some (PercentInt 100)
      /\ _dest_fsync_watermark self1 = None /\ _batch_queue_len self1 = 2
      /\ _batch_bytes self1 = 1024 * 1024
      /\ _f_dest_needs_close self1 = is_path dest
      /\ _f_image_needs_close self1 = is_path image
      /\ _f_bmap_needs_close self1 = false).
    { destruct (negb cmp).
      - apply initialize_sizes_fields in Hsizes. destruct Hsizes as [_ ->].
        cbn. repeat split; reflexivity.
      - injection Hsizes as <-. cbn. repeat split; reflexivity. }
    destruct Hframe as (Hbs & Hfd & Hdp & Hfi & Hip & Hc & Hfb & Hx & Hv & Hp
                        & Hw & Hq & Hbb & Hdnc & Hinc & Hbnc).
    unfold floordiv. rewrite Hbs. cbn [Z.eqb bind].
    intros [= <-]. cbn.
    rewrite Hfd, Hdp, Hdnc, Hfi, Hip, Hc, Hinc, Hw, Hq, Hfb, Hbnc, Hx, Hv, Hp,
      Hbs, Hbb.
    repeat split; auto; try discriminate.
Qed.

(** X2.  A session built from a bmap holds exactly what the document
    declares: the version text, the block size, the two block counts, and
    the sizes derived from them ([image_size = blocks_cnt * block_size],
    [mapped_size = mapped_cnt * block_size], the mapped percentage of
    [mapped_cnt] out of [blocks_cnt], a batch of [1 MiB / block_size]
    blocks).  The block size and the blocks count are not zero, and the
    bmap file is at the position it had. *)
Theorem init_with_bmap_attributes
    (image : arg image_file) (dest : arg dest_file)
    (bmap : option (arg bmap_file)) (self : BmapCopy) :
  truthy_arg bmap = true ->
  BmapCopy_init sys image dest bmap = Ok self ->
  exists f doc hdr,
    _f_bmap self = Some (bmap_seek f (bm_pos f))
    /\ bm_parse f = Done doc
    /\ parse_header doc = Ok hdr
    /\ _xml self = Some doc
    /\ bmap_version self = VersionStr (version_text doc)
    /\ block_size self = hdr_block_size hdr
    /\ blocks_cnt self = Some (hdr_blocks_cnt hdr)
    /\ mapped_cnt self = Some (hdr_mapped_cnt hdr)
    /\ image_size self = Some (hdr_blocks_cnt hdr * hdr_block_size hdr)
    /\ mapped_size self = Some (hdr_mapped_cnt hdr * hdr_block_size hdr)
    /\ mapped_percent self
       = Some (PercentFloat (hdr_mapped_cnt hdr) (hdr_blocks_cnt hdr))
    /\ _batch_blocks self = 1024 * 1024 / hdr_block_size hdr
    /\ hdr_block_size hdr <> 0
    /\ hdr_blocks_cnt hdr <> 0.
Proof.
  intros Hbmap. unfold BmapCopy_init, BmapCopy_init_with.
  destruct (match dest with AFile _ => _ | APath _ => _ end)
    as [[[f_dest dest_path] dnc]|]; [|discriminate].
  cbn [bind].
  destruct (match image with AFile _ => _ | APath _ => _ end)
    as [[[[f_image image_path] inc] cmp]|]; [|discriminate].
  cbn [bind]. rewrite Hbmap.
  destruct (match bmap with Some _ => _ | None => _ end)
    as [[[f_bmap bmap_path] bnc]|]; [|discriminate].
  cbn [bind].
  destruct (_parse_bmap sys _) as [self1|] eqn:Hparse; [|discriminate].
  cbn [bind].
  pose proof (parse_bmap_fields _ _ Hparse)
    as (doc' & hdr' & Hxml' & Hhdr' & Hbs & Hbc & Hmc & His & _ & Hbb).
  apply parse_bmap_frame in Hparse.
  destruct Hparse as (f & doc & hdr & Hf & Hdoc & Hhdr & Hxml & Hv & Hms & Hp
                      & _ & _ & Hfb & _).
  assert (doc' = doc) by congruence. subst doc'.
  assert (hdr' = hdr) by congruence. subst hdr'.
  destruct (parse_header_fields _ _ Hhdr) as (_ & _ & _ & Hbc0).
  cbn in Hbb, Hf. injection Hf as <-.
  unfold floordiv. destruct (block_size self1 =? 0) eqn:E; [discriminate|].
  cbn [bind]. intros [= <-]. apply Z.eqb_neq in E.
  exists f_bmap, doc, hdr. cbn. rewrite Hbb, <- Hbs.
  repeat split; auto.
  - rewrite His, Hbs. reflexivity.
  - rewrite Hms, Hbs. reflexivity.
Qed.

(** X3.  [__del__] closes exactly the files [__init__] opened itself: a
    file given as a path is closed, a file-like object is left open and is
    the very object the session works on. *)
Theorem del_closes_what_init_opened
    (image : arg image_file) (dest : arg dest_file)
    (bmap : option (arg bmap_file)) (self : BmapCopy) :
  BmapCopy_init sys image dest bmap = Ok self ->
  __del__ self
  = Ok ((if is_path image then [ClosedImage (_f_image self)] else [])
        ++ (if is_path dest then [ClosedDest (_f_dest self)] else [])
        ++ (if opened_by_path bmap then
              match _f_bmap self with
              | Some f => [ClosedBmap f]
              | None => []
              end
            else []))
  /\ (forall f, image = AFile f -> _f_image self = f)
  /\ (forall f, dest = AFile f -> _f_dest self = f)
  /\ (truthy_arg bmap = false -> _f_bmap self = None).
Proof.
  intros Hinit. apply init_with_files in Hinit.
  destruct Hinit as (Hd & Hdnc & Hi & Hinc & Hb & _).
  unfold __del__. rewrite Hdnc, Hinc.
  repeat split.
  - destruct (truthy_arg bmap) eqn:Ht.
    + destruct Hb as (f & Hf & Hb). rewrite Hf.
      destruct bmap as [[f'|p]|]; [| |destruct Hb].
      * destruct Hb as [_ ->]. reflexivity.
      * destruct Hb as [_ ->]. cbn in Ht |- *. rewrite Ht. reflexivity.
    + destruct Hb as (Hf & -> & _). rewrite Hf.
      destruct bmap as [[f'|p]|]; cbn in Ht |- *; try discriminate;
        try rewrite Ht; reflexivity.
  - intros f ->. tauto.
  - intros f ->. tauto.
  - intros Ht. rewrite Ht in Hb. tauto.
Qed.

(** X4.  Without a bmap, an image handed over as a file-like object, or
    named by a [.gz] or [.bz2] path, leaves every size of the session
    unknown after [__init__], whatever the size of the file: only the
    block size of 4096, the batch of 256 blocks and the mapped percentage
    of 100 are set. *)
Theorem init_compressed_sizes_unknown
    (image : arg image_file) (dest : arg dest_file)
    (bmap : option (arg bmap_file)) (self : BmapCopy) :
  truthy_arg bmap = false ->
  match image with
  | AFile _ => True
  | APath p => endswith p ".gz" || endswith p ".bz2" = true
  end ->
  BmapCopy_init sys image dest bmap = Ok self ->
  image_size self = None
  /\ blocks_cnt self = None
  /\ mapped_cnt self = None
  /\ mapped_size self = None
  /\ block_size self = 4096
  /\ _batch_blocks self = 256
  /\ mapped_percent self = Some (PercentInt 100).
Proof.
  intros Hbmap Himage Hinit.
  pose proof (init_with_files _ _ _ _ _ Hinit) as (_ & _ & Hi & _).
  assert (Hc : _image_is_compressed self = true).
  { destruct image as [f|p]; [tauto|].
    destruct Hi as [Hopen _].
    apply open_image_file_flag in Hopen. congruence. }
  revert Hinit Hc. unfold BmapCopy_init, BmapCopy_init_with.
  destruct (match dest with AFile _ => _ | APath _ => _ end)
    as [[[f_dest dest_path] dnc]|]; [|discriminate].
  cbn [bind].
  destruct (match image with AFile _ => _ | APath _ => _ end)
    as [[[[f_image image_path] inc] cmp]|]; [|discriminate].
  cbn [bind]. rewrite Hbmap. cbn [_image_is_compressed].
  destruct cmp; cbn [negb bind].
  - unfold floordiv. cbn. intros [= <-] _. cbn. repeat split; reflexivity.
  - destruct (_initialize_sizes sys _ _) as [self1|] eqn:Hs; [|discriminate].
    apply initialize_sizes_fields in Hs. destruct Hs as [_ ->].
    cbn. unfold floordiv. cbn. intros [= <-]. cbn. discriminate.
Qed.

(* ------------------------------------------------------------------ *)
(** ** The block device constructor *)

Lemma init_image_size_human open_destination image dest bmap self v :
  BmapCopy_init_with sys open_destination image dest bmap = Ok self ->
  image_size self = Some v ->
  image_size_human self = Some (human_size sys v).
Proof.
  unfold BmapCopy_init_with.
  destruct (match dest with AFile _ => _ | APath _ => _ end)
    as [[[f_dest dest_path] dnc]|]; [|discriminate].
  cbn [bind].
  destruct (match image with AFile _ => _ | APath _ => _ end)
    as [[[[f_image image_path] inc] cmp]|]; [|discriminate].
  cbn [bind].
  destruct (truthy_arg bmap).
  - destruct (match bmap with Some _ => _ | None => _ end)
      as [[[f_bmap bmap_path] bnc]|]; [|discriminate].
    cbn [bind].
    destruct (_parse_bmap sys _) as [self1|] eqn:Hparse; [|discriminate].
    cbn [bind].
    pose proof (parse_bmap_fields _ _ Hparse)
      as (doc' & hdr' & Hxml' & Hhdr' & _ & _ & _ & His & _).
    apply parse_bmap_frame in Hparse.
    destruct Hparse as (f & doc & hdr & _ & _ & Hhdr & Hxml & _ & _ & _ & Hh
                        & _).
    assert (doc' = doc) by congruence. subst doc'.
    assert (hdr' = hdr) by congruence. subst hdr'.
    destruct (floordiv _ _); [|discriminate]. cbn [bind].
    intros [= <-]. cbn. rewrite His, Hh. intros [= <-]. reflexivity.
  - cbn [_image_is_compressed].
    destruct (negb cmp).
    + destruct (_initialize_sizes sys _ _) as [self1|] eqn:Hs; [|discriminate].
      apply initialize_sizes_fields in Hs. destruct Hs as [_ ->].
      cbn [bind]. destruct (floordiv _ _); [|discriminate]. cbn [bind].
      intros [= <-]. cbn. intros [= <-]. reflexivity.
    + cbn [bind]. destruct (floordiv _ _); [|discriminate]. cbn [bind].
      intros [= <-]. cbn. discriminate.
Qed.

(** X5.  [BmapBdevCopy.__init__] compares the capacity of the device with
    the image only when the image size is known and not zero: a device
    that cannot be measured gives the "cannot seed block device" error, a
    device smaller than the image the "will not fit" error, and both come
    before anything is written.  A device at least as large as the image
    is accepted, and so is any device when the image size is unknown or
    zero, without its capacity being looked at. *)
Theorem bdev_init_capacity_check
    (image : arg image_file) (dest : arg dest_file)
    (bmap : option (arg bmap_file)) (b : BmapCopy) :
  BmapCopy_init_with sys (Bdev_open_destination_file sys) image dest bmap
  = Ok b ->
  match image_size b with
  | Some v =>
      if v =? 0 then bdev_accepts sys image dest bmap b
      else
        match os_lseek_end sys (_f_dest b) with
        | Failed m =>
            BmapBdevCopy_init sys image dest bmap
            = Raise (cannot_seek_bdev (_dest_path b) m)
        | Done size =>
            if size <? v then
              BmapBdevCopy_init sys image dest bmap
              = Raise (does_not_fit (_image_path b) (human_size sys v)
                         (_dest_path b) (human_size sys size))
            else bdev_accepts sys image dest bmap b
        end
  | None => bdev_accepts sys image dest bmap b
  end.
Proof.
  intros Hinit.
  pose proof (init_with_files _ _ _ _ _ Hinit)
    as (_ & _ & _ & _ & _ & _ & _ & _ & Hbs & _).
  pose proof (fun v => init_image_size_human _ _ _ _ _ v Hinit) as Hhuman.
  unfold bdev_accepts, BmapBdevCopy_init. rewrite Hinit. cbn [bind].
  unfold floordiv.
  destruct (block_size b =? 0) eqn:E; [apply Z.eqb_eq in E; tauto|].
  cbn [bind image_size set_batching _f_dest _dest_path _image_path
         image_size_human set_files _f_image _f_bmap].
  destruct (image_size b) as [v|] eqn:Hsize.
  - specialize (Hhuman v eq_refl). rewrite Hhuman.
    cbn [truthy_int]. destruct (v =? 0) eqn:Hv; cbn [negb].
    + cbn [bind]. destruct (os_rdev sys _) as [v_major v_minor].
      eexists. split; [reflexivity|]. cbn. rewrite Hsize.
      repeat split; reflexivity.
    + destruct (os_lseek_end sys (_f_dest b)) as [size|m];
        cbn [os rescue on_OSError bind]; [|reflexivity].
      destruct (size <? v); cbn [bind]; [reflexivity|].
      destruct (os_rdev sys _) as [v_major v_minor].
      eexists. split; [reflexivity|]. cbn. rewrite Hsize.
      repeat split; reflexivity.
  - cbn [truthy_int bind]. destruct (os_rdev sys _) as [v_major v_minor].
    eexists. split; [reflexivity|]. cbn. rewrite Hsize.
    repeat split; reflexivity.
Qed.

(* ------------------------------------------------------------------ *)
(** ** What tuning captures *)

(** X6.  [_tune_block_device] saves the scheduler only after it has read
    the scheduler file and written ["noop"] to it, and what it saves is
    the name in brackets; it turns to the write-buffering ratio only after
    that, and saves the ratio as soon as it has read it, whether or not
    the new ratio can be written. *)
Theorem tune_block_device_captures
    (self self1 : BmapBdevCopy) (log log1 : list sysfs_event) :
  _tune_block_device sys self log = (Ok self1, log1) ->
  (old_scheduler_value self1 <> old_scheduler_value self ->
   exists contents,
     sysfs_read sys (_sysfs_scheduler_path self) = Done contents
     /\ sysfs_write sys (_sysfs_scheduler_path self) "noop" = Done tt
     /\ old_scheduler_value self1 = scheduler_in_brackets contents)
  /\ (old_max_ratio_value self1 <> old_max_ratio_value self ->
      exists contents v ratio,
        sysfs_read sys (_sysfs_scheduler_path self) = Done contents
        /\ sysfs_write sys (_sysfs_scheduler_path self) "noop" = Done tt
        /\ scheduler_in_brackets contents = Some v
        /\ old_scheduler_value self1 = Some v
        /\ sysfs_read sys (_sysfs_max_ratio_path self) = Done ratio
        /\ old_max_ratio_value self1 = Some ratio)
  /\ (forall contents v ratio,
        sysfs_open sys (_sysfs_scheduler_path self) "r+" = Done tt ->
        sysfs_read sys (_sysfs_scheduler_path self) = Done contents ->
        sysfs_write sys (_sysfs_scheduler_path self) "noop" = Done tt ->
        scheduler_in_brackets contents = Some v ->
        sysfs_open sys (_sysfs_max_ratio_path self) "r+" = Done tt ->
        sysfs_read sys (_sysfs_max_ratio_path self) = Done ratio ->
        old_scheduler_value self1 = Some v
        /\ old_max_ratio_value self1 = Some ratio).
Proof.
  unfold _tune_block_device.
  destruct (sysfs_open sys (_sysfs_scheduler_path self) "r+") as [[]|];
    [|intros [= <- _]; repeat split; try tauto; discriminate].
  destruct (sysfs_read sys (_sysfs_scheduler_path self)) as [contents|];
    [|intros [= <- _]; repeat split; try tauto; discriminate].
  destruct (sysfs_write sys (_sysfs_scheduler_path self) "noop") as [[]|];
    [|intros [= <- _]; repeat split; try tauto; discriminate].
  destruct (scheduler_in_brackets contents) as [v|] eqn:Hv; [|discriminate].
  cbn [_sysfs_max_ratio_path with_old_scheduler_value].
  destruct (sysfs_open sys (_sysfs_max_ratio_path self) "r+") as [[]|].
  - destruct (sysfs_read sys (_sysfs_max_ratio_path self)) as [ratio|].
    + assert (Hboth : forall s,
                s = with_old_max_ratio_value
                      (with_old_scheduler_value self v) ratio ->
                old_scheduler_value s = Some v
                /\ old_max_ratio_value s = Some ratio)
        by (intros s ->; auto).
      destruct (sysfs_write sys (_sysfs_max_ratio_path self) "1") as [[]|];
        intros [= <- _]; destruct (Hboth _ eq_refl) as [Hs Hr];
        rewrite Hs, Hr; (split; [|split]);
        solve [ intros _; exists contents; rewrite Hv; auto
              | intros _; exists contents, v, ratio; repeat split; auto
              | intros c v' r' _ [= <-] _ Hv' _ [= <-]; split; congruence ].
    + intros [= <- _]. cbn. split; [|split].
      * intros _. exists contents. rewrite Hv. auto.
      * tauto.
      * intros; discriminate.
  - intros [= <- _]. cbn. split; [|split].
    + intros _. exists contents. rewrite Hv. auto.
    + tauto.
    + intros; discriminate.
Qed.

(** X7.  When every sysfs operation succeeds and the copy fails,
    [BmapBdevCopy.copy] writes back what tuning read: the scheduler name
    that stood in brackets and the former ratio, each once, after the six
    events of tuning, and the error of the copy is the one raised. *)
Theorem bdev_copy_failure_restores_what_was_read
    (fuel : nat) (self : BmapBdevCopy) (do_sync verify : bool)
    (log : list sysfs_event) (contents v ratio : string) (e : exn) :
  (forall path mode, sysfs_open sys path mode = Done tt) ->
  (forall path data, sysfs_write sys path data = Done tt) ->
  sysfs_read sys (_sysfs_scheduler_path self) = Done contents ->
  scheduler_in_brackets contents = Some v ->
  sysfs_read sys (_sysfs_max_ratio_path self) = Done ratio ->
  BmapCopy_copy sys fuel (base self) do_sync verify = Some (Raise e) ->
  BmapBdevCopy_copy sys fuel self do_sync verify log
  = (Some (Raise e),
     log
     ++ [SysOpen (_sysfs_scheduler_path self) "r+";
         SysRead (_sysfs_scheduler_path self);
         SysWrite (_sysfs_scheduler_path self) "noop";
         SysOpen (_sysfs_max_ratio_path self) "r+";
         SysRead (_sysfs_max_ratio_path self);
         SysWrite (_sysfs_max_ratio_path self) "1";
         SysOpen (_sysfs_scheduler_path self) "w";
         SysWrite (_sysfs_scheduler_path self) v;
         SysOpen (_sysfs_max_ratio_path self) "w";
         SysWrite (_sysfs_max_ratio_path self) ratio]).
Proof.
  intros Hopen Hwrite Hsched Hv Hratio Hcopy.
  unfold BmapBdevCopy_copy, _tune_block_device.
  rewrite !Hopen, Hsched, !Hwrite, Hv.
  cbn [_sysfs_max_ratio_path with_old_scheduler_value].
  rewrite !Hopen, Hratio, !Hwrite.
  cbn [base with_old_max_ratio_value with_old_scheduler_value].
  rewrite Hcopy. unfold restore_and_reraise, _restore_bdev_settings.
  cbn [old_scheduler_value old_max_ratio_value with_old_max_ratio_value
         with_old_scheduler_value _sysfs_scheduler_path
         _sysfs_max_ratio_path].
  rewrite !Hopen, !Hwrite. rewrite <- !app_assoc. reflexivity.
Qed.

(* ------------------------------------------------------------------ *)
(** ** The range iterator without a bmap *)

Lemma endless_ranges_never_stop self fuel first :
  to_list fuel (_get_block_ranges_next self) (RangesForever first) = None.
Proof.
  revert first. induction fuel as [|fuel IH]; intros first; [reflexivity|].
  cbn [to_list _get_block_ranges_next]. rewrite IH. reflexivity.
Qed.

Lemma endless_ranges_take self n first :
  take n (_get_block_ranges_next self) (RangesForever first)
  = Ok (map (endless_range (_batch_blocks self) first) (seq 0 n)).
Proof.
  revert first. induction n as [|n IH]; intros first; [reflexivity|].
  cbn [take _get_block_ranges_next]. rewrite IH. cbn [bind seq map].
  f_equal. f_equal.
  - unfold endless_range. cbn. f_equal. f_equal; lia.
  - rewrite <- seq_shift, map_map. apply map_ext. intros k.
    unfold endless_range. f_equal. f_equal; lia.
Qed.

(** X8.  Without a bmap the range iterator has two behaviours.  When the
    number of blocks is known and not zero it yields the single range
    [0 .. blocks_cnt - 1] without a checksum and stops.  When it is
    unknown or zero it never stops: its [k]-th range is the [k]-th run of
    [_batch_blocks] blocks, without a checksum. *)
Theorem block_ranges_without_bmap (self : BmapCopy) :
  _f_bmap self = None ->
  (forall cnt fuel,
     blocks_cnt self = Some cnt ->
     cnt <> 0 ->
     (2 <= fuel)%nat ->
     _get_block_ranges fuel self = Some (Ok [(0, cnt - 1, None)]))
  /\ (truthy_int (blocks_cnt self) = false ->
      (forall fuel, _get_block_ranges fuel self = None)
      /\ (forall n,
            take n (_get_block_ranges_next self) RangesStart
            = Ok (map (endless_range (_batch_blocks self) 0) (seq 0 n)))).
Proof.
  intros Hbmap. split.
  - intros cnt fuel Hcnt Hnz Hfuel. unfold _get_block_ranges.
    destruct fuel as [|[|fuel]]; [lia|lia|].
    cbn [to_list _get_block_ranges_next]. rewrite Hbmap, Hcnt.
    apply Z.eqb_neq in Hnz. rewrite Hnz. reflexivity.
  - intros Hunknown.
    assert (Hstart : _get_block_ranges_next self RangesStart
                     = Ok (Some ((0, 0 + _batch_blocks self - 1, None),
                                 RangesForever (0 + _batch_blocks self)))).
    { cbn [_get_block_ranges_next]. rewrite Hbmap.
      destruct (blocks_cnt self) as [cnt|]; [|reflexivity].
      cbn in Hunknown. rewrite Hunknown. reflexivity. }
    split.
    + intros [|fuel]; [reflexivity|]. unfold _get_block_ranges.
      cbn [to_list]. rewrite Hstart, endless_ranges_never_stop. reflexivity.
    + intros [|n]; [reflexivity|].
      cbn [take]. rewrite Hstart, endless_ranges_take. cbn [bind seq map].
      f_equal. f_equal.
      rewrite <- seq_shift, map_map. apply map_ext. intros k.
      unfold endless_range. f_equal. f_equal; lia.
Qed.

(* ------------------------------------------------------------------ *)
(** ** A block size above the batch size *)

(** X9.  A bmap whose [BlockSize] is above 1 MiB gives a batch of zero
    blocks.  The first batch of the first range then asks the image for
    zero bytes, the reader takes the empty answer for the end of the
    image and puts the end-of-stream marker alone; [copy] writes nothing
    and, unless the bmap declares zero mapped blocks, fails with the
    "wrote 0 blocks" error. *)
Theorem oversized_block_size_copies_nothing
    (image : arg image_file) (dest : arg dest_file)
    (bmap : option (arg bmap_file)) (self : BmapCopy) (doc : xml_doc)
    (r : xml_range) (rest : list xml_range) (first last : Z)
    (sha1 : option string) (fuel : nat) (do_sync verify : bool) :
  truthy_arg bmap = true ->
  BmapCopy_init sys image dest bmap = Ok self ->
  1024 * 1024 < block_size self ->
  _xml self = Some doc ->
  xml_BlockMap doc = Some (r :: rest) ->
  parse_range r = Ok (first, last, sha1) ->
  im_read_error (_f_image self) (first * block_size self) = None ->
  (1 <= fuel)%nat ->
  _batch_blocks self = 0
  /\ rd_queue (ctl_state (_get_data sys fuel self verify (reader0 self)))
     = [QNone]
  /\ forall m,
       mapped_cnt self = Some m ->
       m <> 0 ->
       BmapCopy_copy sys fuel self do_sync verify
       = Some (Raise (size_mismatch 0 m)).
Proof.
  intros Hbmap Hinit Hbig Hxml Hmap Hrange Hread Hfuel.
  destruct (init_with_bmap_fields _ _ _ _ _ Hbmap Hinit)
    as (doc' & hdr & Hxml' & Hhdr & Hbs & Hbs0 & Hbc & Hmc & His & Hfb & Hbb).
  destruct (parse_header_fields _ _ Hhdr) as (_ & _ & _ & Hbc0).
  assert (Hzero : _batch_blocks self = 0).
  { rewrite Hbb, <- Hbs. apply Z.div_small. lia. }
  destruct (parse_range_ordered _ _ _ _ Hrange) as [Hle _].
  assert (Hrun : exists f,
            _get_data sys fuel self verify (reader0 self)
            = Return {| rd_image := f; rd_queue := [QNone] |}).
  { unfold _get_data. destruct fuel as [|k]; [lia|].
    rewrite for_in_S. cbn [_get_block_ranges_next].
    destruct (_f_bmap self) as [fb|]; [|congruence].
    rewrite Hxml, Hmap. cbn [ranges_xml_next]. rewrite Hrange. cbn [bind].
    unfold read_range. rewrite for_in_S. cbn [_get_batches_next].
    rewrite Hzero.
    destruct (first + 0 - 1 <=? last) eqn:E; [|apply Z.leb_gt in E; lia].
    unfold read_batch, image_read.
    cbn [rd_image with_image reader0 image_seek im_pos im_read_error im_data].
    rewrite Hread. cbn [rescue]. change (0 * block_size self) with 0.
    cbn [Z.ltb Z.compare Z.to_nat firstn]. eexists. reflexivity. }
  destruct Hrun as [f Hrun].
  split; [assumption|]. split; [rewrite Hrun; reflexivity|].
  intros m Hm Hnz. rewrite copy_unfold, Hrun. cbv zeta.
  cbn [ctl_state rd_queue rd_image write_batches].
  unfold finish_copy. cbn [image_size set_files]. rewrite His.
  rewrite (truthy_product _ _ Hbc0 Hbs0).
  cbn [negb bind mapped_cnt set_files writer0 blocks_written]. rewrite Hm.
  destruct (0 =? m) eqn:E; [apply Z.eqb_eq in E; congruence|]. reflexivity.
Qed.

(* ------------------------------------------------------------------ *)
(** ** The sizes of an image whose size was unknown *)

Lemma finish_copy_unknown self do_sync image_pos dest_pos bmap_pos f w :
  truthy_int (image_size self) = false ->
  0 < block_size self ->
  finish_copy sys self do_sync image_pos dest_pos bmap_pos f w
  = (let size := blocks_written w * block_size self in
     let self1 :=
       set_sizes (set_files self f (wr_dest w) (_f_bmap self))
         size (human_size sys size) (blocks_written w)
         (blocks_written w) size (human_size sys size) in
     f_dest <- rescue (dest_flush (_f_dest self1))
                 (on_IOError (cannot_flush (_dest_path self1))) ;;
     let self2 := set_files self1 (_f_image self1) f_dest
                    (_f_bmap self1) in
     self3 <- (if do_sync then sync self2 else Ok self2) ;;
     Ok (set_files self3
           (image_seek (_f_image self3) image_pos)
           (dest_seek (_f_dest self3) dest_pos)
           match _f_bmap self3, bmap_pos with
           | Some f, Some pos => Some (bmap_seek f pos)
           | other, _ => other
           end)).
Proof.
  intros Hsize Hbs. unfold finish_copy. cbn [image_size set_files].
  rewrite Hsize. cbn [negb]. unfold _initialize_sizes, floordiv.
  cbn [block_size set_files].
  destruct (block_size self =? 0) eqn:E; [apply Z.eqb_eq in E; lia|].
  rewrite ceil_blocks by assumption.
  cbn [bind mapped_cnt set_sizes]. rewrite Z.eqb_refl. reflexivity.
Qed.

Lemma finish_copy_unknown_sizes
    self do_sync image_pos dest_pos bmap_pos f w self' :
  truthy_int (image_size self) = false ->
  0 < block_size self ->
  finish_copy sys self do_sync image_pos dest_pos bmap_pos f w = Ok self' ->
  image_size self' = Some (blocks_written w * block_size self)
  /\ mapped_size self' = Some (blocks_written w * block_size self)
  /\ blocks_cnt self' = Some (blocks_written w)
  /\ mapped_cnt self' = Some (blocks_written w)
  /\ image_size_human self'
     = Some (human_size sys (blocks_written w * block_size self))
  /\ block_size self' = block_size self.
Proof.
  intros Hsize Hbs. rewrite finish_copy_unknown by assumption. cbv zeta.
  destruct (rescue (dest_flush _) _) as [f_dest|]; [|discriminate].
  cbn [bind].
  destruct do_sync.
  - unfold sync. destruct (sync_dest _ _) as [f_dest'|]; [|discriminate].
    cbn [bind]. intros [= <-]. cbn. repeat split; reflexivity.
  - intros [= <-]. cbn. repeat split; reflexivity.
Qed.

Lemma finish_copy_unknown_run self do_sync image_pos dest_pos bmap_pos f w :
  truthy_int (image_size self) = false ->
  0 < block_size self ->
  healthy (wr_dest w) ->
  exists self',
    finish_copy sys self do_sync image_pos dest_pos bmap_pos f w = Ok self'.
Proof.
  intros Hsize Hbs (Hw & Hfl & Hfs).
  rewrite finish_copy_unknown by assumption. cbv zeta.
  unfold dest_flush. cbn [_f_dest set_sizes set_files]. rewrite Hfl.
  cbn [rescue bind].
  destruct do_sync; [|eexists; reflexivity].
  unfold sync, sync_dest, os_fsync.
  cbn [_f_dest set_files d_log dest_with d_fsync_error _dest_path].
  rewrite Hfs. cbn [rescue bind]. eexists. reflexivity.
Qed.

(** X10.  When the image size is unknown (or zero) as [copy] starts and
    the loop ends at the end-of-stream marker, the sizes are taken from
    what was written: [blocks_cnt] and [mapped_cnt] become the number of
    blocks written and [image_size] and [mapped_size] that number times
    the block size, that is the bytes read rounded up to whole blocks.
    The comparison with [mapped_cnt] then cannot fail: on a destination
    that flushes and synchronises, [copy] returns normally whatever was
    written. *)
Theorem copy_finalizes_unknown_sizes
    (self : BmapCopy) (fuel : nat) (do_sync verify : bool) (w : writer) :
  truthy_int (image_size self) = false ->
  0 < block_size self ->
  write_batches self
    (rd_queue (ctl_state (_get_data sys fuel self verify (reader0 self))))
    (writer0 self) = Finished w ->
  let size := blocks_written w * block_size self in
  (forall self',
     BmapCopy_copy sys fuel self do_sync verify = Some (Ok self') ->
     image_size self' = Some size
     /\ mapped_size self' = Some size
     /\ blocks_cnt self' = Some (blocks_written w)
     /\ mapped_cnt self' = Some (blocks_written w)
     /\ image_size_human self' = Some (human_size sys size)
     /\ block_size self' = block_size self)
  /\ (healthy (wr_dest w) ->
      exists self',
        BmapCopy_copy sys fuel self do_sync verify = Some (Ok self')).
Proof.
  intros Hsize Hbs Hloop size. rewrite copy_unfold. cbv zeta.
  rewrite Hloop. split.
  - intros self' [= H].
    eapply finish_copy_unknown_sizes; eauto.
  - intros Hh.
    destruct (finish_copy_unknown_run self do_sync (im_pos (_f_image self))
                (d_pos (_f_dest self)) (option_map bm_pos (_f_bmap self))
                (rd_image (ctl_state (_get_data sys fuel self verify
                                        (reader0 self)))) w Hsize Hbs Hh)
      as (self' & H).
    exists self'. now rewrite H.
Qed.

(* ------------------------------------------------------------------ *)
(** ** The assertion of [copy] *)

Lemma for_in_keeps {I A S : Type} (Inv : S -> Prop) (next : step I A)
    (body : A -> S -> ctl S) :
  (forall it e, next it = Raise e -> e <> AssertionError) ->
  (forall a s, Inv s -> keeps Inv (body a s)) ->
  forall fuel it s, Inv s -> keeps Inv (for_in fuel next body it s).
Proof.
  intros Hnext Hbody. induction fuel as [|fuel IH]; intros it s Hs;
    [exact Hs|].
  rewrite for_in_S. destruct (next it) as [[[a it']|]|e] eqn:E.
  - specialize (Hbody a s Hs).
    destruct (body a s) as [s'|s'|e s'|s']; cbn [keeps] in Hbody |- *;
      auto.
  - exact Hs.
  - split; [eapply Hnext; eauto | exact Hs].
Qed.

Lemma ceil_bounds n bs :
  0 < bs -> 0 < n ->
  0 < (n + bs - 1) / bs
  /\ ((n + bs - 1) / bs - 1) * bs < n
  /\ n <= (n + bs - 1) / bs * bs.
Proof.
  intros Hbs Hn.
  pose proof (Z.div_mod (n + bs - 1) bs ltac:(lia)) as Hdiv.
  pose proof (Z.mod_pos_bound (n + bs - 1) bs Hbs) as Hmod.
  nia.
Qed.

Lemma parse_range_never_asserts r e :
  parse_range r = Raise e -> e <> AssertionError.
Proof.
  unfold parse_range, text_strip, bad_range.
  destruct (range_text r); cbn [bind]; [|intros [= <-]; discriminate].
  destruct (map strip _) as [|a [|b l]]; [intros [= <-]; discriminate| |].
  - destruct (int a) eqn:Ha; cbn [bind]; [discriminate|].
    intros [= <-]. apply int_raises in Ha. subst. discriminate.
  - destruct (int a) eqn:Ha; cbn [bind];
      [|intros [= <-]; apply int_raises in Ha; subst; discriminate].
    destruct (int b) eqn:Hb; cbn [bind];
      [|intros [= <-]; apply int_raises in Hb; subst; discriminate].
    destruct (_ >? _); [intros [= <-]; discriminate | discriminate].
Qed.

Lemma get_block_ranges_next_never_asserts self it e :
  _get_block_ranges_next self it = Raise e -> e <> AssertionError.
Proof.
  assert (Hxml : forall rest, ranges_xml_next rest = Raise e ->
                              e <> AssertionError).
  { intros [|r rest]; cbn; [discriminate|].
    destruct (parse_range r) eqn:Hp; cbn; [discriminate|].
    intros [= <-]. eapply parse_range_never_asserts; eauto. }
  destruct it as [|first|rest|]; cbn;
    [|discriminate|apply Hxml|discriminate].
  destruct (_f_bmap self).
  - destruct (_xml self) as [doc|]; [|intros [= <-]; discriminate].
    destruct (xml_BlockMap doc); [apply Hxml|intros [= <-]; discriminate].
  - destruct (blocks_cnt self) as [cnt|]; [|discriminate].
    destruct (negb _); discriminate.
Qed.

Lemma get_batches_next_never_raises batch_blocks last it e :
  _get_batches_next batch_blocks last it <> Raise e.
Proof.
  destruct it as [first|]; cbn; [|discriminate].
  destruct (_ <=? _); [discriminate|]. destruct (_ =? 0); discriminate.
Qed.

Lemma Forall_put (P : qitem -> Prop) item rd :
  Forall P (rd_queue rd) -> P item -> Forall P (rd_queue (put item rd)).
Proof.
  intros Hq Hitem. unfold put. cbn [rd_queue].
  apply Forall_app. split; [assumption|]. constructor; auto.
Qed.

Lemma read_batch_keeps self verify sha1 b st :
  0 < block_size self ->
  Forall (well_formed self) (rd_queue (fst st)) ->
  keeps (fun s => Forall (well_formed self) (rd_queue (fst s)))
    (read_batch self verify sha1 b st).
Proof.
  intros Hbs Hq. destruct b as [[start end_] length]. destruct st as [rd hashed].
  cbn [fst] in Hq. unfold read_batch, image_read, read_error.
  destruct (im_read_error _ _) as [msg|]; cbn [rescue on_IOError keeps fst].
  { split; [discriminate | assumption]. }
  match goal with
  | |- context [match ?b with [] => _ | _ :: _ => _ end] =>
      destruct b as [|x buf] eqn:Hbuf
  end.
  - cbn [keeps fst]. apply Forall_put; [assumption | exact I].
  - unfold floordiv.
    destruct (block_size self =? 0) eqn:E; [apply Z.eqb_eq in E; lia|].
    cbn [keeps fst]. apply Forall_put; [assumption|].
    cbn [well_formed].
    pose proof (ceil_bounds (Z.of_nat (List.length (x :: buf)))
                  (block_size self) Hbs) as Hc.
    cbn [List.length] in Hc |- *.
    split; [reflexivity|]. apply Hc. lia.
Qed.

Lemma read_range_keeps fuel self verify t rd :
  0 < block_size self ->
  Forall (well_formed self) (rd_queue rd) ->
  keeps (fun rd => Forall (well_formed self) (rd_queue rd))
    (read_range sys fuel self verify t rd).
Proof.
  intros Hbs Hq. destruct t as [[first last] sha1]. unfold read_range.
  pose proof
    (for_in_keeps
       (fun s : reader * list byte =>
          Forall (well_formed self) (rd_queue (fst s)))
       (_get_batches_next (_batch_blocks self) last)
       (read_batch self verify sha1)
       (fun it e H => False_ind _
                        (get_batches_next_never_raises _ _ _ _ H))
       (fun a s => read_batch_keeps self verify sha1 a s Hbs)
       fuel (BatchesLoop first)
       (with_image rd (image_seek (rd_image rd) (first * block_size self)),
        []) Hq) as Hloop.
  destruct (for_in fuel _ _ _ _) as [[rd' h]|[rd' h]|e [rd' h]|[rd' h]];
    cbn [keeps fst] in Hloop |- *; try assumption.
  destruct sha1 as [digest|]; [|exact Hloop].
  destruct (_ && _); cbn [keeps]; [|exact Hloop].
  split; [discriminate | exact Hloop].
Qed.

Lemma get_data_well_formed fuel self verify :
  0 < block_size self ->
  Forall (well_formed self)
    (rd_queue (ctl_state (_get_data sys fuel self verify (reader0 self))))
  /\ forall e rd,
       _get_data sys fuel self verify (reader0 self) = Throw e rd ->
       e <> AssertionError.
Proof.
  intros Hbs. unfold _get_data.
  pose proof
    (for_in_keeps
       (fun rd : reader => Forall (well_formed self) (rd_queue rd))
       (_get_block_ranges_next self) (read_range sys fuel self verify)
       (get_block_ranges_next_never_asserts self)
       (fun t rd => read_range_keeps fuel self verify t rd Hbs)
       fuel RangesStart (reader0 self) (Forall_nil _)) as Hloop.
  destruct (for_in fuel _ _ _ _) as [rd|rd|e rd|rd];
    cbn [keeps] in Hloop; cbn [ctl_state].
  - split; [apply Forall_put; [assumption | exact I] | discriminate].
  - split; [assumption | discriminate].
  - destruct Hloop as [He Hq].
    destruct (is_Exception e); cbn [ctl_state].
    + split; [|discriminate].
      apply Forall_put; [apply Forall_put; assumption | exact I].
    + split; [assumption | congruence].
  - split; [assumption | discriminate].
Qed.

Lemma write_batch_never_asserts self start end_ length buf w :
  Z.of_nat (List.length buf) <= length * block_size self ->
  write_batch self start end_ length buf w <> Raise AssertionError.
Proof.
  intros Hlen H. unfold write_batch in H.
  destruct (negb _) eqn:E.
  { apply negb_true_iff, Z.leb_gt in E. lia. }
  split_bind H.
  - repeat match type of H with
           | match ?x with _ => _ end = _ => destruct x
           | (if ?c then _ else _) = _ => destruct c
           end; try discriminate.
    split_bind H; [|discriminate].
    apply sync_dest_raises in H. destruct H as (m & _ & H). discriminate.
  - destruct a as [f_dest v]. split_bind H; [|discriminate].
    unfold dest_write in H.
    destruct (d_write_error f_dest (d_pos f_dest)); cbn in H; discriminate.
Qed.

Lemma write_batches_never_asserts self queue :
  Forall (well_formed self) queue ->
  forall w, write_batches self queue w <> Aborted AssertionError.
Proof.
  induction 1 as [|item queue Hitem Hq IH]; intros w; cbn [write_batches];
    [discriminate|].
  destruct item as [start end_ length buf|e|]; cbn [well_formed] in Hitem.
  - destruct (write_batch self start end_ length buf w) as [w'|e] eqn:E;
      [apply IH|].
    intros [= ->]. revert E. apply write_batch_never_asserts. tauto.
  - congruence.
  - discriminate.
Qed.

Lemma finish_copy_never_asserts self do_sync image_pos dest_pos bmap_pos f w :
  finish_copy sys self do_sync image_pos dest_pos bmap_pos f w
  <> Raise AssertionError.
Proof.
  unfold finish_copy. intros H.
  split_bind H.
  { destruct (negb _); [|discriminate].
    unfold _initialize_sizes in H. split_bind H; [|discriminate].
    apply floordiv_raises in H. discriminate. }
  destruct (mapped_cnt a); [|discriminate].
  destruct (negb (_ =? _)); [discriminate|].
  split_bind H.
  { unfold dest_flush in H.
    destruct (d_flush_error _ _); cbn in H; discriminate. }
  split_bind H; [|discriminate].
  destruct do_sync; [|discriminate].
  unfold sync in H. split_bind H; [|discriminate].
  apply sync_dest_raises in H. destruct H as (m & _ & H). discriminate.
Qed.

(** X11.  With a positive block size, every data item the reader thread
    puts on the queue has [end = start + length - 1], a positive
    [length], and a buffer that ends inside its last block, so its
    length is at most [length * block_size]; hence the assertion in the
    loop of [copy] never fails: [copy] does not raise [AssertionError],
    whatever the image, the bmap and the destination do. *)
Theorem copy_assertion_never_fails
    (self : BmapCopy) (fuel : nat) (do_sync verify : bool) :
  0 < block_size self ->
  Forall (well_formed self)
    (rd_queue (ctl_state (_get_data sys fuel self verify (reader0 self))))
  /\ BmapCopy_copy sys fuel self do_sync verify
     <> Some (Raise AssertionError).
Proof.
  intros Hbs.
  destruct (get_data_well_formed fuel self verify Hbs) as [Hq _].
  split; [exact Hq|].
  rewrite copy_unfold. cbv zeta.
  pose proof (write_batches_never_asserts self _ Hq (writer0 self)) as Hw.
  destruct (write_batches self _ (writer0 self)) as [w|e|w];
    [|congruence|discriminate].
  intros [= H]. revert H. apply finish_copy_never_asserts.
Qed.

(* ------------------------------------------------------------------ *)
(** ** What [copy] does to the destination *)

Lemma written_app log1 log2 :
  written (log1 ++ log2) = written log1 ++ written log2.
Proof.
  induction log1 as [|[pos buf| |] log1 IH]; cbn; [reflexivity| |assumption
                                                  |assumption].
  now rewrite IH.
Qed.

(** One pass of the loop body: an [os.fsync] when it is due, then the
    write. *)
Lemma write_batch_log self start end_ length buf w w' :
  write_batch self start end_ length buf w = Ok w' ->
  Z.of_nat (List.length buf) <= length * block_size self
  /\ blocks_written w' = blocks_written w + length
  /\ d_write_error (wr_dest w') = d_write_error (wr_dest w)
  /\ d_flush_error (wr_dest w') = d_flush_error (wr_dest w)
  /\ d_fsync_error (wr_dest w') = d_fsync_error (wr_dest w)
  /\ ((d_log (wr_dest w')
       = d_log (wr_dest w) ++ [DestWrite (start * block_size self) buf]
       /\ fsync_last w' = fsync_last w
       /\ forall watermark,
            _dest_fsync_watermark self = Some watermark ->
            watermark <> 0 ->
            blocks_written w < fsync_last w + watermark)
      \/ (d_log (wr_dest w')
          = d_log (wr_dest w)
            ++ [DestFsync; DestWrite (start * block_size self) buf]
          /\ fsync_last w' = blocks_written w
          /\ exists watermark,
               _dest_fsync_watermark self = Some watermark
               /\ watermark <> 0
               /\ fsync_last w + watermark <= blocks_written w)).
Proof.
  unfold write_batch. destruct (negb _) eqn:E; [discriminate|].
  apply negb_false_iff, Z.leb_le in E. intros H.
  split; [exact E|].
  assert (Hwrite :
    forall f v,
      (f_dest <- rescue (dest_write f buf)
                   (on_IOError (write_error start end_ (_dest_path self))) ;;
       Ok {| wr_dest := f_dest;
             blocks_written := blocks_written w + length;
             fsync_last := v |}) = Ok w' ->
      blocks_written w' = blocks_written w + length
      /\ d_write_error (wr_dest w') = d_write_error f
      /\ d_flush_error (wr_dest w') = d_flush_error f
      /\ d_fsync_error (wr_dest w') = d_fsync_error f
      /\ d_log (wr_dest w') = d_log f ++ [DestWrite (d_pos f) buf]
      /\ fsync_last w' = v).
  { intros f v. unfold dest_write.
    destruct (d_write_error f (d_pos f)); cbn; [discriminate|].
    intros [= <-]. cbn. tauto. }
  destruct (_dest_fsync_watermark self) as [watermark|] eqn:Hwm;
    cbn [truthy_int] in H.
  - destruct (negb (watermark =? 0)) eqn:Hz.
    + apply negb_true_iff, Z.eqb_neq in Hz.
      destruct (blocks_written w >=? fsync_last w + watermark) eqn:Hdue.
      * rewrite Z.geb_le in Hdue.
        unfold sync_dest, os_fsync in H.
        cbn [dest_seek dest_with d_fsync_error d_log] in H.
        destruct (d_fsync_error (wr_dest w) (d_log (wr_dest w)));
          cbn [rescue on_OSError bind] in H; [discriminate|].
        apply Hwrite in H. cbn in H.
        destruct H as (H1 & H2 & H3 & H4 & H5 & H6).
        repeat (split; [assumption|]). right.
        split; [rewrite H5, <- app_assoc; reflexivity|].
        split; [assumption|]. exists watermark. auto.
      * rewrite Z.geb_leb in Hdue. apply Z.leb_gt in Hdue. cbn [bind] in H.
        apply Hwrite in H. cbn in H.
        destruct H as (H1 & H2 & H3 & H4 & H5 & H6).
        repeat (split; [assumption|]). left.
        split; [assumption|]. split; [assumption|].
        intros v [= <-] _. lia.
    + apply negb_false_iff, Z.eqb_eq in Hz. cbn [bind] in H.
      apply Hwrite in H. cbn in H.
      destruct H as (H1 & H2 & H3 & H4 & H5 & H6).
      repeat (split; [assumption|]). left.
      split; [assumption|]. split; [assumption|].
      intros v [= <-] Hv. lia.
  - cbn [bind] in H. apply Hwrite in H. cbn in H.
    destruct H as (H1 & H2 & H3 & H4 & H5 & H6).
    repeat (split; [assumption|]). left.
    split; [assumption|]. split; [assumption|]. discriminate.
Qed.

Lemma write_all_written self ds :
  forall w w',
    write_all self ds w = Ok w' ->
    exists mid,
      d_log (wr_dest w') = d_log (wr_dest w) ++ mid
      /\ written mid = flat_map (item_write self) ds
      /\ ~ In DestFlush mid.
Proof.
  induction ds as [|[start end_ length buf|e|] ds IH]; intros w w';
    cbn [write_all flat_map item_write app].
  - intros [= <-]. exists []. rewrite app_nil_r. cbn. auto.
  - destruct (write_batch self start end_ length buf w) as [w1|] eqn:E;
      cbn [bind]; [|discriminate].
    intros H. destruct (IH _ _ H) as (mid & Hlog & Hmid & Hfl).
    apply write_batch_log in E.
    destruct E as (_ & _ & _ & _ & _ & [(E & _)|(E & _)]);
      rewrite E, <- app_assoc in Hlog.
    + eexists. split; [exact Hlog|]. split.
      * cbn [app written]. now rewrite Hmid.
      * cbn [app In]. intros [?|?]; [discriminate|tauto].
    + eexists. split; [exact Hlog|]. split.
      * cbn [app written]. now rewrite Hmid.
      * cbn [app In]. intros [?|[?|?]]; [discriminate|discriminate|tauto].
  - apply IH.
  - apply IH.
Qed.

(** The loop of [copy] leaves at the first end-of-stream marker, after
    the data items before it. *)
Lemma write_batches_finished self queue :
  forall w w',
    write_batches self queue w = Finished w' ->
    exists ds rest,
      queue = ds ++ QNone :: rest
      /\ Forall is_data ds
      /\ write_all self ds w = Ok w'.
Proof.
  induction queue as [|[start end_ length buf|e|] queue IH]; intros w w';
    cbn [write_batches]; try discriminate.
  - destruct (write_batch self start end_ length buf w) as [w1|] eqn:E;
      [|discriminate].
    intros H. destruct (IH _ _ H) as (ds & rest & -> & Hds & Hall).
    exists (QRange start end_ length buf :: ds), rest.
    split; [reflexivity|]. split; [constructor; [exact I|assumption]|].
    cbn [write_all]. rewrite E. exact Hall.
  - intros [= <-]. exists [], queue. cbn. auto.
Qed.

(** After the loop: one [flush], then [os.fsync] when asked for. *)
Lemma finish_copy_log self do_sync image_pos dest_pos bmap_pos f w self' :
  finish_copy sys self do_sync image_pos dest_pos bmap_pos f w = Ok self' ->
  d_log (_f_dest self')
  = d_log (wr_dest w)
    ++ DestFlush :: (if do_sync then [DestFsync] else []).
Proof.
  unfold finish_copy. intros H.
  match type of H with
  | bind ?m _ = _ => destruct m as [self1|] eqn:Hinit
  end; cbn [bind] in H; [|discriminate].
  assert (Hdest : _f_dest self1 = wr_dest w).
  { destruct (negb _); [|injection Hinit as <-; reflexivity].
    unfold _initialize_sizes in Hinit.
    destruct (floordiv _ _); cbn [bind] in Hinit; [|discriminate].
    injection Hinit as <-. reflexivity. }
  destruct (mapped_cnt self1); [|discriminate].
  destruct (negb (_ =? _)); [discriminate|].
  unfold dest_flush in H. rewrite Hdest in H.
  destruct (d_flush_error (wr_dest w) (d_log (wr_dest w)));
    cbn [rescue on_IOError bind] in H; [discriminate|].
  destruct do_sync.
  - unfold sync, sync_dest, os_fsync in H.
    cbn [_f_dest set_files dest_with d_fsync_error d_log] in H.
    destruct (d_fsync_error (wr_dest w) _);
      cbn [rescue on_OSError bind] in H; [discriminate|].
    injection H as <-. cbn. now rewrite <- app_assoc.
  - cbn [bind] in H. injection H as <-. reflexivity.
Qed.

(** What a normal return of [copy] says about the run. *)
Lemma copy_ok_run fuel self do_sync verify self' :
  BmapCopy_copy sys fuel self do_sync verify = Some (Ok self') ->
  exists ds rest w,
    rd_queue (ctl_state (_get_data sys fuel self verify (reader0 self)))
    = ds ++ QNone :: rest
    /\ Forall is_data ds
    /\ write_all self ds (writer0 self) = Ok w
    /\ d_log (_f_dest self')
       = d_log (wr_dest w)
         ++ DestFlush :: (if do_sync then [DestFsync] else []).
Proof.
  rewrite copy_unfold. cbv zeta.
  destruct (write_batches self _ (writer0 self)) as [w|e|w] eqn:Hloop;
    [|discriminate|discriminate].
  intros [= H].
  destruct (write_batches_finished _ _ _ _ Hloop)
    as (ds & rest & Hq & Hds & Hall).
  exists ds, rest, w. split; [assumption|]. split; [assumption|].
  split; [assumption|]. eapply finish_copy_log; eauto.
Qed.

Lemma range_items_writes self first last sha1 :
  flat_map (item_write self) (range_items self (first, last, sha1))
  = map (batch_write self) (range_batches (_batch_blocks self) first last).
Proof.
  unfold range_items.
  induction (range_batches (_batch_blocks self) first last)
    as [|[[start end_] length] bs IH]; [reflexivity|].
  cbn [map flat_map batch_item item_write batch_write app]. now rewrite IH.
Qed.

Lemma expected_queue_writes self verify ts :
  snd (expected_queue sys self verify ts) = None ->
  flat_map (item_write self) (fst (expected_queue sys self verify ts))
  = range_writes self ts.
Proof.
  induction ts as [|[[first last] sha1] ts IH]; [reflexivity|].
  cbn [expected_queue].
  destruct (if verify then mismatch sys self (first, last, sha1) else None);
    [discriminate|].
  destruct (expected_queue sys self verify ts) as [items e].
  cbn [fst snd] in IH |- *. intros He.
  unfold range_writes. cbn [flat_map].
  rewrite flat_map_app, range_items_writes. f_equal. apply IH, He.
Qed.

(** The reader thread leaves the image of a sound input as it was, but
    for the position. *)
Lemma get_data_run_steady self ts verify fuel :
  sound_input self ts ->
  (reader_fuel self <= fuel)%nat ->
  snd (expected_queue sys self verify ts) = None ->
  exists f,
    steady self f
    /\ _get_data sys fuel self verify (reader0 self)
       = Next {| rd_image := f;
                 rd_queue := fst (expected_queue sys self verify ts)
                             ++ [QNone] |}.
Proof.
  intros [Hbs Hbb Hbmap (doc & ranges & Hxml & Hmap & Hparse) Hwithin Himg
            _ _ _ _ _] Hfuel Hnone.
  unfold reader_fuel in Hfuel.
  destruct (_f_bmap self) as [fb|] eqn:Hfb; [|congruence].
  rewrite Hxml, Hmap in Hfuel.
  assert (Hstart : for_in fuel (_get_block_ranges_next self)
                     (read_range sys fuel self verify) RangesStart
                     (reader0 self)
                   = for_in fuel (_get_block_ranges_next self)
                       (read_range sys fuel self verify) (RangesXml ranges)
                       (reader0 self)).
  { destruct fuel as [|k]; [reflexivity|].
    rewrite !for_in_S. cbn [_get_block_ranges_next].
    rewrite Hfb, Hxml, Hmap. reflexivity. }
  destruct (ranges_run self verify fuel Hbs Hbb ranges ts Hparse Hwithin
              ltac:(lia) fuel (reader0 self) ltac:(lia))
    as (f & Hf & Hrun).
  { split; [reflexivity | exact Himg]. }
  unfold _get_data. rewrite Hstart, Hrun. cbv zeta. rewrite Hnone.
  exists f. split; [exact Hf|]. reflexivity.
Qed.

(** With a known image size the statements after the loop change the
    files of the session only. *)
Lemma finish_copy_known self do_sync image_pos dest_pos bmap_pos f w self' :
  truthy_int (image_size self) = true ->
  finish_copy sys self do_sync image_pos dest_pos bmap_pos f w = Ok self' ->
  exists f_dest,
    self'
    = set_files self (image_seek f image_pos) (dest_seek f_dest dest_pos)
        match _f_bmap self, bmap_pos with
        | Some fb, Some pos => Some (bmap_seek fb pos)
        | other, _ => other
        end
    /\ d_write_error f_dest = d_write_error (wr_dest w)
    /\ d_flush_error f_dest = d_flush_error (wr_dest w)
    /\ d_fsync_error f_dest = d_fsync_error (wr_dest w).
Proof.
  intros Hsize. unfold finish_copy. cbn [image_size set_files].
  rewrite Hsize. cbn [negb bind mapped_cnt set_files].
  destruct (mapped_cnt self); [|discriminate].
  destruct (negb (_ =? _)); [discriminate|].
  unfold dest_flush. cbn [_f_dest set_files].
  destruct (d_flush_error (wr_dest w) (d_log (wr_dest w)));
    cbn [rescue on_IOError bind]; [discriminate|].
  destruct do_sync.
  - unfold sync, sync_dest, os_fsync.
    cbn [_f_dest set_files dest_with d_fsync_error d_log].
    destruct (d_fsync_error (wr_dest w) _);
      cbn [rescue on_OSError bind]; [discriminate|].
    intros [= <-]. eexists. split; [reflexivity|]. cbn. auto.
  - cbn [bind]. intros [= <-]. eexists. split; [reflexivity|]. cbn. auto.
Qed.

Lemma range_items_ext self self' t :
  im_data (_f_image self') = im_data (_f_image self) ->
  block_size self' = block_size self ->
  _batch_blocks self' = _batch_blocks self ->
  range_items self' t = range_items self t.
Proof.
  intros Hd Hbs Hbb. destruct t as [[first last] sha1]. unfold range_items.
  rewrite Hbb. apply map_ext. intros [[start end_] length].
  unfold batch_item. now rewrite Hd, Hbs.
Qed.

Lemma expected_queue_ext self self' verify ts :
  im_data (_f_image self') = im_data (_f_image self) ->
  block_size self' = block_size self ->
  _batch_blocks self' = _batch_blocks self ->
  expected_queue sys self' verify ts = expected_queue sys self verify ts.
Proof.
  intros Hd Hbs Hbb. induction ts as [|t ts IH]; [reflexivity|].
  cbn [expected_queue]. rewrite IH, (range_items_ext self self' t Hd Hbs Hbb).
  assert (Hm : mismatch sys self' t = mismatch sys self t).
  { destruct t as [[first last] sha1]. unfold mismatch, range_bytes.
    now rewrite Hd, Hbs. }
  now rewrite Hm.
Qed.

Lemma range_writes_ext self self' ts :
  im_data (_f_image self') = im_data (_f_image self) ->
  block_size self' = block_size self ->
  _batch_blocks self' = _batch_blocks self ->
  range_writes self' ts = range_writes self ts.
Proof.
  intros Hd Hbs Hbb. unfold range_writes.
  induction ts as [|[[first last] sha1] ts IH]; [reflexivity|].
  cbn [flat_map]. rewrite IH, Hbb. f_equal.
  apply map_ext. intros [[start end_] length].
  unfold batch_write. now rewrite Hd, Hbs.
Qed.

(** A copy of a sound input in which no verification fails: what is
    written, and the session it returns. *)
Lemma copy_sound_run self ts do_sync verify fuel :
  sound_input self ts ->
  (reader_fuel self <= fuel)%nat ->
  snd (expected_queue sys self verify ts) = None ->
  exists self' mid,
    BmapCopy_copy sys fuel self do_sync verify = Some (Ok self')
    /\ d_log (_f_dest self')
       = d_log (_f_dest self) ++ mid
         ++ DestFlush :: (if do_sync then [DestFsync] else [])
    /\ ~ In DestFlush mid
    /\ written mid = range_writes self ts
    /\ sound_input self' ts
    /\ reader_fuel self' = reader_fuel self
    /\ im_data (_f_image self') = im_data (_f_image self)
    /\ block_size self' = block_size self
    /\ _batch_blocks self' = _batch_blocks self.
Proof.
  intros Hsound Hfuel Hnone.
  destruct (get_data_run_steady self ts verify fuel Hsound Hfuel Hnone)
    as (f & [Hfd Hfe] & Hrun).
  pose proof Hsound as [Hbs Hbb Hbmap (doc & ranges & Hxml & Hmap & Hparse)
                          Hwithin Himg Hwr Hfl Hfs Hsize Hcnt].
  destruct (expected_queue_items self verify ts Hbs Hbb
              (parsed_ranges_ordered _ _ Hparse)) as (Hsized & Hdata & Hsum).
  destruct (write_all_run self _ Hsized (writer0 self))
    as (w & Hall & Hblocks & Hh).
  { repeat split; assumption. }
  destruct (finish_copy_run self do_sync (im_pos (_f_image self))
              (d_pos (_f_dest self)) (option_map bm_pos (_f_bmap self))
              f w) as (self' & Hfinish).
  { assumption. }
  { rewrite Hblocks, (Hsum Hnone), Hcnt. reflexivity. }
  { assumption. }
  destruct (write_all_written _ _ _ _ Hall) as (mid & Hlog & Hmid & Hnf).
  rewrite (expected_queue_writes _ _ _ Hnone) in Hmid.
  pose proof (finish_copy_log _ _ _ _ _ _ _ _ Hfinish) as Hend.
  cbn [writer0 wr_dest] in Hlog. rewrite Hlog, <- app_assoc in Hend.
  destruct (finish_copy_known _ _ _ _ _ _ _ _ Hsize Hfinish)
    as (f_dest & Hself & Hwe & Hfle & Hfse).
  destruct Hh as (Hw1 & Hw2 & Hw3).
  exists self', mid.
  split.
  { rewrite copy_unfold, Hrun. cbv zeta. cbn [ctl_state rd_queue rd_image].
    rewrite write_batches_app by assumption. rewrite Hall.
    cbn [write_batches]. now rewrite Hfinish. }
  split; [exact Hend|]. split; [exact Hnf|]. split; [exact Hmid|].
  clear Hfinish Hrun Hend.
  destruct (_f_bmap self) as [fb|] eqn:Hfb; [|congruence].
  subst self'. cbn [option_map] in *.
  split.
  { constructor; cbn [set_files block_size _batch_blocks _f_bmap _xml
                        _f_image _f_dest image_size mapped_cnt image_seek
                        dest_seek dest_with im_data im_read_error
                        d_write_error d_flush_error d_fsync_error].
    - assumption.
    - assumption.
    - discriminate.
    - exists doc, ranges. auto.
    - rewrite Hfd. assumption.
    - exact Hfe.
    - rewrite Hwe. exact Hw1.
    - rewrite Hfle. exact Hw2.
    - rewrite Hfse. exact Hw3.
    - assumption.
    - assumption. }
  split.
  { unfold reader_fuel.
    cbn [set_files _f_bmap _xml _f_image image_seek im_data _batch_blocks].
    rewrite ?Hfb, ?Hfd. reflexivity. }
  cbn [set_files _f_image image_seek im_data block_size _batch_blocks].
  auto.
Qed.

(** X12.  On a sound input, a copy in which no verification fails (in
    particular every copy without verification) returns normally, and
    what it has written to the destination is exactly, range by range
    and batch by batch in the order of the bmap, the bytes of the image
    at the offsets they have in the image: nothing is written outside
    the mapped ranges.  The writes are followed by one [flush] and, when
    [sync] is asked for, one [os.fsync], which is the last thing done to
    the destination. *)
Theorem copy_writes_mapped_ranges
    (self : BmapCopy) (ts : list triplet) (do_sync verify : bool)
    (fuel : nat) :
  sound_input self ts ->
  (reader_fuel self <= fuel)%nat ->
  snd (expected_queue sys self verify ts) = None ->
  exists self' mid,
    BmapCopy_copy sys fuel self do_sync verify = Some (Ok self')
    /\ d_log (_f_dest self')
       = d_log (_f_dest self) ++ mid
         ++ DestFlush :: (if do_sync then [DestFsync] else [])
    /\ ~ In DestFlush mid
    /\ written mid = range_writes self ts
    /\ written (d_log (_f_dest self'))
       = written (d_log (_f_dest self)) ++ range_writes self ts.
Proof.
  intros Hsound Hfuel Hnone.
  destruct (copy_sound_run self ts do_sync verify fuel Hsound Hfuel Hnone)
    as (self' & mid & Hcopy & Hlog & Hnf & Hmid & _).
  exists self', mid. repeat (split; [assumption|]).
  rewrite Hlog, !written_app, Hmid.
  destruct do_sync; cbn; now rewrite app_nil_r.
Qed.

(** X13.  A session can be copied again: after a copy of a sound input in
    which no verification failed, the session that [copy] returns is a
    sound input for the same ranges, and a second [copy] returns
    normally too, having written the same ranges once more after the
    first [flush] (and [os.fsync]). *)
Theorem copy_can_be_repeated
    (self : BmapCopy) (ts : list triplet) (do_sync verify : bool)
    (fuel : nat) :
  sound_input self ts ->
  (reader_fuel self <= fuel)%nat ->
  snd (expected_queue sys self verify ts) = None ->
  exists self' self'',
    BmapCopy_copy sys fuel self do_sync verify = Some (Ok self')
    /\ sound_input self' ts
    /\ BmapCopy_copy sys fuel self' do_sync verify = Some (Ok self'')
    /\ written (d_log (_f_dest self''))
       = written (d_log (_f_dest self))
         ++ range_writes self ts ++ range_writes self ts.
Proof.
  intros Hsound Hfuel Hnone.
  destruct (copy_sound_run self ts do_sync verify fuel Hsound Hfuel Hnone)
    as (self' & mid & Hcopy & Hlog & _ & Hmid & Hsound' & Hfuel' & Hd & Hbs
        & Hbb).
  destruct (copy_sound_run self' ts do_sync verify fuel Hsound')
    as (self'' & mid' & Hcopy' & Hlog' & _ & Hmid' & _).
  { rewrite Hfuel'. exact Hfuel. }
  { rewrite (expected_queue_ext self self' verify ts Hd Hbs Hbb).
    exact Hnone. }
  rewrite (range_writes_ext self self' ts Hd Hbs Hbb) in Hmid'.
  exists self', self''. split; [exact Hcopy|]. split; [exact Hsound'|].
  split; [exact Hcopy'|].
  rewrite Hlog', Hlog, !written_app, Hmid, Hmid'.
  destruct do_sync; cbn [written app]; rewrite ?app_nil_r, <- ?app_assoc;
    reflexivity.
Qed.

(* ------------------------------------------------------------------ *)
(** ** The synchronisation watermark *)

Lemma unsynced_snoc log ev :
  unsynced (log ++ [ev])
  = match ev with
    | DestWrite _ buf => unsynced log + Z.of_nat (List.length buf)
    | DestFsync => 0
    | DestFlush => unsynced log
    end.
Proof. unfold unsynced. rewrite fold_left_app. reflexivity. Qed.

Lemma snoc_split {A : Type} (l pre post : list A) (x y : A) :
  l ++ [x] = pre ++ y :: post ->
  (post = [] /\ pre = l /\ y = x)
  \/ exists post', post = post' ++ [x] /\ l = pre ++ y :: post'.
Proof.
  destruct post as [|z post _] using rev_ind; intros H.
  - apply app_inj_tail in H. destruct H as [-> ->]. auto.
  - right. exists post.
    change (pre ++ y :: post ++ [z]) with (pre ++ (y :: post) ++ [z]) in H.
    rewrite app_assoc in H. apply app_inj_tail in H.
    destruct H as [-> ->]. auto.
Qed.

(** The loop of [copy] keeps, between the destination's log and its own
    counters: the bytes written since the last [os.fsync] are at most
    those of the blocks counted since [fsync_last]; and every write was
    issued with less than a watermark of bytes not yet synchronised. *)
Lemma write_all_backlog self watermark log0 ds :
  0 < block_size self ->
  _dest_fsync_watermark self = Some watermark ->
  0 < watermark ->
  forall w w' mid,
    write_all self ds w = Ok w' ->
    d_log (wr_dest w) = log0 ++ mid ->
    fsync_last w <= blocks_written w ->
    unsynced mid <= (blocks_written w - fsync_last w) * block_size self ->
    (forall pre pos buf post,
       mid = pre ++ DestWrite pos buf :: post ->
       unsynced pre < watermark * block_size self) ->
    exists mid',
      d_log (wr_dest w') = log0 ++ mid'
      /\ forall pre pos buf post,
           mid' = pre ++ DestWrite pos buf :: post ->
           unsynced pre < watermark * block_size self.
Proof.
  intros Hbs Hwm Hpos.
  induction ds as [|[start end_ length buf|e|] ds IH];
    intros w w' mid; cbn [write_all]; [|
    |intros; eapply IH; eauto|intros; eapply IH; eauto].
  - intros [= <-] Hlog _ _ Hall. exists mid. auto.
  - destruct (write_batch self start end_ length buf w) as [w1|] eqn:E;
      cbn [bind]; [|discriminate].
    intros Hrest Hlog Hle Hun Hall.
    apply write_batch_log in E.
    destruct E as (Hbuf & Hbw & _ & _ & _ & Hcase).
    assert (Hlen : 0 <= length) by nia.
    destruct Hcase as [(E & Hfl & Hnot)|(E & Hfl & _)].
    + specialize (Hnot watermark Hwm ltac:(lia)).
      apply (IH w1 w' (mid ++ [DestWrite (start * block_size self) buf])
               Hrest).
      * rewrite E, Hlog, <- app_assoc. reflexivity.
      * lia.
      * rewrite unsynced_snoc, Hbw, Hfl. nia.
      * intros pre pos buf' post Hsplit. apply snoc_split in Hsplit.
        destruct Hsplit as [(_ & -> & _)|(post' & _ & ->)].
        -- nia.
        -- eapply Hall. reflexivity.
    + apply (IH w1 w'
               (mid ++ [DestFsync; DestWrite (start * block_size self) buf])
               Hrest).
      * rewrite E, Hlog, <- app_assoc. reflexivity.
      * lia.
      * change [DestFsync; DestWrite (start * block_size self) buf]
          with ([DestFsync] ++ [DestWrite (start * block_size self) buf]).
        rewrite app_assoc, unsynced_snoc, unsynced_snoc, Hbw, Hfl. nia.
      * intros pre pos buf' post Hsplit.
        change [DestFsync; DestWrite (start * block_size self) buf]
          with ([DestFsync] ++ [DestWrite (start * block_size self) buf])
          in Hsplit.
        rewrite app_assoc in Hsplit. apply snoc_split in Hsplit.
        destruct Hsplit as [(_ & -> & _)|(post' & _ & Hsplit)].
        -- rewrite unsynced_snoc. nia.
        -- apply snoc_split in Hsplit.
           destruct Hsplit as [(_ & _ & ?)|(post'' & _ & ->)];
             [discriminate|].
           eapply Hall. reflexivity.
Qed.

(** X14.  With a positive block size and a positive synchronisation
    watermark (as [BmapBdevCopy] sets it), every write of a copy that
    returns normally was issued with less than [watermark * block_size]
    bytes written since the last [os.fsync] (or since the copy began):
    the data not yet synchronised never exceeds the watermark by more
    than the one batch being written. *)
Theorem copy_syncs_at_watermark
    (self self' : BmapCopy) (watermark : Z) (fuel : nat)
    (do_sync verify : bool) :
  0 < block_size self ->
  _dest_fsync_watermark self = Some watermark ->
  0 < watermark ->
  BmapCopy_copy sys fuel self do_sync verify = Some (Ok self') ->
  exists mid,
    d_log (_f_dest self')
    = d_log (_f_dest self) ++ mid
      ++ DestFlush :: (if do_sync then [DestFsync] else [])
    /\ forall pre pos buf post,
         mid = pre ++ DestWrite pos buf :: post ->
         unsynced pre < watermark * block_size self.
Proof.
  intros Hbs Hwm Hpos Hcopy.
  destruct (copy_ok_run _ _ _ _ _ Hcopy) as (ds & rest & w & _ & _ & Hall
                                              & Hend).
  destruct (write_all_backlog self watermark (d_log (_f_dest self)) ds
              Hbs Hwm Hpos (writer0 self) w [] Hall)
    as (mid & Hlog & Hmid).
  - cbn. now rewrite app_nil_r.
  - cbn. lia.
  - cbn. lia.
  - intros [|? ?] ? ? ? ?; discriminate.
  - exists mid. split; [|exact Hmid].
    rewrite Hend, Hlog, <- app_assoc. reflexivity.
Qed.

(* ------------------------------------------------------------------ *)
(** ** Copying without a bmap *)

Lemma slice_past data pos a b :
  0 <= pos ->
  Z.of_nat (List.length data) <= pos + a ->
  Z.of_nat (List.length data) <= pos + b ->
  slice data pos a = slice data pos b.
Proof.
  intros Hpos Ha Hb. unfold slice.
  rewrite !firstn_all2; [reflexivity| |]; rewrite length_skipn; lia.
Qed.

Lemma slice_nonempty data pos len :
  0 <= pos -> pos < Z.of_nat (List.length data) -> 0 < len ->
  slice data pos len <> [].
Proof.
  intros Hpos Hin Hlen Hnil. apply (f_equal (@List.length byte)) in Hnil.
  unfold slice in Hnil. rewrite length_firstn, length_skipn in Hnil.
  cbn in Hnil. lia.
Qed.

Lemma slice_empty data pos len :
  0 <= pos -> Z.of_nat (List.length data) <= pos -> slice data pos len = [].
Proof.
  intros Hpos Hout. unfold slice. rewrite skipn_all2 by lia.
  apply firstn_nil.
Qed.

Lemma ceil_upper n bs :
  0 < bs -> n <= (n + bs - 1) / bs * bs.
Proof.
  intros Hbs.
  pose proof (Z.div_mod (n + bs - 1) bs ltac:(lia)) as Hdiv.
  pose proof (Z.mod_pos_bound (n + bs - 1) bs Hbs) as Hmod.
  nia.
Qed.

(** One [read] of the reader at the offset of the piece [k], for a batch
    that is a whole piece or reaches the end of the image. *)
Lemma read_chunk self verify k end_ length rd hashed :
  0 < block_size self ->
  0 < length <= _batch_blocks self ->
  steady self (rd_image rd) ->
  im_pos (rd_image rd) = Z.of_nat k * _batch_blocks self * block_size self ->
  Z.of_nat k * _batch_blocks self * block_size self
  < Z.of_nat (List.length (im_data (_f_image self))) ->
  (length = _batch_blocks self
   \/ Z.of_nat (List.length (im_data (_f_image self)))
      <= (Z.of_nat k * _batch_blocks self + length) * block_size self) ->
  exists f,
    steady self f
    /\ im_pos f
       = Z.of_nat k * _batch_blocks self * block_size self
         + Z.of_nat (List.length (chunk self k))
    /\ read_batch self verify None
         (Z.of_nat k * _batch_blocks self, end_, length) (rd, hashed)
       = Next (put (chunk_item self k) (with_image rd f), hashed).
Proof.
  intros Hbs Hlen [Hdata Herr] Hpos Hin Hcase.
  assert (HK : 0 <= Z.of_nat k * _batch_blocks self) by nia.
  assert (HKb : 0 <= Z.of_nat k * _batch_blocks self * block_size self)
    by nia.
  unfold read_batch, image_read. rewrite Herr, Hpos, Hdata.
  cbn [rescue].
  assert (Hneg : (length * block_size self <? 0) = false)
    by (apply Z.ltb_ge; nia).
  rewrite Hneg.
  fold (slice (im_data (_f_image self))
          (Z.of_nat k * _batch_blocks self * block_size self)
          (length * block_size self)).
  assert (Hsl : slice (im_data (_f_image self))
                  (Z.of_nat k * _batch_blocks self * block_size self)
                  (length * block_size self)
                = chunk self k).
  { unfold chunk. destruct Hcase as [->|Hend]; [reflexivity|].
    apply slice_past; [assumption|lia|nia]. }
  rewrite Hsl.
  pose proof (slice_nonempty (im_data (_f_image self))
                (Z.of_nat k * _batch_blocks self * block_size self)
                (_batch_blocks self * block_size self)
                HKb Hin ltac:(nia)) as Hne.
  fold (chunk self k) in Hne.
  unfold chunk_item.
  destruct (chunk self k) as [|b0 buf] eqn:Hbuf; [congruence|].
  rewrite andb_false_r. unfold floordiv.
  destruct (block_size self =? 0) eqn:E; [apply Z.eqb_eq in E; lia|].
  eexists. split; [|split; [|reflexivity]].
  - split; [exact Hdata | exact Herr].
  - reflexivity.
Qed.

(** The inner loop of the reader on the single range of an image of
    known size, started at the piece [k] with [m] pieces to go. *)
Lemma read_chunks_known self verify cnt :
  0 < block_size self ->
  0 < _batch_blocks self ->
  (cnt - 1) * block_size self
  < Z.of_nat (List.length (im_data (_f_image self))) ->
  Z.of_nat (List.length (im_data (_f_image self)))
  <= cnt * block_size self ->
  forall (m k fuel : nat) rd hashed,
    steady self (rd_image rd) ->
    ((0 < m)%nat ->
     im_pos (rd_image rd)
     = Z.of_nat k * _batch_blocks self * block_size self) ->
    Z.of_nat k * _batch_blocks self <= cnt ->
    Z.of_nat (List.length (im_data (_f_image self)))
    <= Z.of_nat (k + m) * _batch_blocks self * block_size self ->
    ((0 < m)%nat ->
     (Z.of_nat (k + m) - 1) * _batch_blocks self * block_size self
     < Z.of_nat (List.length (im_data (_f_image self)))) ->
    (m + 1 <= fuel)%nat ->
    exists f,
      steady self f
      /\ for_in fuel (_get_batches_next (_batch_blocks self) (cnt - 1))
           (read_batch self verify None)
           (BatchesLoop (Z.of_nat k * _batch_blocks self)) (rd, hashed)
         = Next ({| rd_image := f;
                    rd_queue :=
                      rd_queue rd ++ map (chunk_item self) (seq k m) |},
                 hashed).
Proof.
  intros Hbs Hbb Hlo Hhi.
  induction m as [|m IH]; intros k fuel rd hashed Hst Hpos Hk Hup Hlow Hfuel.
  - destruct fuel as [|fuel]; [lia|]. rewrite for_in_S.
    cbn [_get_batches_next].
    rewrite Nat.add_0_r in Hup.
    assert (Hcnt : cnt = Z.of_nat k * _batch_blocks self) by nia.
    destruct (_ <=? _) eqn:E; [apply Z.leb_le in E; lia|].
    replace (cnt - 1 - Z.of_nat k * _batch_blocks self + 1) with 0 by lia.
    cbn [Z.eqb]. exists (rd_image rd). split; [assumption|].
    cbn [map seq]. rewrite app_nil_r. destruct rd. reflexivity.
  - destruct fuel as [|fuel]; [lia|]. rewrite for_in_S.
    cbn [_get_batches_next].
    specialize (Hpos ltac:(lia)). specialize (Hlow ltac:(lia)).
    assert (HK : 0 <= Z.of_nat k * _batch_blocks self) by nia.
    assert (Hin : Z.of_nat k * _batch_blocks self * block_size self
                  < Z.of_nat (List.length (im_data (_f_image self)))).
    { rewrite Nat2Z.inj_add, Nat2Z.inj_succ in Hlow. nia. }
    destruct (_ <=? _) eqn:E.
    + apply Z.leb_le in E.
      destruct (read_chunk self verify k
                  (Z.of_nat k * _batch_blocks self + _batch_blocks self - 1)
                  (_batch_blocks self) rd hashed Hbs ltac:(lia) Hst Hpos Hin
                  ltac:(auto)) as (f & Hf & Hfpos & Hread).
      rewrite Hread.
      destruct (IH (S k) fuel (put (chunk_item self k) (with_image rd f))
                  hashed) as (f' & Hf' & Hrun).
      * exact Hf.
      * intros Hm. cbn [put with_image rd_image]. rewrite Hfpos.
        unfold chunk. rewrite slice_length; [lia|lia|nia|].
        rewrite Nat2Z.inj_add, Nat2Z.inj_succ in Hlow. nia.
      * lia.
      * replace (S k + m)%nat with (k + S m)%nat by lia. exact Hup.
      * intros Hm. replace (S k + m)%nat with (k + S m)%nat by lia.
        exact Hlow.
      * lia.
      * exists f'. split; [assumption|].
        replace (Z.of_nat k * _batch_blocks self + _batch_blocks self)
          with (Z.of_nat (S k) * _batch_blocks self) by lia.
        rewrite Hrun. cbn [put with_image rd_queue rd_image map seq].
        rewrite <- app_assoc. reflexivity.
    + apply Z.leb_gt in E.
      assert (Hm : m = 0%nat).
      { destruct m; [reflexivity|exfalso].
        rewrite Nat2Z.inj_add, !Nat2Z.inj_succ in Hlow. nia. }
      subst m.
      destruct (_ =? 0) eqn:Ez; [apply Z.eqb_eq in Ez; nia|].
      destruct (read_chunk self verify k
                  (Z.of_nat k * _batch_blocks self
                   + (cnt - 1 - Z.of_nat k * _batch_blocks self + 1) - 1)
                  (cnt - 1 - Z.of_nat k * _batch_blocks self + 1)
                  rd hashed Hbs ltac:(nia) Hst Hpos Hin
                  ltac:(right; nia)) as (f & Hf & Hfpos & Hread).
      rewrite Hread. destruct fuel as [|fuel]; [lia|]. rewrite for_in_S.
      cbn [_get_batches_next]. exists f. split; [assumption|].
      reflexivity.
Qed.

(** One endless range past the end of the image: the read returns
    nothing, the reader puts the end-of-stream marker and returns. *)
Lemma read_range_past_end self verify fuel (k : nat) rd :
  0 < block_size self ->
  0 < _batch_blocks self ->
  (1 <= fuel)%nat ->
  steady self (rd_image rd) ->
  Z.of_nat (List.length (im_data (_f_image self)))
  <= Z.of_nat k * _batch_blocks self * block_size self ->
  exists f,
    read_range sys fuel self verify
      (Z.of_nat k * _batch_blocks self,
       Z.of_nat k * _batch_blocks self + _batch_blocks self - 1, None) rd
    = Return {| rd_image := f; rd_queue := rd_queue rd ++ [QNone] |}.
Proof.
  intros Hbs Hbb Hfuel [Hdata Herr] Hup.
  destruct fuel as [|fuel]; [lia|].
  unfold read_range. rewrite for_in_S.
  cbn [_get_batches_next]. rewrite Z.leb_refl.
  assert (HK : 0 <= Z.of_nat k * _batch_blocks self) by nia.
  unfold read_batch, image_read.
  cbn [with_image image_seek rd_image im_read_error im_pos im_data].
  rewrite Herr, Hdata. cbn [rescue].
  assert (Hneg : (_batch_blocks self * block_size self <? 0) = false)
    by (apply Z.ltb_ge; nia).
  rewrite Hneg.
  fold (slice (im_data (_f_image self))
          (Z.of_nat k * _batch_blocks self * block_size self)
          (_batch_blocks self * block_size self)).
  rewrite slice_empty by nia.
  eexists. unfold put. cbn [rd_queue rd_image]. reflexivity.
Qed.

(** One endless range that starts inside the image: its piece is put on
    the queue. *)
Lemma read_range_piece self verify fuel (k : nat) rd :
  0 < block_size self ->
  0 < _batch_blocks self ->
  (2 <= fuel)%nat ->
  steady self (rd_image rd) ->
  Z.of_nat k * _batch_blocks self * block_size self
  < Z.of_nat (List.length (im_data (_f_image self))) ->
  exists f,
    steady self f
    /\ read_range sys fuel self verify
         (Z.of_nat k * _batch_blocks self,
          Z.of_nat k * _batch_blocks self + _batch_blocks self - 1, None) rd
       = Next {| rd_image := f;
                 rd_queue := rd_queue rd ++ [chunk_item self k] |}.
Proof.
  intros Hbs Hbb Hfuel Hst Hin.
  destruct fuel as [|[|fuel]]; [lia|lia|].
  unfold read_range. rewrite for_in_S.
  cbn [_get_batches_next]. rewrite Z.leb_refl.
  destruct (read_chunk self verify k
              (Z.of_nat k * _batch_blocks self + _batch_blocks self - 1)
              (_batch_blocks self)
              (with_image rd
                 (image_seek (rd_image rd)
                    (Z.of_nat k * _batch_blocks self * block_size self)))
              [] Hbs ltac:(lia)) as (f & Hf & _ & Hread).
  { apply steady_seek. exact Hst. }
  { reflexivity. }
  { exact Hin. }
  { auto. }
  rewrite Hread, for_in_S. cbn [_get_batches_next].
  destruct (_ <=? _) eqn:E; [apply Z.leb_le in E; lia|].
  replace (Z.of_nat k * _batch_blocks self + _batch_blocks self - 1
           - (Z.of_nat k * _batch_blocks self + _batch_blocks self) + 1)
    with 0 by lia.
  cbn [Z.eqb]. exists f. split; [assumption|]. reflexivity.
Qed.

(** The outer loop of the reader on the endless ranges of an image of
    unknown size, started at the piece [k] with [m] pieces to go: the
    read after the last piece returns nothing and ends the thread. *)
Lemma read_chunks_endless self verify fuel :
  0 < block_size self ->
  0 < _batch_blocks self ->
  (2 <= fuel)%nat ->
  forall (m k outer : nat) rd,
    steady self (rd_image rd) ->
    Z.of_nat (List.length (im_data (_f_image self)))
    <= Z.of_nat (k + m) * _batch_blocks self * block_size self ->
    ((0 < m)%nat ->
     (Z.of_nat (k + m) - 1) * _batch_blocks self * block_size self
     < Z.of_nat (List.length (im_data (_f_image self)))) ->
    (m + 1 <= outer)%nat ->
    exists f,
      for_in outer (_get_block_ranges_next self)
        (read_range sys fuel self verify)
        (RangesForever (Z.of_nat k * _batch_blocks self)) rd
      = Return {| rd_image := f;
                  rd_queue :=
                    rd_queue rd ++ map (chunk_item self) (seq k m)
                    ++ [QNone] |}.
Proof.
  intros Hbs Hbb Hfuel.
  induction m as [|m IH]; intros k outer rd Hst Hup Hlow Houter;
    (destruct outer as [|outer]; [lia|]); rewrite for_in_S;
    cbn [_get_block_ranges_next].
  - rewrite Nat.add_0_r in Hup.
    destruct (read_range_past_end self verify fuel k rd Hbs Hbb
                ltac:(lia) Hst Hup) as (f & Hread).
    rewrite Hread. exists f. reflexivity.
  - specialize (Hlow ltac:(lia)).
    assert (HK : 0 <= Z.of_nat k * _batch_blocks self) by nia.
    assert (Hin : Z.of_nat k * _batch_blocks self * block_size self
                  < Z.of_nat (List.length (im_data (_f_image self)))).
    { rewrite Nat2Z.inj_add, Nat2Z.inj_succ in Hlow. nia. }
    destruct (read_range_piece self verify fuel k rd Hbs Hbb Hfuel Hst Hin)
      as (f & Hf & Hread).
    rewrite Hread.
    replace (Z.of_nat k * _batch_blocks self + _batch_blocks self)
      with (Z.of_nat (S k) * _batch_blocks self) by lia.
    destruct (IH (S k) outer
                {| rd_image := f;
                   rd_queue := rd_queue rd ++ [chunk_item self k] |})
      as (f' & Hrun).
    + exact Hf.
    + replace (S k + m)%nat with (k + S m)%nat by lia. exact Hup.
    + intros _. replace (S k + m)%nat with (k + S m)%nat by lia. exact Hlow.
    + lia.
    + exists f'. rewrite Hrun. cbn [rd_queue rd_image map seq].
      rewrite <- app_assoc. reflexivity.
Qed.

Lemma chunk_items_sized self :
  0 < block_size self ->
  forall ks,
    Forall (sized self) (map (chunk_item self) ks)
    /\ Forall is_data (map (chunk_item self) ks)
    /\ flat_map (item_write self) (map (chunk_item self) ks)
       = map (chunk_write self) ks.
Proof.
  intros Hbs. induction ks as [|k ks (IH1 & IH2 & IH3)]; cbn [map flat_map].
  - repeat split; constructor.
  - split; [|split].
    + constructor; [|assumption]. cbn [chunk_item sized].
      apply ceil_upper. assumption.
    + constructor; [exact I | assumption].
    + rewrite IH3. reflexivity.
Qed.

(** The pieces account for the blocks of the image. *)
Lemma chunk_items_blocks self :
  0 < block_size self ->
  0 < _batch_blocks self ->
  forall (m k : nat),
    (0 < m)%nat ->
    Z.of_nat k * _batch_blocks self * block_size self
    <= Z.of_nat (List.length (im_data (_f_image self))) ->
    Z.of_nat (List.length (im_data (_f_image self)))
    <= Z.of_nat (k + m) * _batch_blocks self * block_size self ->
    (Z.of_nat (k + m) - 1) * _batch_blocks self * block_size self
    < Z.of_nat (List.length (im_data (_f_image self))) ->
    items_blocks (map (chunk_item self) (seq k m))
    = image_blocks self - Z.of_nat k * _batch_blocks self.
Proof.
  intros Hbs Hbb. induction m as [|m IH]; intros k Hm Hk Hup Hlow; [lia|].
  assert (HK : 0 <= Z.of_nat k * _batch_blocks self) by nia.
  cbn [seq map items_blocks fold_right chunk_item].
  fold (items_blocks (map (chunk_item self) (seq (S k) m))).
  destruct m as [|m].
  - cbn [seq map items_blocks fold_right]. unfold chunk, slice.
    rewrite firstn_all2.
    2:{ rewrite length_skipn. rewrite Nat2Z.inj_add in Hup. nia. }
    rewrite length_skipn, Nat2Z.inj_sub by nia.
    rewrite Z2Nat.id by nia. unfold image_blocks.
    replace (Z.of_nat (List.length (im_data (_f_image self)))
             - Z.of_nat k * _batch_blocks self * block_size self
             + block_size self - 1)
      with (Z.of_nat (List.length (im_data (_f_image self)))
            + block_size self - 1
            + (- (Z.of_nat k * _batch_blocks self)) * block_size self)
      by lia.
    rewrite Z.div_add by lia. lia.
  - rewrite Nat2Z.inj_add, !Nat2Z.inj_succ in Hlow.
    rewrite IH.
    + unfold chunk. rewrite slice_length by nia.
      rewrite Z.mul_comm.
      replace (block_size self * _batch_blocks self + block_size self - 1)
        with (_batch_blocks self * block_size self + block_size self - 1)
        by lia.
      rewrite ceil_blocks by assumption. lia.
    + lia.
    + nia.
    + replace (S k + S m)%nat with (k + S (S m))%nat by lia. exact Hup.
    + replace (S k + S m)%nat with (k + S (S m))%nat by lia.
      rewrite Nat2Z.inj_add, !Nat2Z.inj_succ. exact Hlow.
Qed.

(** The pieces from the [k]-th on are the image from its offset on. *)
Lemma chunks_concat self :
  0 < block_size self ->
  0 < _batch_blocks self ->
  forall (m k : nat),
    Z.of_nat (List.length (im_data (_f_image self)))
    <= Z.of_nat (k + m) * _batch_blocks self * block_size self ->
    List.concat (map (chunk self) (seq k m))
    = skipn (Z.to_nat (Z.of_nat k * _batch_blocks self * block_size self))
        (im_data (_f_image self)).
Proof.
  intros Hbs Hbb. induction m as [|m IH]; intros k Hup.
  - cbn [seq map List.concat]. rewrite Nat.add_0_r in Hup.
    symmetry. apply skipn_all2. lia.
  - cbn [seq map List.concat]. rewrite IH.
    2:{ replace (S k + m)%nat with (k + S m)%nat by lia. exact Hup. }
    unfold chunk, slice.
    assert (HK : 0 <= Z.of_nat k * _batch_blocks self) by nia.
    replace (Z.to_nat (Z.of_nat (S k) * _batch_blocks self * block_size self))
      with (Z.to_nat (_batch_blocks self * block_size self)
            + Z.to_nat (Z.of_nat k * _batch_blocks self * block_size self))%nat
      by nia.
    rewrite <- skipn_skipn. apply firstn_skipn.
Qed.

Lemma chunks_cnt_bounds self :
  0 < block_size self ->
  0 < _batch_blocks self ->
  Z.of_nat (List.length (im_data (_f_image self)))
  <= Z.of_nat (0 + chunks_cnt self) * _batch_blocks self * block_size self
  /\ ((0 < chunks_cnt self)%nat ->
      (Z.of_nat (0 + chunks_cnt self) - 1) * _batch_blocks self
      * block_size self
      < Z.of_nat (List.length (im_data (_f_image self))))
  /\ (0 < Z.of_nat (List.length (im_data (_f_image self))) ->
      (0 < chunks_cnt self)%nat)
  /\ (chunks_cnt self <= List.length (im_data (_f_image self)))%nat.
Proof.
  intros Hbs Hbb. unfold chunks_cnt. cbn [Nat.add].
  set (sz := Z.of_nat (List.length (im_data (_f_image self)))).
  set (P := _batch_blocks self * block_size self).
  assert (HP : 0 < P) by (unfold P; nia).
  assert (Hsz : 0 <= sz) by (unfold sz; lia).
  assert (Hq : 0 <= (sz + P - 1) / P) by (apply Z.div_pos; lia).
  rewrite Z2Nat.id by assumption.
  rewrite <- !Z.mul_assoc. fold P.
  pose proof (ceil_upper sz P HP) as Hup.
  split; [exact Hup|]. split; [|split].
  - intros Hn. destruct (Z.eq_dec sz 0) as [Hz|Hz].
    + exfalso. rewrite Hz in Hn.
      replace (0 + P - 1) with (P - 1) in Hn by lia.
      rewrite Z.div_small in Hn by lia. cbn in Hn. lia.
    + apply (ceil_bounds sz P HP). lia.
  - intros Hpos. destruct (ceil_bounds sz P HP Hpos) as (H1 & _). lia.
  - destruct (Z.eq_dec sz 0) as [Hz|Hz].
    + rewrite Hz. replace (0 + P - 1) with (P - 1) by lia.
      rewrite Z.div_small by lia. cbn. lia.
    + destruct (ceil_bounds sz P HP ltac:(lia)) as (H1 & H2 & _).
      unfold sz in *. nia.
Qed.

Lemma image_blocks_bounds self :
  0 < block_size self ->
  image_blocks self <> 0 ->
  0 < Z.of_nat (List.length (im_data (_f_image self)))
  /\ (image_blocks self - 1) * block_size self
     < Z.of_nat (List.length (im_data (_f_image self)))
  /\ Z.of_nat (List.length (im_data (_f_image self)))
     <= image_blocks self * block_size self.
Proof.
  intros Hbs Hnz. unfold image_blocks in *.
  set (sz := Z.of_nat (List.length (im_data (_f_image self)))) in *.
  assert (Hpos : 0 < sz).
  { destruct (Z.eq_dec sz 0) as [Hz|Hz]; [|unfold sz in *; lia].
    exfalso. apply Hnz. rewrite Hz.
    replace (0 + block_size self - 1) with (block_size self - 1) by lia.
    apply Z.div_small. lia. }
  split; [assumption|].
  destruct (ceil_bounds sz (block_size self) Hbs Hpos) as (_ & H2 & H3).
  auto.
Qed.

(** What the reader thread puts for an image without a bmap: its pieces,
    then the end-of-stream marker. *)
Lemma get_data_plain self verify fuel :
  plain_input self ->
  (reader_fuel self <= fuel)%nat ->
  exists f,
    ctl_state (_get_data sys fuel self verify (reader0 self))
    = {| rd_image := f;
         rd_queue := map (chunk_item self) (seq 0 (chunks_cnt self))
                     ++ [QNone] |}.
Proof.
  intros [Hnb Hbs Hbb Himg _ Hsizes] Hfuel.
  destruct (chunks_cnt_bounds self Hbs Hbb) as (Hup & Hlow & Hsome & Hle).
  unfold reader_fuel in Hfuel. rewrite Hnb in Hfuel.
  assert (Hst : steady self (rd_image (reader0 self))).
  { split; [reflexivity | exact Himg]. }
  unfold _get_data.
  destruct Hsizes as [(_ & Hnz & Hcnt & _)|(_ & Hcnt)].
  - destruct (image_blocks_bounds self Hbs Hnz) as (Hpos & Hlo & Hhi).
    rewrite Hcnt in Hfuel.
    apply Z.eqb_neq in Hnz. rewrite Hnz in Hfuel. cbn [negb] in Hfuel.
    unfold batches_fuel in Hfuel.
    assert (Hn : (chunks_cnt self + 1
                  <= Z.to_nat ((image_blocks self - 1 - 0 + 1)
                               / _batch_blocks self) + 2)%nat).
    { specialize (Hlow (Hsome Hpos)). cbn [Nat.add] in Hlow.
      replace (image_blocks self - 1 - 0 + 1) with (image_blocks self)
        by lia.
      assert (Z.of_nat (chunks_cnt self) - 1
              <= image_blocks self / _batch_blocks self).
      { apply Z.div_le_lower_bound; [assumption|]. nia. }
      lia. }
    destruct fuel as [|[|fuel]]; [lia|lia|].
    rewrite for_in_S. cbn [_get_block_ranges_next].
    rewrite Hnb, Hcnt, Hnz. cbn [negb].
    assert (Hrange :
      exists f,
        steady self f
        /\ read_range sys (S (S fuel)) self verify
             (0, image_blocks self - 1, None) (reader0 self)
           = Next {| rd_image := f;
                     rd_queue := map (chunk_item self)
                                   (seq 0 (chunks_cnt self)) |}).
    { unfold read_range.
      destruct (read_chunks_known self verify (image_blocks self)
                  Hbs Hbb Hlo Hhi (chunks_cnt self) 0%nat (S (S fuel))
                  (with_image (reader0 self)
                     (image_seek (rd_image (reader0 self))
                        (0 * block_size self))) [])
        as (f & Hf & Hrun).
      - apply steady_seek. exact Hst.
      - intros _. reflexivity.
      - cbn. lia.
      - exact Hup.
      - exact Hlow.
      - lia.
      - exists f. split; [assumption|].
        change (BatchesLoop 0)
          with (BatchesLoop (Z.of_nat 0 * _batch_blocks self)).
        rewrite Hrun. reflexivity. }
    destruct Hrange as (f & Hf & Hrange).
    rewrite Hrange, for_in_S. cbn [_get_block_ranges_next ctl_state put].
    exists f. reflexivity.
  - assert (Hnext : _get_block_ranges_next self RangesStart
                    = _get_block_ranges_next self (RangesForever 0)).
    { cbn [_get_block_ranges_next]. rewrite Hnb.
      destruct (blocks_cnt self) as [cnt|]; [|reflexivity].
      cbn [truthy_int] in Hcnt. rewrite Hcnt. reflexivity. }
    assert (Hendless : (List.length (im_data (_f_image self)) + 3
                        <= fuel)%nat).
    { destruct (blocks_cnt self) as [cnt|]; [|exact Hfuel].
      cbn [truthy_int] in Hcnt. rewrite Hcnt in Hfuel. exact Hfuel. }
    destruct (read_chunks_endless self verify fuel Hbs Hbb ltac:(lia)
                (chunks_cnt self) 0%nat fuel (reader0 self) Hst Hup Hlow
                ltac:(lia)) as (f & Hrun).
    change (RangesForever (Z.of_nat 0 * _batch_blocks self))
      with (RangesForever 0) in Hrun.
    assert (Hstart :
      for_in fuel (_get_block_ranges_next self)
        (read_range sys fuel self verify) RangesStart (reader0 self)
      = for_in fuel (_get_block_ranges_next self)
          (read_range sys fuel self verify) (RangesForever 0)
          (reader0 self)).
    { destruct fuel as [|k]; [reflexivity|].
      rewrite !for_in_S, Hnext. reflexivity. }
    rewrite Hstart, Hrun. cbn [ctl_state]. exists f. reflexivity.
Qed.

(** X15.  Without a bmap, on an image and a destination that do not
    fail, [copy] returns normally, with or without verification, whether
    the size of the image was known to the constructor or not.  What it
    writes is the image cut into pieces of [_batch_blocks * block_size]
    bytes, each written at the offset it has in the image: put end to
    end the buffers written are the data of the image.  One [flush] and,
    when asked for, one [os.fsync] follow.  When the size was not known
    the session ends up with the number of blocks of the image, the last
    one possibly partial, as [blocks_cnt] and [mapped_cnt]. *)
Theorem copy_without_bmap_copies_whole_image
    (self : BmapCopy) (fuel : nat) (do_sync verify : bool) :
  plain_input self ->
  (reader_fuel self <= fuel)%nat ->
  exists self' mid,
    BmapCopy_copy sys fuel self do_sync verify = Some (Ok self')
    /\ d_log (_f_dest self')
       = d_log (_f_dest self) ++ mid
         ++ DestFlush :: (if do_sync then [DestFsync] else [])
    /\ written mid = map (chunk_write self) (seq 0 (chunks_cnt self))
    /\ List.concat (map snd (written mid)) = im_data (_f_image self)
    /\ (truthy_int (image_size self) = false ->
        blocks_cnt self' = Some (image_blocks self)
        /\ mapped_cnt self' = Some (image_blocks self)
        /\ image_size self'
           = Some (image_blocks self * block_size self)).
Proof.
  intros Hplain Hfuel.
  destruct (get_data_plain self verify fuel Hplain Hfuel) as (f & Hrun).
  destruct Hplain as [Hnb Hbs Hbb Himg Hdest Hsizes].
  destruct (chunks_cnt_bounds self Hbs Hbb) as (Hup & Hlow & Hsome & _).
  destruct (chunk_items_sized self Hbs (seq 0 (chunks_cnt self)))
    as (Hsized & Hdata & Hwrites).
  destruct (write_all_run self _ Hsized (writer0 self) Hdest)
    as (w & Hall & Hblocks & Hh).
  cbn [writer0 blocks_written] in Hblocks.
  assert (Hbw : blocks_written w = image_blocks self).
  { rewrite Hblocks. destruct (chunks_cnt self) as [|n] eqn:Hn.
    - cbn [seq map items_blocks fold_right].
      cbn [Nat.add Z.of_nat Z.mul] in Hup. unfold image_blocks.
      replace (Z.of_nat (List.length (im_data (_f_image self)))) with 0
        by lia.
      symmetry. apply Z.div_small. lia.
    - rewrite (chunk_items_blocks self Hbs Hbb (S n) 0%nat);
        [cbn; lia|lia|cbn; lia|exact Hup|apply Hlow; lia]. }
  assert (Hfinish :
    exists self',
      finish_copy sys self do_sync (im_pos (_f_image self))
        (d_pos (_f_dest self)) (option_map bm_pos (_f_bmap self)) f w
      = Ok self'
      /\ (truthy_int (image_size self) = false ->
          blocks_cnt self' = Some (image_blocks self)
          /\ mapped_cnt self' = Some (image_blocks self)
          /\ image_size self'
             = Some (image_blocks self * block_size self))).
  { destruct Hsizes as [(Hsize & _ & _ & Hmapped)|(Hsize & _)].
    - destruct (finish_copy_run self do_sync (im_pos (_f_image self))
                  (d_pos (_f_dest self)) (option_map bm_pos (_f_bmap self))
                  f w Hsize) as (self' & Hfinish);
        [rewrite Hbw; exact Hmapped|exact Hh|].
      exists self'. split; [exact Hfinish|]. congruence.
    - destruct (finish_copy_unknown_run self do_sync
                  (im_pos (_f_image self)) (d_pos (_f_dest self))
                  (option_map bm_pos (_f_bmap self)) f w Hsize Hbs Hh)
        as (self' & Hfinish).
      exists self'. split; [exact Hfinish|]. intros _.
      destruct (finish_copy_unknown_sizes _ _ _ _ _ _ _ _ Hsize Hbs
                  Hfinish) as (H1 & _ & H3 & H4 & _).
      rewrite <- Hbw. auto. }
  destruct Hfinish as (self' & Hfinish & Hknown).
  destruct (write_all_written _ _ _ _ Hall) as (mid & Hlog & Hmid & _).
  rewrite Hwrites in Hmid.
  pose proof (finish_copy_log _ _ _ _ _ _ _ _ Hfinish) as Hend.
  cbn [writer0 wr_dest] in Hlog. rewrite Hlog, <- app_assoc in Hend.
  exists self', mid.
  split.
  { rewrite copy_unfold, Hrun. cbv zeta. cbn [rd_queue rd_image].
    rewrite write_batches_app by assumption. rewrite Hall.
    cbn [write_batches]. now rewrite Hfinish. }
  split; [exact Hend|]. split; [exact Hmid|]. split; [|exact Hknown].
  rewrite Hmid, map_map.
  change (List.concat (map (chunk self) (seq 0 (chunks_cnt self)))
          = im_data (_f_image self)).
  rewrite (chunks_concat self Hbs Hbb (chunks_cnt self) 0%nat Hup).
  reflexivity.
Qed.

(* ------------------------------------------------------------------ *)
(** ** Termination of [copy] *)

(** A loop that has ended within its budget ends the same way with a
    larger one. *)
Lemma for_in_stable {It A S : Type} (next : step It A)
    (body body' : A -> S -> ctl S) :
  (forall a s, ~ spins (body a s) -> body' a s = body a s) ->
  forall (k k' : nat) it s,
    (k <= k')%nat ->
    ~ spins (for_in k next body it s) ->
    for_in k' next body' it s = for_in k next body it s.
Proof.
  intros Hbody. induction k as [|k IH]; intros k' it s Hle Hfin.
  - exfalso. apply Hfin. exact I.
  - destruct k' as [|k']; [lia|]. rewrite !for_in_S. rewrite for_in_S in Hfin.
    destruct (next it) as [[[a it']|]|e]; [|reflexivity|reflexivity].
    destruct (body a s) as [s'|s'|e s'|s'] eqn:E.
    + rewrite (Hbody a s), E by (rewrite E; cbn; tauto).
      apply IH; [lia | exact Hfin].
    + rewrite (Hbody a s), E by (rewrite E; cbn; tauto). reflexivity.
    + rewrite (Hbody a s), E by (rewrite E; cbn; tauto). reflexivity.
    + exfalso. apply Hfin. exact I.
Qed.

Lemma read_range_stable self verify (fuel fuel' : nat) t rd :
  (fuel <= fuel')%nat ->
  ~ spins (read_range sys fuel self verify t rd) ->
  read_range sys fuel' self verify t rd
  = read_range sys fuel self verify t rd.
Proof.
  intros Hle. destruct t as [[first last] sha1]. unfold read_range.
  intros Hfin.
  rewrite (for_in_stable (_get_batches_next (_batch_blocks self) last)
             (read_batch self verify sha1) (read_batch self verify sha1)
             (fun _ _ _ => eq_refl) fuel fuel' _ _ Hle); [reflexivity|].
  destruct (for_in fuel _ _ _ _) as [[rd' h]|[rd' h]|e [rd' h]|[rd' h]];
    cbn [spins] in *; tauto.
Qed.

Lemma get_data_stable self verify (fuel fuel' : nat) :
  (fuel <= fuel')%nat ->
  ~ spins (_get_data sys fuel self verify (reader0 self)) ->
  _get_data sys fuel' self verify (reader0 self)
  = _get_data sys fuel self verify (reader0 self).
Proof.
  intros Hle. unfold _get_data. intros Hfin.
  rewrite (for_in_stable (_get_block_ranges_next self)
             (read_range sys fuel self verify)
             (read_range sys fuel' self verify)
             (fun t rd H => read_range_stable self verify fuel fuel' t rd
                              Hle H)
             fuel fuel' _ _ Hle); [reflexivity|].
  destruct (for_in fuel _ _ _ _) as [rd|rd|e rd|rd]; cbn [spins] in *;
    tauto.
Qed.

Lemma write_batches_ends self queue w :
  ends_with_marker queue ->
  forall w', write_batches self queue w <> Waiting w'.
Proof.
  intros (ds & Hds & [->|(e & _ & ->)]) w';
    rewrite write_batches_app by assumption;
    destruct (write_all self ds w); cbn [write_batches]; discriminate.
Qed.

(** X16.  [copy] always ends.  With a positive block size and a positive
    batch size the reader thread reaches its end-of-stream marker,
    whatever the image, the bmap and the destination hold or do, so the
    loop of [copy] is never left waiting on the queue: [copy] returns or
    raises.  Its outcome does not depend on the iteration budget once
    that is at least [reader_fuel]. *)
Theorem copy_always_ends
    (self : BmapCopy) (do_sync verify : bool) (fuel : nat) :
  0 < block_size self ->
  0 < _batch_blocks self ->
  (reader_fuel self <= fuel)%nat ->
  BmapCopy_copy sys fuel self do_sync verify <> None
  /\ BmapCopy_copy sys fuel self do_sync verify
     = BmapCopy_copy sys (reader_fuel self) self do_sync verify.
Proof.
  intros Hbs Hbb Hfuel.
  pose proof (get_data_finishes self verify fuel Hbs Hbb Hfuel) as Hfin.
  pose proof (get_data_finishes self verify (reader_fuel self) Hbs Hbb
                (Nat.le_refl _)) as Hfin0.
  split.
  - rewrite copy_unfold. cbv zeta.
    pose proof (get_data_extends fuel self verify) as Hext.
    assert (Hq : ends_with_marker
                   (rd_queue (ctl_state (_get_data sys fuel self verify
                                           (reader0 self))))).
    { destruct (_get_data sys fuel self verify (reader0 self))
        as [rd|rd|e rd|rd]; cbn in Hfin, Hext |- *; try tauto.
      destruct Hext as (ds & Hds & Hq). exists ds. auto. }
    pose proof (write_batches_ends self _ (writer0 self) Hq) as Hw.
    destruct (write_batches self _ (writer0 self)) as [w|e|w];
      [discriminate|discriminate|].
    exfalso. eapply Hw. reflexivity.
  - rewrite !copy_unfold.
    rewrite (get_data_stable self verify (reader_fuel self) fuel Hfuel Hfin0).
    reflexivity.
Qed.

(* ------------------------------------------------------------------ *)
(** ** The scheduler in the control file *)

Lemma first_line_app line tail :
  Forall (fun c => c <> "010"%char) line ->
  tail = [] \/ (exists rest, tail = "010"%char :: rest) ->
  first_line (line ++ tail) = line.
Proof.
  intros Hline Htail. induction Hline as [|c line Hc _ IH]; cbn [app].
  - destruct Htail as [->|(rest & ->)]; reflexivity.
  - cbn [first_line]. apply Ascii.eqb_neq in Hc. rewrite Hc, IH.
    reflexivity.
Qed.

Lemma before_last_close_none l :
  Forall (fun c => c <> "]"%char) l -> before_last_close l = None.
Proof.
  induction 1 as [|c l Hc _ IH]; [reflexivity|].
  cbn [before_last_close]. rewrite IH. apply Ascii.eqb_neq in Hc.
  now rewrite Hc.
Qed.

Lemma before_last_close_app name post :
  Forall (fun c => c <> "]"%char) post ->
  before_last_close (name ++ "]"%char :: post) = Some name.
Proof.
  intros Hpost. induction name as [|c name IH]; cbn [app before_last_close].
  - now rewrite (before_last_close_none post Hpost).
  - now rewrite IH.
Qed.

Lemma bracket_group_none l :
  Forall (fun c => c <> "["%char) l -> bracket_group l = None.
Proof.
  induction 1 as [|c l Hc _ IH]; [reflexivity|].
  cbn [bracket_group]. rewrite IH. apply Ascii.eqb_neq in Hc.
  now rewrite Hc.
Qed.

Lemma bracket_group_app pre name post :
  name <> [] ->
  Forall (fun c => c <> "["%char) (name ++ "]"%char :: post) ->
  Forall (fun c => c <> "]"%char) post ->
  bracket_group (pre ++ "["%char :: name ++ "]"%char :: post) = Some name.
Proof.
  intros Hname Hopen Hclose. induction pre as [|c pre IH];
    cbn [app bracket_group].
  - rewrite (bracket_group_none _ Hopen), (before_last_close_app _ _ Hclose).
    destruct name; [congruence | reflexivity].
  - now rewrite IH.
Qed.

(** X17.  The scheduler that [_tune_block_device] takes from the text of
    the control file is the name between the square brackets of its
    first line: for a first line [pre ++ "[" ++ name ++ "]" ++ post] with
    a non-empty [name], no other opening bracket from [name] on and no
    closing bracket in [post], the regular expression gives [name],
    whatever follows the end of the line. *)
Theorem scheduler_is_the_bracketed_name
    (pre name post tail : list ascii) :
  name <> [] ->
  Forall (fun c => c <> "010"%char)
    (pre ++ "["%char :: name ++ "]"%char :: post) ->
  Forall (fun c => c <> "["%char) (name ++ "]"%char :: post) ->
  Forall (fun c => c <> "]"%char) post ->
  tail = [] \/ (exists rest, tail = "010"%char :: rest) ->
  scheduler_in_brackets
    (string_of_list_ascii
       ((pre ++ "["%char :: name ++ "]"%char :: post) ++ tail))
  = Some (string_of_list_ascii name).
Proof.
  intros Hname Hline Hopen Hclose Htail. unfold scheduler_in_brackets.
  rewrite list_ascii_of_string_of_list_ascii.
  rewrite (first_line_app _ _ Hline Htail).
  rewrite (bracket_group_app pre name post Hname Hopen Hclose).
  reflexivity.
Qed.

End SessionFacts.

(* ------------------------------------------------------------------ *)
(** ** The theorems at work on the small installation *)

Lemma bdev_copy_success_skips_restore_witness :
  exists self self' log',
    Lab.bdev_session Lab.sys Lab.good_ranges = Ok self
    /\ BmapBdevCopy_copy Lab.sys 5 self true true [] = (Some (Ok self'), log')
    /\ old_scheduler_value self' = Some "cfq"
    /\ old_max_ratio_value self' = Some "20"
    /\ opened_for_writing (_sysfs_scheduler_path self) log' = O
    /\ opened_for_writing (_sysfs_max_ratio_path self) log' = O
    /\ exists self1,
         _tune_block_device Lab.sys self [] = (Ok self1, log')
         /\ old_scheduler_value self' = old_scheduler_value self1
         /\ old_max_ratio_value self' = old_max_ratio_value self1.
Proof.
  eexists. eexists. eexists.
  split; [vm_compute; reflexivity|].
  split; [vm_compute; reflexivity|].
  split; [reflexivity|]. split; [reflexivity|].
  split; [vm_compute; reflexivity|]. split; [vm_compute; reflexivity|].
  apply (bdev_copy_success_skips_restore Lab.sys 5 _ _ true true []).
  vm_compute. reflexivity.
Defined.

Lemma checksum_mismatch_aborts_verified_copy_witness :
  exists self self',
    Lab.session Lab.sys Lab.corrupted_ranges = Ok self
    /\ sound_input self [(0, 1, None); (5, 5, Some "fxff")]
    /\ BmapCopy_copy Lab.sys 5 self true false = Some (Ok self')
    /\ BmapCopy_copy Lab.sys 5 self true true
       = Some (Raise (checksum_mismatch 5 5 "ffff" "fxff")).
Proof.
  eexists. eexists.
  split; [vm_compute; reflexivity|].
  match goal with
  | |- sound_input ?s ?ts /\ _ =>
      assert (Hsound : sound_input s ts)
  end.
  { constructor; cbn [block_size _batch_blocks _f_bmap _xml _f_image _f_dest
                        image_size mapped_cnt im_read_error d_write_error
                        d_flush_error d_fsync_error im_data];
      try reflexivity; try lia; try discriminate.
    - do 2 eexists. split; [reflexivity|]. split; [reflexivity|].
      repeat constructor.
    - repeat constructor; vm_compute; discriminate. }
  split; [exact Hsound|].
  pose proof (checksum_mismatch_aborts_verified_copy Lab.sys _ _ true 5%nat
                Hsound ltac:(vm_compute; lia)) as [Hplain Hverified].
  split; [vm_compute; reflexivity|].
  destruct (Hverified 5 5 "fxff"%string)
    as (first' & last' & digest' & pre & _ & _ & _ & _ & Hcopy).
  - right. left. reflexivity.
  - discriminate.
  - vm_compute. discriminate.
  - vm_compute. reflexivity.
Defined.



Lemma copy_checks_blocks_written_witness :
  exists self,
    Lab.session Lab.sys [Lab.range "0-1" None] = Ok self
    /\ mapped_cnt self = Some 3
    /\ BmapCopy_copy Lab.sys 5 self true true
       = Some (Raise (size_mismatch 2 3)).
Proof.
  eexists. split; [vm_compute; reflexivity|].
  split; [reflexivity|].
  match goal with
  | |- BmapCopy_copy _ _ ?s _ _ = _ =>
      destruct (copy_checks_blocks_written Lab.sys
                  (AFile Lab.image) (AFile Lab.dest)
                  (Some (AFile (Lab.bmap [Lab.range "0-1" None]))) s)
        as (doc & m & Hdoc & Hm & Hcnt & Hcheck)
  end; [reflexivity|vm_compute; reflexivity|].
  injection Hcnt as <-.
  refine (proj1 (Hcheck 5%nat true true
                   {| wr_dest := _; blocks_written := 2; fsync_last := 0 |}
                   _) _).
  - vm_compute. reflexivity.
  - cbn. discriminate.
Defined.

Lemma copy_restores_positions_witness :
  exists self self',
    BmapCopy_init Lab.sys (AFile (image_seek Lab.image 7))
      (AFile (dest_seek Lab.dest 3))
      (Some (AFile (bmap_seek (Lab.bmap Lab.good_ranges) 5))) = Ok self
    /\ BmapCopy_copy Lab.sys 5 self true true = Some (Ok self')
    /\ im_pos (_f_image self') = 7
    /\ d_pos (_f_dest self') = 3
    /\ option_map bm_pos (_f_bmap self') = Some 5.
Proof.
  eexists. eexists.
  split; [vm_compute; reflexivity|].
  match goal with
  | |- BmapCopy_copy _ _ ?s _ _ = Some (Ok ?s') /\ _ =>
      assert (Hcopy : BmapCopy_copy Lab.sys 5 s true true = Some (Ok s'))
        by (vm_compute; reflexivity)
  end.
  split; [exact Hcopy|].
  exact (proj1 (copy_restores_positions Lab.sys) _ _ _ _ _ Hcopy).
Defined.

Lemma init_without_bmap_sizes_witness :
  exists self,
    BmapCopy_init Lab.sys (APath "disk.img") (APath "out") None = Ok self
    /\ block_size self = 4096
    /\ blocks_cnt self = Some 2
    /\ mapped_cnt self = Some 2
    /\ image_size self = Some 5000
    /\ mapped_size self = Some 5000
    /\ mapped_percent self = Some (PercentInt 100).
Proof.
  eexists.
  match goal with
  | |- ?init = Ok ?s /\ _ =>
      assert (Hinit : init = Ok s) by (vm_compute; reflexivity)
  end.
  split; [exact Hinit|].
  pose proof (init_without_bmap_sizes Lab.sys "disk.img" (APath "out") None
                _ _ eq_refl eq_refl eq_refl eq_refl Hinit)
    as (Hbs & Hcnt & _ & Hmapped & Hsize & Hmsize & Hpct).
  repeat split; assumption.
Defined.

Lemma get_data_ends_with_marker_witness :
  exists self,
    Lab.session Lab.sys Lab.corrupted_ranges = Ok self
    /\ (reader_fuel self <= 5)%nat
    /\ ends_with_marker
         (rd_queue (ctl_state (_get_data Lab.sys 5 self true (reader0 self)))).
Proof.
  eexists. split; [vm_compute; reflexivity|].
  match goal with
  | |- (reader_fuel ?s <= _)%nat /\ _ =>
      assert (Hfuel : (reader_fuel s <= 5)%nat) by (vm_compute; lia);
      split; [exact Hfuel|];
      apply (proj2 (get_data_ends_with_marker Lab.sys s true));
      [reflexivity | reflexivity | exact Hfuel]
  end.
Defined.

(** With the scheduler and the ratio both captured, a copy that fails and
    a scheduler file that cannot be written back: the ratio file is never
    opened for writing. *)
Lemma restore_gives_up_after_scheduler :
  exists self self1 log1 e log',
    Lab.bdev_session Lab.sys_locked_scheduler Lab.corrupted_ranges = Ok self
    /\ _tune_block_device Lab.sys_locked_scheduler self [] = (Ok self1, log1)
    /\ old_scheduler_value self1 = Some "cfq"
    /\ old_max_ratio_value self1 = Some "20"
    /\ BmapBdevCopy_copy Lab.sys_locked_scheduler 5 self true true []
       = (Some (Raise e), log')
    /\ opened_for_writing (_sysfs_scheduler_path self) log' = 1%nat
    /\ opened_for_writing (_sysfs_max_ratio_path self) log' = O.
Proof.
  do 5 eexists.
  split; [vm_compute; reflexivity|].
  split; [vm_compute; reflexivity|].
  split; [reflexivity|]. split; [reflexivity|].
  split; [vm_compute; reflexivity|].
  split; vm_compute; reflexivity.
Defined.

Lemma bdev_tuning_is_best_effort_witness :
  exists self self1 log1,
    Lab.bdev_session Lab.sys_locked_scheduler Lab.corrupted_ranges = Ok self
    /\ _tune_block_device Lab.sys_locked_scheduler self [] = (Ok self1, log1)
    /\ _restore_bdev_settings Lab.sys_locked_scheduler self1 log1
       = (Ok tt, log1 ++ [SysOpen (_sysfs_scheduler_path self) "w"]).
Proof.
  do 3 eexists.
  split; [vm_compute; reflexivity|].
  split; [vm_compute; reflexivity|].
  destruct (bdev_tuning_is_best_effort Lab.sys_locked_scheduler)
    as (_ & _ & Hrestore & _).
  rewrite Hrestore. vm_compute. reflexivity.
Defined.



(* ------------------------------------------------------------------ *)
(** ** Further theorems at work on the small installation *)


Lemma init_with_bmap_attributes_witness :
  exists self hdr,
    Lab.session Lab.sys Lab.good_ranges = Ok self
    /\ block_size self = hdr_block_size hdr
    /\ mapped_cnt self = Some (hdr_mapped_cnt hdr)
    /\ _batch_blocks self = 1024 * 1024 / hdr_block_size hdr
    /\ hdr_block_size hdr <> 0.
Proof.
  assert (Hinit : exists self, Lab.session Lab.sys Lab.good_ranges = Ok self)
    by (eexists; vm_compute; reflexivity).
  destruct Hinit as [self Hinit].
  destruct (init_with_bmap_attributes Lab.sys (AFile Lab.image)
              (AFile Lab.dest) (Some (AFile (Lab.bmap Lab.good_ranges)))
              self eq_refl Hinit)
    as (f & doc & hdr & _ & _ & _ & _ & _ & Hbs & _ & Hmapped & _ & _ & _
        & Hbatch & Hnz & _).
  exists self, hdr. auto.
Defined.

Lemma del_closes_what_init_opened_witness :
  exists self,
    BmapCopy_init Lab.sys (AFile Lab.image) (APath "out")
      (Some (AFile (Lab.bmap Lab.good_ranges))) = Ok self
    /\ __del__ self = Ok [ClosedDest (_f_dest self)]
    /\ _f_image self = Lab.image.
Proof.
  eexists. split; [vm_compute; reflexivity|].
  match goal with
  | |- __del__ ?s = _ /\ _ =>
      destruct (del_closes_what_init_opened Lab.sys (AFile Lab.image)
                  (APath "out") (Some (AFile (Lab.bmap Lab.good_ranges))) s)
        as (Hdel & Himage & _)
  end.
  - vm_compute. reflexivity.
  - split; [exact Hdel | exact (Himage _ eq_refl)].
Defined.

Lemma init_compressed_sizes_unknown_witness :
  exists self,
    Lab2.plain_session = Ok self
    /\ image_size self = None
    /\ blocks_cnt self = None
    /\ block_size self = 4096
    /\ _batch_blocks self = 256.
Proof.
  eexists. split; [vm_compute; reflexivity|].
  match goal with
  | |- image_size ?s = _ /\ _ =>
      destruct (init_compressed_sizes_unknown Lab.sys (AFile Lab.image)
                  (AFile Lab.dest) None s eq_refl I)
        as (H1 & H2 & _ & _ & H5 & H6 & _)
  end.
  - vm_compute. reflexivity.
  - auto.
Defined.

Lemma bdev_init_capacity_check_witness :
  exists b,
    BmapCopy_init_with Lab.sys (Bdev_open_destination_file Lab.sys)
      (AFile Lab.image) (AFile Lab.dest)
      (Some (AFile (Lab.bmap Lab.good_ranges))) = Ok b
    /\ image_size b = Some 32
    /\ os_lseek_end Lab.sys (_f_dest b) = Done 64
    /\ bdev_accepts Lab.sys (AFile Lab.image) (AFile Lab.dest)
         (Some (AFile (Lab.bmap Lab.good_ranges))) b.
Proof.
  eexists. split; [vm_compute; reflexivity|].
  split; [reflexivity|]. split; [reflexivity|].
  match goal with
  | |- bdev_accepts _ _ _ _ ?b =>
      exact (bdev_init_capacity_check Lab.sys (AFile Lab.image)
               (AFile Lab.dest) (Some (AFile (Lab.bmap Lab.good_ranges)))
               b eq_refl)
  end.
Defined.

Lemma tune_block_device_captures_witness :
  exists self self1 log1,
    Lab.bdev_session Lab.sys Lab.good_ranges = Ok self
    /\ _tune_block_device Lab.sys self [] = (Ok self1, log1)
    /\ old_scheduler_value self1 = Some "cfq"
    /\ old_max_ratio_value self1 = Some "20".
Proof.
  eexists. eexists. eexists.
  split; [vm_compute; reflexivity|].
  match goal with
  | |- _tune_block_device _ ?s _ = (Ok ?s1, ?l1) /\ _ =>
      assert (Htune : _tune_block_device Lab.sys s [] = (Ok s1, l1))
        by (vm_compute; reflexivity)
  end.
  split; [exact Htune|].
  apply (proj2 (proj2 (tune_block_device_captures Lab.sys _ _ _ _ Htune))
           "noop deadline [cfq]" "cfq" "20");
    vm_compute; reflexivity.
Defined.

Lemma bdev_copy_failure_restores_what_was_read_witness :
  exists self,
    Lab.bdev_session Lab.sys Lab.corrupted_ranges = Ok self
    /\ BmapCopy_copy Lab.sys 5 (base self) true true
       = Some (Raise (checksum_mismatch 5 5 "ffff" "fxff"))
    /\ BmapBdevCopy_copy Lab.sys 5 self true true []
       = (Some (Raise (checksum_mismatch 5 5 "ffff" "fxff")),
          [SysOpen (_sysfs_scheduler_path self) "r+";
           SysRead (_sysfs_scheduler_path self);
           SysWrite (_sysfs_scheduler_path self) "noop";
           SysOpen (_sysfs_max_ratio_path self) "r+";
           SysRead (_sysfs_max_ratio_path self);
           SysWrite (_sysfs_max_ratio_path self) "1";
           SysOpen (_sysfs_scheduler_path self) "w";
           SysWrite (_sysfs_scheduler_path self) "cfq";
           SysOpen (_sysfs_max_ratio_path self) "w";
           SysWrite (_sysfs_max_ratio_path self) "20"]).
Proof.
  eexists. split; [vm_compute; reflexivity|].
  match goal with
  | |- BmapCopy_copy _ _ (base ?s) _ _ = _ /\ _ =>
      assert (Hcopy : BmapCopy_copy Lab.sys 5 (base s) true true
                      = Some (Raise (checksum_mismatch 5 5 "ffff" "fxff")))
        by (vm_compute; reflexivity);
      split; [exact Hcopy|];
      apply (bdev_copy_failure_restores_what_was_read Lab.sys 5 s true true
               [] "noop deadline [cfq]" "cfq" "20"
               (checksum_mismatch 5 5 "ffff" "fxff")
               (fun _ _ => eq_refl) (fun _ _ => eq_refl))
  end.
  - vm_compute. reflexivity.
  - vm_compute. reflexivity.
  - vm_compute. reflexivity.
  - exact Hcopy.
Defined.

Lemma block_ranges_without_bmap_witness :
  exists self,
    BmapCopy_init Lab.sys (APath "disk.img") (AFile Lab.dest) None = Ok self
    /\ _f_bmap self = None
    /\ blocks_cnt self = Some 2
    /\ _get_block_ranges 2 self = Some (Ok [(0, 1, None)]).
Proof.
  eexists. split; [vm_compute; reflexivity|].
  split; [reflexivity|]. split; [reflexivity|].
  match goal with
  | |- _get_block_ranges _ ?s = _ =>
      apply (proj1 (block_ranges_without_bmap s eq_refl) 2 2%nat eq_refl)
  end.
  - discriminate.
  - lia.
Defined.

Lemma oversized_block_size_copies_nothing_witness :
  exists self,
    BmapCopy_init Lab.sys (AFile Lab.image) (AFile Lab.dest)
      (Some (AFile Lab2.huge_blocks_bmap)) = Ok self
    /\ 1024 * 1024 < block_size self
    /\ _batch_blocks self = 0
    /\ BmapCopy_copy Lab.sys 1 self true false
       = Some (Raise (size_mismatch 0 3)).
Proof.
  eexists. split; [vm_compute; reflexivity|].
  split; [reflexivity|].
  match goal with
  | |- _batch_blocks ?s = _ /\ _ =>
      destruct (oversized_block_size_copies_nothing Lab.sys
                  (AFile Lab.image) (AFile Lab.dest)
                  (Some (AFile Lab2.huge_blocks_bmap)) s
                  {| xml_version := Some "1.2";
                     xml_BlockSize := Some "2097152";
                     xml_BlocksCount := Some "8";
                     xml_MappedBlocksCount := Some "3";
                     xml_BlockMap := Some [Lab.range "0-1" None] |}
                  (Lab.range "0-1" None) [] 0 1 None 1%nat true false)
        as (Hbb & _ & Hcopy)
  end.
  - reflexivity.
  - vm_compute. reflexivity.
  - reflexivity.
  - reflexivity.
  - reflexivity.
  - vm_compute. reflexivity.
  - reflexivity.
  - lia.
  - split; [exact Hbb|]. apply Hcopy; [reflexivity | discriminate].
Defined.

Lemma copy_finalizes_unknown_sizes_witness :
  exists self self',
    Lab2.plain_session = Ok self
    /\ truthy_int (image_size self) = false
    /\ BmapCopy_copy Lab.sys 40 self true false = Some (Ok self')
    /\ image_size self' = Some (1 * 4096)
    /\ blocks_cnt self' = Some 1
    /\ mapped_cnt self' = Some 1.
Proof.
  eexists. eexists. split; [vm_compute; reflexivity|].
  split; [reflexivity|].
  match goal with
  | |- BmapCopy_copy _ _ ?s _ _ = Some (Ok ?s') /\ _ =>
      assert (Hcopy : BmapCopy_copy Lab.sys 40 s true false = Some (Ok s'))
        by (vm_compute; reflexivity);
      eassert (Hloop :
        write_batches s
          (rd_queue (ctl_state (_get_data Lab.sys 40 s false (reader0 s))))
          (writer0 s) = Finished _) by (vm_compute; reflexivity);
      destruct (copy_finalizes_unknown_sizes Lab.sys s 40 true false _
                  eq_refl eq_refl Hloop) as [Hsizes _];
      destruct (Hsizes _ Hcopy) as (H1 & _ & H3 & H4 & _)
  end.
  split; [exact Hcopy|]. split; [exact H1|]. split; [exact H3 | exact H4].
Defined.

Lemma copy_assertion_never_fails_witness :
  exists self,
    Lab.session Lab.sys Lab.good_ranges = Ok self
    /\ 0 < block_size self
    /\ BmapCopy_copy Lab.sys 5 self true true
       <> Some (Raise AssertionError).
Proof.
  eexists. split; [vm_compute; reflexivity|].
  split; [reflexivity|].
  match goal with
  | |- BmapCopy_copy _ _ ?s _ _ <> _ =>
      exact (proj2 (copy_assertion_never_fails Lab.sys s 5 true true
                      eq_refl))
  end.
Defined.

(** The session of [Lab.good_ranges] is a sound input. *)
Lemma good_session_sound self :
  Lab.session Lab.sys Lab.good_ranges = Ok self ->
  sound_input self Lab2.good_triplets.
Proof.
  intros H. vm_compute in H. injection H as <-.
  constructor; cbn [block_size _batch_blocks _f_bmap _xml _f_image _f_dest
                      image_size mapped_cnt im_read_error d_write_error
                      d_flush_error d_fsync_error im_data];
    try reflexivity; try lia; try discriminate.
  - do 2 eexists. split; [reflexivity|]. split; [reflexivity|].
    repeat constructor.
  - repeat constructor; vm_compute; discriminate.
Defined.

Lemma copy_writes_mapped_ranges_witness :
  exists self,
    Lab.session Lab.sys Lab.good_ranges = Ok self
    /\ sound_input self Lab2.good_triplets
    /\ range_writes self Lab2.good_triplets
       = [(0, list_byte_of_string "aaaabbbb");
          (20, list_byte_of_string "ffff")]
    /\ exists self',
         BmapCopy_copy Lab.sys 5 self true true = Some (Ok self')
         /\ written (d_log (_f_dest self'))
            = written (d_log (_f_dest self))
              ++ range_writes self Lab2.good_triplets.
Proof.
  eexists. split; [vm_compute; reflexivity|].
  match goal with
  | |- sound_input ?s _ /\ _ =>
      assert (Hsound : sound_input s Lab2.good_triplets)
        by (apply good_session_sound; vm_compute; reflexivity);
      split; [exact Hsound|]; split; [vm_compute; reflexivity|];
      destruct (copy_writes_mapped_ranges Lab.sys s Lab2.good_triplets
                  true true 5%nat Hsound)
        as (self' & mid & Hcopy & _ & _ & _ & Hwritten)
  end.
  - vm_compute. lia.
  - vm_compute. reflexivity.
  - exists self'. split; [exact Hcopy | exact Hwritten].
Defined.

Lemma copy_can_be_repeated_witness :
  exists self,
    Lab.session Lab.sys Lab.good_ranges = Ok self
    /\ sound_input self Lab2.good_triplets
    /\ exists self' self'',
         BmapCopy_copy Lab.sys 5 self true true = Some (Ok self')
         /\ BmapCopy_copy Lab.sys 5 self' true true = Some (Ok self'')
         /\ written (d_log (_f_dest self''))
            = written (d_log (_f_dest self))
              ++ range_writes self Lab2.good_triplets
              ++ range_writes self Lab2.good_triplets.
Proof.
  eexists. split; [vm_compute; reflexivity|].
  match goal with
  | |- sound_input ?s _ /\ _ =>
      assert (Hsound : sound_input s Lab2.good_triplets)
        by (apply good_session_sound; vm_compute; reflexivity);
      split; [exact Hsound|];
      destruct (copy_can_be_repeated Lab.sys s Lab2.good_triplets
                  true true 5%nat Hsound)
        as (self' & self'' & Hcopy & _ & Hagain & Hwritten)
  end.
  - vm_compute. lia.
  - vm_compute. reflexivity.
  - exists self', self''. auto.
Defined.

Lemma copy_syncs_at_watermark_witness :
  exists self self',
    Lab.bdev_session Lab.sys Lab.good_ranges = Ok self
    /\ 0 < block_size (base self)
    /\ _dest_fsync_watermark (base self) = Some 1572864
    /\ BmapCopy_copy Lab.sys 5 (base self) true true = Some (Ok self')
    /\ exists mid,
         d_log (_f_dest self')
         = d_log (_f_dest (base self)) ++ mid ++ [DestFlush; DestFsync]
         /\ forall pre pos buf post,
              mid = pre ++ DestWrite pos buf :: post ->
              unsynced pre < 1572864 * block_size (base self).
Proof.
  eexists. eexists. split; [vm_compute; reflexivity|].
  split; [reflexivity|]. split; [reflexivity|].
  match goal with
  | |- BmapCopy_copy _ _ ?s _ _ = Some (Ok ?s') /\ _ =>
      assert (Hcopy : BmapCopy_copy Lab.sys 5 s true true = Some (Ok s'))
        by (vm_compute; reflexivity);
      split; [exact Hcopy|];
      exact (copy_syncs_at_watermark Lab.sys s s' 1572864 5 true true
               eq_refl eq_refl eq_refl Hcopy)
  end.
Defined.

Lemma copy_without_bmap_copies_whole_image_witness :
  exists self,
    Lab2.plain_session = Ok self
    /\ plain_input self
    /\ exists self' mid,
         BmapCopy_copy Lab.sys 40 self true false = Some (Ok self')
         /\ d_log (_f_dest self')
            = d_log (_f_dest self) ++ mid ++ [DestFlush; DestFsync]
         /\ List.concat (map snd (written mid)) = im_data Lab.image
         /\ blocks_cnt self' = Some 1.
Proof.
  eexists. split; [vm_compute; reflexivity|].
  match goal with
  | |- plain_input ?s /\ _ =>
      assert (Hplain : plain_input s)
  end.
  { constructor; cbn [block_size _batch_blocks _f_bmap _f_image _f_dest
                        image_size blocks_cnt mapped_cnt im_read_error];
      try reflexivity.
    - repeat split.
    - right. split; reflexivity. }
  split; [exact Hplain|].
  match goal with
  | |- exists self' mid, BmapCopy_copy _ _ ?s _ _ = _ /\ _ =>
      destruct (copy_without_bmap_copies_whole_image Lab.sys s 40 true false
                  Hplain)
        as (self' & mid & Hcopy & Hlog & _ & Hdata & Hsizes)
  end.
  - vm_compute. lia.
  - exists self', mid. split; [exact Hcopy|]. split; [exact Hlog|].
    split; [exact Hdata|]. exact (proj1 (Hsizes eq_refl)).
Defined.

Lemma copy_always_ends_witness :
  exists self,
    Lab.session Lab.sys Lab.good_ranges = Ok self
    /\ 0 < block_size self
    /\ 0 < _batch_blocks self
    /\ BmapCopy_copy Lab.sys 5 self true true <> None
    /\ BmapCopy_copy Lab.sys 5 self true true
       = BmapCopy_copy Lab.sys (reader_fuel self) self true true.
Proof.
  eexists. split; [vm_compute; reflexivity|].
  split; [reflexivity|]. split; [reflexivity|].
  match goal with
  | |- BmapCopy_copy _ _ ?s _ _ <> _ /\ _ =>
      apply (copy_always_ends Lab.sys s true true 5 eq_refl eq_refl)
  end.
  vm_compute. lia.
Defined.

Lemma scheduler_is_the_bracketed_name_witness :
  scheduler_in_brackets
    (string_of_list_ascii
       ((list_ascii_of_string "noop deadline "
         ++ "["%char :: list_ascii_of_string "cfq" ++ ["]"%char])
        ++ ["010"%char]))
  = Some "cfq".
Proof.
  apply (scheduler_is_the_bracketed_name
           (list_ascii_of_string "noop deadline ")
           (list_ascii_of_string "cfq") [] ["010"%char]).
  - discriminate.
  - repeat constructor; discriminate.
  - repeat constructor; discriminate.
  - constructor.
  - right. eexists. reflexivity.
Defined.
